(** * Prompt DJ MIDI: control mapping and preset state

    A shallow embedding of the weight knob ([WeightKnob.ts]), the prompt
    controller with its MIDI learn mode, the MIDI dispatcher and the preset
    store of the [prompt-dj-midi] element, together with the properties
    the specification states about them.

    Conventions of the embedding.
    - A JavaScript number is an IEEE 754 binary64 value: Rocq's primitive
      [float], with the same rounding as the source's arithmetic.
    - A JavaScript string is a [string]; its characters are the code units
      U+0000..U+00FF.
    - A JavaScript [Map] is an association list in insertion order.
    - A method that mutates [this] is a function from the old component to
      the new one, paired with the list of events it dispatched. *)

From Stdlib Require Import ZArith Floats Uint63 String Ascii List Bool Lia.
From Stdlib Require Import DecimalString DecimalNat Permutation Sorted.
From stdpp Require Import base list strings option.
Import ListNotations.

Set Warnings "-inexact-float,-register-all".
Local Open Scope Z_scope.

(** ** JavaScript numbers *)

Module JsNum.

(** The number an integer [0 <= z < 2^63] denotes: a byte of a MIDI
    packet, a controller number. *)
Definition of_Z (z : Z) : float := PrimFloat.of_uint63 (Uint63.of_Z z).

(** [Math.max(a, b)]: NaN when an argument is NaN, and [+0] is larger
    than [-0]. *)
Definition Math_max (a b : float) : float :=
  if PrimFloat.is_nan a || PrimFloat.is_nan b then PrimFloat.nan
  else if PrimFloat.ltb a b then b
  else if PrimFloat.ltb b a then a
  else if PrimFloat.get_sign a then b else a.

(** [Math.min(a, b)]: NaN when an argument is NaN, and [-0] is smaller
    than [+0]. *)
Definition Math_min (a b : float) : float :=
  if PrimFloat.is_nan a || PrimFloat.is_nan b then PrimFloat.nan
  else if PrimFloat.ltb a b then a
  else if PrimFloat.ltb b a then b
  else if PrimFloat.get_sign a then a else b.

(** [lo <= x <= hi] with the comparisons of the language (false on NaN). *)
Definition between (lo hi x : float) : bool :=
  PrimFloat.leb lo x && PrimFloat.leb x hi.

(** A value of the specification of binary64 that is a zero or another
    finite number. *)
Definition SF_finite (x : spec_float) : bool :=
  match x with
  | S754_zero _ | S754_finite _ _ _ => true
  | S754_infinity _ | S754_nan => false
  end.

End JsNum.

(** ** JavaScript strings *)

Module JsString.

(** WhiteSpace and LineTerminator code points below U+0100: TAB, LF, VT,
    FF, CR, SPACE and NO-BREAK SPACE. *)
Definition is_white_space (c : ascii) : bool :=
  let n := nat_of_ascii c in
  (Nat.eqb n 9 || Nat.eqb n 10 || Nat.eqb n 11 || Nat.eqb n 12
   || Nat.eqb n 13 || Nat.eqb n 32 || Nat.eqb n 160)%bool.

Fixpoint trimStart (s : string) : string :=
  match s with
  | EmptyString => EmptyString
  | String c s' => if is_white_space c then trimStart s' else s
  end.

Fixpoint rev_append (s acc : string) : string :=
  match s with
  | EmptyString => acc
  | String c s' => rev_append s' (String c acc)
  end.

Definition reverse (s : string) : string := rev_append s EmptyString.

Definition trimEnd (s : string) : string := reverse (trimStart (reverse s)).

(** [String.prototype.trim]. *)
Definition trim (s : string) : string := trimEnd (trimStart s).

(** Every character of [s] is white space. *)
Fixpoint all_white_space (s : string) : bool :=
  match s with
  | EmptyString => true
  | String c s' => is_white_space c && all_white_space s'
  end.

(** Truthiness of a string: only the empty string is falsy. *)
Definition truthy (s : string) : bool :=
  match s with EmptyString => false | _ => true end.

End JsString.

(** ** The shared record types *)

Module Types.

(** Modelled from the spec: the declarations of [Prompt] and
    [ControlChange] ([types.ts]) are not among the sources. The fields
    are the ones the data model of the specification lists and the code
    reads and writes: a prompt as it travels in [prompt-changed] events
    and as the registry stores it. *)
Record Prompt : Type := mkPrompt {
  promptId : string;
  text : string;
  weight : float;
  cc : Z;
  color : string;
}.

(** Modelled from the spec: [ControlChange] of [types.ts], with the
    fields the dispatcher writes into a [cc-message] event. *)
Record ControlChange : Type := mkControlChange {
  cc_channel : Z;
  cc_cc : Z;
  cc_value : Z;
}.

End Types.

(** ** WeightKnob *)

Module WeightKnob.

Definition MIN_HALO_SCALE : float := 1%float.
Definition MAX_HALO_SCALE : float := 2%float.
Definition HALO_LEVEL_MODIFIER : float := 1%float.

Record t : Type := mk {
  value : float;
  color : string;
  audioLevel : float;
  dragStartPos : float;
  dragStartValue : float;
}.

(** The initial property values of the class. *)
Definition init : t :=
  {| value := 0%float; color := "#000"; audioLevel := 0%float;
     dragStartPos := 0%float; dragStartValue := 0%float |}.

(** The [input] events a handler dispatched, each with its detail. *)
Definition events : Type := list float.

Definition set_value (v : float) (k : t) : t :=
  {| value := v; color := color k; audioLevel := audioLevel k;
     dragStartPos := dragStartPos k; dragStartValue := dragStartValue k |}.

Definition handlePointerDown (clientY : float) (k : t) : t :=
  {| value := value k; color := color k; audioLevel := audioLevel k;
     dragStartPos := clientY; dragStartValue := value k |}.

(** The value a pointer move computes before it is clamped. *)
Definition pointerMoveRaw (clientY : float) (k : t) : float :=
  let delta := (dragStartPos k - clientY)%float in
  (dragStartValue k + delta * 0.01)%float.

Definition handlePointerMove (clientY : float) (k : t) : t * events :=
  let v := pointerMoveRaw clientY k in
  let v := JsNum.Math_max 0%float (JsNum.Math_min 2%float v) in
  (set_value v k, [v]).

(** The value a wheel event computes before it is clamped. *)
Definition wheelRaw (deltaY : float) (k : t) : float :=
  (value k + deltaY * (- 0.0025))%float.

Definition handleWheel (deltaY : float) (k : t) : t * events :=
  let v := wheelRaw deltaY k in
  let v := JsNum.Math_max 0%float (JsNum.Math_min 2%float v) in
  (set_value v k, [v]).

(** [handlePointerUp] removes the listeners of the drag and leaves the
    knob as it is. *)
Definition handlePointerUp (k : t) : t := k.

(** The events the handlers of a knob receive, with the coordinate the
    handler reads. *)
Inductive event : Type :=
| PointerDown (clientY : float)
| PointerMove (clientY : float)
| PointerUp
| Wheel (deltaY : float).

(** The coordinate of a DOM event is a finite number. *)
Definition event_finite (e : event) : bool :=
  match e with
  | PointerDown y | PointerMove y | Wheel y => PrimFloat.is_finite y
  | PointerUp => true
  end.

Definition step (k : t) (e : event) : t :=
  match e with
  | PointerDown y => handlePointerDown y k
  | PointerMove y => fst (handlePointerMove y k)
  | PointerUp => handlePointerUp k
  | Wheel d => fst (handleWheel d k)
  end.

(** The knob after a sequence of events. *)
Definition run (es : list event) (k : t) : t := fold_left step es k.

(** The value is in [[0, 2]] and the reference of the drag is finite. *)
Definition in_range (k : t) : bool :=
  JsNum.between 0%float 2%float (value k)
  && PrimFloat.is_finite (dragStartValue k)
  && PrimFloat.is_finite (dragStartPos k).

(** The [scale] of the halo's transform in [render]. *)
Definition haloScale (k : t) : float :=
  let scale := (value k / 2 * (MAX_HALO_SCALE - MIN_HALO_SCALE))%float in
  let scale := (scale + MIN_HALO_SCALE)%float in
  (scale + audioLevel k * HALO_LEVEL_MODIFIER)%float.

(** The halo's [display] is ['block'] ([true]) or ['none'] ([false]). *)
Definition haloDisplayed (k : t) : bool := PrimFloat.ltb 0%float (value k).

End WeightKnob.

(** ** MidiDispatcher *)

Module MidiDispatcher.

Record t : Type := mk {
  activeMidiInputId : option string;
}.

(** A raw MIDI packet: the status byte and the two data bytes. *)
Record packet : Type := mkPacket {
  status : Z;
  data1 : Z;
  data2 : Z;
}.

(** The [onmidimessage] handler installed on the input [inputId]: the
    [cc-message] events it dispatches for an event whose [data] is
    [data] ([None] when the event carries no data). *)
Definition onmidimessage (inputId : string) (data : option packet)
    (d : t) : list Types.ControlChange :=
  if bool_decide (Some inputId = activeMidiInputId d) then
    match data with
    | None => []
    | Some p =>
        let statusByte := status p in
        let channel := Z.land statusByte 0x0f in
        let messageType := Z.land statusByte 0xf0 in
        if Z.eqb messageType 0xb0
        then [ Types.mkControlChange channel (data1 p) (data2 p) ]
        else []
    end
  else [].

End MidiDispatcher.

(** ** PromptController *)

Module PromptController.

Record t : Type := mk {
  promptId : string;
  text : string;
  weight : float;
  color : string;
  filtered : bool;
  cc : Z;
  channel : Z;
  learnMode : bool;
  showCC : bool;
  audioLevel : float;
  lastValidText : string;
  (** The [textContent] of the editable [#text] element. *)
  textContent : string;
}.

(** The [prompt-changed] events a handler dispatched. *)
Definition events : Type := list Types.Prompt.

Definition dispatchPromptChange (k : t) : events :=
  [ Types.mkPrompt (promptId k) (text k) (weight k) (cc k) (color k) ].

Definition set_learnMode (b : bool) (k : t) : t :=
  {| promptId := promptId k; text := text k; weight := weight k;
     color := color k; filtered := filtered k; cc := cc k;
     channel := channel k; learnMode := b; showCC := showCC k;
     audioLevel := audioLevel k; lastValidText := lastValidText k;
     textContent := textContent k |}.

Definition set_weight (w : float) (k : t) : t :=
  {| promptId := promptId k; text := text k; weight := w;
     color := color k; filtered := filtered k; cc := cc k;
     channel := channel k; learnMode := learnMode k; showCC := showCC k;
     audioLevel := audioLevel k; lastValidText := lastValidText k;
     textContent := textContent k |}.

(** The listener [connectedCallback] registers for [cc-message]. *)
Definition on_cc_message (m : Types.ControlChange) (k : t) : t * events :=
  if learnMode k then
    let k' :=
      {| promptId := promptId k; text := text k; weight := weight k;
         color := color k; filtered := filtered k; cc := Types.cc_cc m;
         channel := Types.cc_channel m; learnMode := false; showCC := showCC k;
         audioLevel := audioLevel k; lastValidText := lastValidText k;
         textContent := textContent k |} in
    (k', dispatchPromptChange k')
  else if Z.eqb (Types.cc_cc m) (cc k) then
    let k' :=
      set_weight (JsNum.of_Z (Types.cc_value m) / 127 * 2)%float k in
    (k', dispatchPromptChange k')
  else (k, []).

Definition resetText (k : t) : t :=
  {| promptId := promptId k; text := lastValidText k; weight := weight k;
     color := color k; filtered := filtered k; cc := cc k;
     channel := channel k; learnMode := learnMode k; showCC := showCC k;
     audioLevel := audioLevel k; lastValidText := lastValidText k;
     textContent := lastValidText k |}.

(** The [blur] handler of the text element. *)
Definition updateText (k : t) : t * events :=
  let newText := JsString.trim (textContent k) in
  let k' :=
    if negb (JsString.truthy newText) then resetText k
    else
      {| promptId := promptId k; text := newText; weight := weight k;
         color := color k; filtered := filtered k; cc := cc k;
         channel := channel k; learnMode := learnMode k;
         showCC := showCC k; audioLevel := audioLevel k;
         lastValidText := newText; textContent := textContent k |} in
  (k', dispatchPromptChange k').

(** The [input] handler of the knob: [w] is the knob's value. *)
Definition updateWeight (w : float) (k : t) : t * events :=
  let k' := set_weight w k in
  (k', dispatchPromptChange k').

(** The [click] handler of the [#midi] element. *)
Definition toggleLearnMode (k : t) : t :=
  set_learnMode (negb (learnMode k)) k.

(** The part of [update] that reacts to a change of [showCC]. *)
Definition update_showCC (show : bool) (k : t) : t :=
  let k' :=
    {| promptId := promptId k; text := text k; weight := weight k;
       color := color k; filtered := filtered k; cc := cc k;
       channel := channel k; learnMode := learnMode k; showCC := show;
       audioLevel := audioLevel k; lastValidText := lastValidText k;
       textContent := textContent k |} in
  if negb show then set_learnMode false k' else k'.

(** [firstUpdated]: the text is written into the text element and kept
    as the last valid text. *)
Definition firstUpdated (k : t) : t :=
  {| promptId := promptId k; text := text k; weight := weight k;
     color := color k; filtered := filtered k; cc := cc k;
     channel := channel k; learnMode := learnMode k; showCC := showCC k;
     audioLevel := audioLevel k; lastValidText := text k;
     textContent := text k |}.

(** The property [text] set from outside, and the part of [update] that
    reacts to it once the text element exists. A value equal to the
    present one is no change, and [update] is not told of one; another
    value is written into the text element. [lastValidText] is not
    written. *)
Definition update_text (newText : string) (k : t) : t :=
  if String.eqb newText (text k) then k
  else
    {| promptId := promptId k; text := newText; weight := weight k;
       color := color k; filtered := filtered k; cc := cc k;
       channel := channel k; learnMode := learnMode k; showCC := showCC k;
       audioLevel := audioLevel k; lastValidText := lastValidText k;
       textContent := newText |}.

(** The attributes [render] passes to the knob. *)
Definition knobAudioLevel (k : t) : float :=
  if filtered k then 0%float else audioLevel k.

End PromptController.

(** ** The grid of prompt controllers

    [renderPrompts] creates one controller per prompt, and every
    controller registers its own listener on the one dispatcher. *)

Module Grid.

(** A [cc-message] event reaches every controller, in order. *)
Fixpoint dispatch_cc (m : Types.ControlChange) (g : list PromptController.t)
    : list PromptController.t * list Types.Prompt :=
  match g with
  | [] => ([], [])
  | k :: g' =>
      let '(k', ev) := PromptController.on_cc_message m k in
      let '(g'', evs) := dispatch_cc m g' in
      (k' :: g'', ev ++ evs)
  end.

(** A click on the [#midi] element of the controller at index [i]. *)
Definition click_midi (i : nat) (g : list PromptController.t)
    : list PromptController.t :=
  alter PromptController.toggleLearnMode i g.

(** [renderPrompts] run again by the parent: the template is the same,
    so the controller that stands at a place of the grid stays, and the
    prompt [p] that is now at that place is bound to it. The properties
    bound to the parent's own state ([showCC], [audioLevel], the
    dispatcher) are bound to what they were. *)
Definition rebind (p : Types.Prompt) (isFiltered : bool)
    (k : PromptController.t) : PromptController.t :=
  PromptController.update_text (Types.text p)
    {| PromptController.promptId := Types.promptId p;
       PromptController.text := PromptController.text k;
       PromptController.weight := Types.weight p;
       PromptController.color := Types.color p;
       PromptController.filtered := isFiltered;
       PromptController.cc := Types.cc p;
       PromptController.channel := PromptController.channel k;
       PromptController.learnMode := PromptController.learnMode k;
       PromptController.showCC := PromptController.showCC k;
       PromptController.audioLevel := PromptController.audioLevel k;
       PromptController.lastValidText := PromptController.lastValidText k;
       PromptController.textContent := PromptController.textContent k |}.

(** The controllers that are in learn mode. *)
Definition learning (g : list PromptController.t)
    : list PromptController.t :=
  filter (fun k => PromptController.learnMode k = true) g.

End Grid.

(** ** JavaScript Maps

    A [Map] keeps its entries in insertion order; [set] on a key that is
    present replaces the value where the entry stands. *)

Module JsMap.

Section Ops.

Context {K V : Type} (same : K -> K -> bool).

Fixpoint get (k : K) (m : list (K * V)) : option V :=
  match m with
  | [] => None
  | (k', v) :: m' => if same k' k then Some v else get k m'
  end.

Definition has (k : K) (m : list (K * V)) : bool :=
  match get k m with Some _ => true | None => false end.

Fixpoint set (k : K) (v : V) (m : list (K * V)) : list (K * V) :=
  match m with
  | [] => [(k, v)]
  | (k', v') :: m' =>
      if same k' k then (k', v) :: m' else (k', v') :: set k v m'
  end.

Fixpoint delete (k : K) (m : list (K * V)) : list (K * V) :=
  match m with
  | [] => []
  | (k', v') :: m' =>
      if same k' k then m' else (k', v') :: delete k m'
  end.

(** [new Map(entries)]: the entries are set one after the other. *)
Definition of_entries (es : list (K * V)) : list (K * V) :=
  fold_left (fun m e => set (fst e) (snd e) m) es [].

Definition keys (m : list (K * V)) : list K := map fst m.

End Ops.

End JsMap.

(** ** JavaScript values and JSON *)

Module Js.

(** The values [JSON.parse] builds, and [undefined]. An object is the list
    of its own enumerable properties in enumeration order. *)
Inductive value : Type :=
| VUndef
| VNull
| VBool (b : bool)
| VNum (x : float)
| VStr (s : string)
| VArr (items : list value)
| VObj (props : list (string * value)).

Definition is_undefined (v : value) : bool :=
  match v with VUndef => true | _ => false end.

(** [Type(v)] is Object. *)
Definition is_object (v : value) : bool :=
  match v with VArr _ | VObj _ => true | _ => false end.

(** The errors the modelled code can throw. *)
Inductive error : Type := SyntaxError | TypeError.

(** The completion of a call: a value, or a thrown error. *)
Inductive result (A : Type) : Type :=
| Ok (a : A)
| Throw (e : error).

Arguments Ok {A} a.
Arguments Throw {A} e.

Definition bind {A B : Type} (r : result A) (f : A -> result B) : result B :=
  match r with
  | Ok a => f a
  | Throw e => Throw e
  end.

(** [SameValueZero] on a key of a [Map] against another: numbers by value
    with NaN equal to itself and the two zeros equal, strings and booleans
    by value, and an object only to itself; two objects met at different
    places of a parsed text are different objects. *)
Definition sameValueZero (a b : value) : bool :=
  match a, b with
  | VUndef, VUndef => true
  | VNull, VNull => true
  | VBool x, VBool y => Bool.eqb x y
  | VNum x, VNum y =>
      PrimFloat.eqb x y || (PrimFloat.is_nan x && PrimFloat.is_nan y)
  | VStr x, VStr y => String.eqb x y
  | _, _ => false
  end.

End Js.

Module Json.

Import Js.

(** What a string holds, as [JSON.parse] and the truthiness test read
    it: the empty string, a text that is not JSON, or the JSON text of a
    value. *)
Inductive text : Type :=
| Text_empty
| Text_not_json
| Text_json (v : value).

Definition truthy (t : text) : bool :=
  match t with Text_empty => false | _ => true end.

(** The value [JSON.parse] gives back for the text [JSON.stringify]
    writes for [v]: a number that is not finite becomes [null], the
    negative zero becomes zero, an [undefined] array element becomes
    [null] and an [undefined] property is left out. *)
Fixpoint reparsed (v : value) : value :=
  match v with
  | VUndef => VNull
  | VNull => VNull
  | VBool b => VBool b
  | VNum x =>
      if PrimFloat.is_finite x
      then (if PrimFloat.is_zero x then VNum 0%float else VNum x)
      else VNull
  | VStr s => VStr s
  | VArr items => VArr (map reparsed items)
  | VObj props =>
      VObj ((fix over (ps : list (string * value)) :=
               match ps with
               | [] => []
               | (k, x) :: ps' =>
                   if is_undefined x then over ps'
                   else (k, reparsed x) :: over ps'
               end) props)
  end.

(** [JSON.stringify(v)] for an object [v]. *)
Definition stringify (v : value) : text := Text_json (reparsed v).

(** [JSON.parse(t)]. *)
Definition parse (t : text) : result value :=
  match t with
  | Text_json v => Ok v
  | Text_empty | Text_not_json => Throw SyntaxError
  end.

End Json.

(** ** Ordinary objects used as dictionaries *)

Module JsObject.

Import Js.

Definition digit_value (c : ascii) : option N :=
  let n := N_of_ascii c in
  if (48 <=? n)%N && (n <=? 57)%N then Some (n - 48)%N else None.

Fixpoint digits_value (s : string) (acc : N) : option N :=
  match s with
  | EmptyString => Some acc
  | String c s' =>
      match digit_value c with
      | Some d => digits_value s' (acc * 10 + d)%N
      | None => None
      end
  end.

(** The array index a property name denotes: a canonical numeric string
    below [2^32 - 1]. *)
Definition array_index (name : string) : option N :=
  match name with
  | EmptyString => None
  | String c rest =>
      if Ascii.eqb c "0" && negb (String.eqb rest EmptyString) then None
      else
        match digits_value name 0%N with
        | Some n => if (n <? 4294967295)%N then Some n else None
        | None => None
        end
  end.

Definition is_array_index (name : string) : bool :=
  match array_index name with Some _ => true | None => false end.

(** Two names that are array indices, the first the smaller index: an
    object enumerates such names in this order. *)
Definition index_lt (a b : string) : Prop :=
  match array_index a, array_index b with
  | Some x, Some y => (x < y)%N
  | _, _ => False
  end.

Section Properties.

(** The own properties of an object, with values of any kind. *)
Context {V : Type}.

(** A new property whose name is the array index [n] goes before the
    first property that is not an array index or is a larger one. *)
Fixpoint insert_index (n : N) (name : string) (v : V)
    (own : list (string * V)) : list (string * V) :=
  match own with
  | [] => [(name, v)]
  | (k', v') :: own' =>
      match array_index k' with
      | Some n' =>
          if (n <? n')%N then (name, v) :: own
          else (k', v') :: insert_index n name v own'
      | None => (name, v) :: own
      end
  end.

(** Defining the own data property [name]: a present one keeps its place,
    a new array index is put in ascending order before the other names,
    another new name goes last. *)
Definition define_own (name : string) (v : V)
    (own : list (string * V)) : list (string * V) :=
  match array_index name with
  | Some n =>
      if JsMap.has String.eqb name own then JsMap.set String.eqb name v own
      else insert_index n name v own
  | None => JsMap.set String.eqb name v own
  end.

(** The assignment [obj[name] = v] on an object created by [{}], as far
    as the own properties go. The name [__proto__] is an accessor of
    [Object.prototype]: assigning to it changes the prototype of [obj]
    (or does nothing when [v] is not an object or [null]) and defines no
    own property. *)
Definition assign (name : string) (v : V)
    (own : list (string * V)) : list (string * V) :=
  if String.eqb name "__proto__" then own else define_own name v own.

End Properties.

Fixpoint indexed (i : nat) (items : list value) : list (string * value) :=
  match items with
  | [] => []
  | x :: items' =>
      (NilEmpty.string_of_uint (Nat.to_uint i), x) :: indexed (S i) items'
  end.

Fixpoint characters (s : string) : list value :=
  match s with
  | EmptyString => []
  | String c s' => VStr (String c EmptyString) :: characters s'
  end.

(** The pairs [(name, obj[name])] a [for (name in obj)] loop guarded by
    [Object.hasOwn(obj, name)] visits. *)
Definition own_entries (obj : value) : list (string * value) :=
  match obj with
  | VObj props => props
  | VArr items => indexed 0 items
  | VStr s => indexed 0 (characters s)
  | VUndef | VNull | VBool _ | VNum _ => []
  end.

(** [entry[0]] and [entry[1]] of an entry object. *)
Definition entry_key_value (entry : value) : value * value :=
  match entry with
  | VArr items => (nth 0 items VUndef, nth 1 items VUndef)
  | VObj props =>
      (default VUndef (JsMap.get String.eqb "0" props),
       default VUndef (JsMap.get String.eqb "1" props))
  | _ => (VUndef, VUndef)
  end.

(** The key a [Map] stores: the negative zero is stored as zero. *)
Definition map_key (k : value) : value :=
  match k with
  | VNum x => if PrimFloat.is_zero x then VNum 0%float else k
  | _ => k
  end.

Fixpoint add_entries (entries : list value) (m : list (value * value))
    : result (list (value * value)) :=
  match entries with
  | [] => Ok m
  | e :: entries' =>
      if is_object e then
        let '(k, v) := entry_key_value e in
        add_entries entries' (JsMap.set sameValueZero (map_key k) v m)
      else Throw TypeError
  end.

(** [new Map(iterable)]: [undefined] and [null] give the empty map, an
    array or a string is iterated and every item must be an object, any
    other value is not iterable. *)
Definition new_Map (iterable : value) : result (list (value * value)) :=
  match iterable with
  | VUndef | VNull => Ok []
  | VArr items => add_entries items []
  | VStr s => add_entries (characters s) []
  | VBool _ | VNum _ | VObj _ => Throw TypeError
  end.

(** [Array.from(map.entries())]. *)
Definition entries_array (m : list (value * value)) : value :=
  VArr (map (fun kv => VArr [fst kv; snd kv]) m).

End JsObject.

(** ** PromptDjMidi: the preset store and the prompt registry *)

Module PromptDjMidi.

Import Js.

(** What a handler did besides changing the element: the
    [prompts-changed] event it dispatched with its detail, an alert it
    showed, or an error it logged. *)
Inductive output (M : Type) : Type :=
| Prompts_changed (detail : M)
| Alert_cannot_overwrite_default (name : string)
| Alert_cannot_delete_default
| Console_error_prompt_not_found (promptId : string).

Arguments Prompts_changed {M} detail.
Arguments Alert_cannot_overwrite_default {M} name.
Arguments Alert_cannot_delete_default {M}.
Arguments Console_error_prompt_not_found {M} promptId.

(** A map of presets, or the user presets read back from storage, as
    the values the two serialisation methods see at run time. *)
Definition preset_values : Type := list (string * list (value * value)).

Definition serializePresets (presets : preset_values) : Json.text :=
  let obj :=
    fold_left
      (fun obj e =>
         JsObject.assign (fst e) (JsObject.entries_array (snd e)) obj)
      presets [] in
  Json.stringify (VObj obj).

(** The body of the [for (name in obj)] loop of [deserializePresets]. *)
Fixpoint collect_presets (own : list (string * value))
    (presets : preset_values) : result preset_values :=
  match own with
  | [] => Ok presets
  | (name, v) :: own' =>
      bind (JsObject.new_Map v)
        (fun m => collect_presets own' (JsMap.set String.eqb name m presets))
  end.

Definition deserializePresets (jsonString : Json.text)
    : result preset_values :=
  bind (Json.parse jsonString)
    (fun obj => collect_presets (JsObject.own_entries obj) []).

(** The presets in the order in which an object that has their names as
    properties enumerates them. *)
Definition enumeration_order (presets : preset_values) : preset_values :=
  fold_left (fun obj e => JsObject.assign (fst e) (snd e) obj) presets [].

(** A value that [JSON.stringify] and [JSON.parse] give back as it is. *)
Definition json_value (v : value) : Prop := Json.reparsed v = v.

(** A map of prompts as the registry holds it: the keys are strings, all
    different, and the prompts are values of JSON. *)
Definition json_map (m : list (value * value)) : Prop :=
  NoDup (JsMap.keys m) /\
  Forall (fun e => (exists s : string, fst e = VStr s) /\ json_value (snd e))
    m.

(** The element, over the representation of a [Map<string, Prompt>]: a
    list of entries with keys in [K] and prompts in [P]. A prompt is
    either a reference into a store of prompt objects or the value of the
    object; [reify] gives the values a map of prompts holds, for
    [JSON.stringify]. Copying a map with [new Map(m)] gives a map with
    the same entries: the same list. *)
Section Element.

Variables K P : Type.

Definition PromptMap : Type := list (K * P).

Variable reify : PromptMap -> list (value * value).

Record t : Type := mk {
  presets : list (string * PromptMap);
  activePresetName : option string;
  defaultPresets : list (string * PromptMap);
  prompts : PromptMap;
  (** The item of [localStorage] under [PRESETS_STORAGE_KEY]. *)
  localStorage : option Json.text;
}.

Definition set_presets (ps : list (string * PromptMap)) (st : t) : t :=
  {| presets := ps; activePresetName := activePresetName st;
     defaultPresets := defaultPresets st; prompts := prompts st;
     localStorage := localStorage st |}.

Definition set_activePresetName (name : option string) (st : t) : t :=
  {| presets := presets st; activePresetName := name;
     defaultPresets := defaultPresets st; prompts := prompts st;
     localStorage := localStorage st |}.

Definition set_prompts (m : PromptMap) (st : t) : t :=
  {| presets := presets st; activePresetName := activePresetName st;
     defaultPresets := defaultPresets st; prompts := m;
     localStorage := localStorage st |}.

Definition set_localStorage (s : option Json.text) (st : t) : t :=
  {| presets := presets st; activePresetName := activePresetName st;
     defaultPresets := defaultPresets st; prompts := prompts st;
     localStorage := s |}.

(** [m.get(name)] and [m.has(name)] for a name that may be [undefined]
    ([None]), which is the key of no preset. *)
Definition get_preset (name : option string)
    (m : list (string * PromptMap)) : option PromptMap :=
  match name with
  | Some n => JsMap.get String.eqb n m
  | None => None
  end.

Definition has_preset (name : option string)
    (m : list (string * PromptMap)) : bool :=
  match get_preset name m with Some _ => true | None => false end.

(** [defaultPresets.keys().next().value]. *)
Definition first_default (defaults : list (string * PromptMap))
    : option string :=
  head (JsMap.keys defaults).

Definition constructor (defaults : list (string * PromptMap))
    (storage : option Json.text) : t :=
  let name := first_default defaults in
  {| presets := []; activePresetName := name; defaultPresets := defaults;
     prompts := default [] (get_preset name defaults);
     localStorage := storage |}.

Definition savePresetsToStorage (st : t) : t :=
  let userPresets :=
    fold_left
      (fun user e =>
         if negb (JsMap.has String.eqb (fst e) (defaultPresets st))
         then JsMap.set String.eqb (fst e) (snd e) user
         else user)
      (presets st) [] in
  set_localStorage
    (Some (serializePresets (map (fun e => (fst e, reify (snd e))) userPresets)))
    st.

Definition loadActivePreset (st : t) : t * list (output PromptMap) :=
  match get_preset (activePresetName st) (presets st) with
  | Some presetPrompts =>
      (set_prompts presetPrompts st, [Prompts_changed presetPrompts])
  | None => (st, [])
  end.

(** The two statements of [loadPresets] that follow the reading of the
    stored presets. *)
Definition install_presets (userPresets : list (string * PromptMap))
    (st : t) : t * list (output PromptMap) :=
  loadActivePreset
    (set_presets
       (JsMap.of_entries String.eqb (defaultPresets st ++ userPresets)) st).

(** The [change] handler of the preset selector; [value] is the value of
    the selector. *)
Definition handlePresetChange (value : string) (st : t)
    : t * list (output PromptMap) :=
  loadActivePreset (set_activePresetName (Some value) st).

(** [answer] is what [window.prompt] returns ([None] for [null]) and
    [confirmed] what [window.confirm] returns when it is asked. *)
Definition saveCurrentPreset (answer : option string) (confirmed : bool)
    (st : t) : t * list (output PromptMap) :=
  match answer with
  | None => (st, [])
  | Some name =>
      if negb (JsString.truthy name) then (st, [])
      else
        let name := JsString.trim name in
        if negb (JsString.truthy name) then (st, [])
        else if JsMap.has String.eqb name (defaultPresets st)
        then (st, [Alert_cannot_overwrite_default name])
        else if JsMap.has String.eqb name (presets st)
                && negb (JsMap.has String.eqb name (defaultPresets st))
                && negb confirmed
        then (st, [])
        else
          let st1 :=
            set_presets (JsMap.set String.eqb name (prompts st) (presets st))
              st in
          let st2 := set_activePresetName (Some name) st1 in
          (savePresetsToStorage st2, [])
  end.

Definition deleteCurrentPreset (confirmed : bool) (st : t)
    : t * list (output PromptMap) :=
  if has_preset (activePresetName st) (defaultPresets st)
  then (st, [Alert_cannot_delete_default])
  else if confirmed then
    let st1 :=
      match activePresetName st with
      | Some n => set_presets (JsMap.delete String.eqb n (presets st)) st
      | None => st
      end in
    let st2 :=
      set_activePresetName (first_default (defaultPresets st1)) st1 in
    let '(st3, out) := loadActivePreset st2 in
    (savePresetsToStorage st3, out)
  else (st, []).

End Element.

Arguments presets {K P} t.
Arguments activePresetName {K P} t.
Arguments defaultPresets {K P} t.
Arguments prompts {K P} t.
Arguments localStorage {K P} t.
Arguments set_presets {K P} ps st.
Arguments set_activePresetName {K P} name st.
Arguments set_prompts {K P} m st.
Arguments set_localStorage {K P} s st.
Arguments get_preset {K P} name m.
Arguments has_preset {K P} name m.
Arguments first_default {K P} defaults.
Arguments constructor {K P} defaults storage.
Arguments savePresetsToStorage {K P} reify st.
Arguments loadActivePreset {K P} st.
Arguments install_presets {K P} userPresets st.
Arguments handlePresetChange {K P} value st.
Arguments saveCurrentPreset {K P} reify answer confirmed st.
Arguments deleteCurrentPreset {K P} reify confirmed st.

(** *** Loading the presets at startup

    [loadPresets] reads no field of a prompt and changes none, so here a
    prompt is the value [JSON.parse] built, or the value of a built-in
    prompt object. *)

Definition by_value : Type := t value value.

Definition loadPresets (st : by_value)
    : result (by_value * list (output (list (value * value)))) :=
  let storedPresets := localStorage st in
  bind
    (match storedPresets with
     | Some s => if Json.truthy s then deserializePresets s else Ok []
     | None => Ok []
     end)
    (fun userPresets => Ok (install_presets userPresets st)).

(** [connectedCallback], after the base class's own. *)
Definition connectedCallback (st : by_value)
    : result (by_value * list (output (list (value * value)))) :=
  loadPresets st.

(** *** The registry of prompt objects

    The maps of the element hold references to prompt objects; a [Map]
    copied with [new Map(m)] holds the same references. [heap] is the
    store of the prompt objects, a reference is an index into it. *)

Definition loc : Type := nat.

Definition heap : Type := list Types.Prompt.

Definition by_reference : Type := t string loc.

(** The value of a prompt object, with its properties in the order
    [buildInitialPresets] writes them. *)
Definition Prompt_value (p : Types.Prompt) : value :=
  VObj [ ("promptId", VStr (Types.promptId p));
         ("text", VStr (Types.text p));
         ("weight", VNum (Types.weight p));
         ("cc", VNum (JsNum.of_Z (Types.cc p)));
         ("color", VStr (Types.color p)) ].

Definition deref (h : heap) (m : list (string * loc))
    : list (string * option Types.Prompt) :=
  map (fun e => (fst e, h !! snd e)) m.

Definition reify (h : heap) (m : list (string * loc))
    : list (value * value) :=
  map (fun e =>
         (VStr (fst e),
          match h !! snd e with
          | Some p => Prompt_value p
          | None => VUndef
          end)) m.

(** The handler of [prompt-changed]: the fields of the event are written
    into the prompt object the registry holds. *)
Definition handlePromptChanged (e : Types.Prompt) (h : heap)
    (st : by_reference)
    : heap * by_reference * list (output (list (string * loc))) :=
  match JsMap.get String.eqb (Types.promptId e) (prompts st) with
  | None => (h, st, [Console_error_prompt_not_found (Types.promptId e)])
  | Some prompt =>
      let h' :=
        alter
          (fun p =>
             Types.mkPrompt (Types.promptId p) (Types.text e)
               (Types.weight e) (Types.cc e) (Types.color p))
          prompt h in
      let newPrompts :=
        JsMap.set String.eqb (Types.promptId e) prompt (prompts st) in
      (h', set_prompts newPrompts st, [Prompts_changed newPrompts])
  end.

(** The built-in presets ([index.tsx]): a prompt of the table has a
    colour, a text and maybe a weight. *)
Record seed : Type := mkSeed {
  seed_color : string;
  seed_text : string;
  seed_weight : option float;
}.

Fixpoint build_prompts (i : nat) (seeds : list seed) (h : heap)
    (promptMap : list (string * loc)) : heap * list (string * loc) :=
  match seeds with
  | [] => (h, promptMap)
  | s :: seeds' =>
      let promptId :=
        ("prompt-" ++ NilEmpty.string_of_uint (Nat.to_uint i))%string in
      let prompt :=
        Types.mkPrompt promptId (seed_text s)
          (default 0%float (seed_weight s)) (Z.of_nat i) (seed_color s) in
      build_prompts (S i) seeds' (h ++ [prompt])
        (JsMap.set String.eqb promptId (length h) promptMap)
  end.

Fixpoint build_presets (table : list (string * list seed)) (h : heap)
    (presets : list (string * list (string * loc)))
    : heap * list (string * list (string * loc)) :=
  match table with
  | [] => (h, presets)
  | (name, seeds) :: table' =>
      let '(h', promptMap) := build_prompts 0 seeds h [] in
      build_presets table' h' (JsMap.set String.eqb name promptMap presets)
  end.

Definition buildInitialPresets (table : list (string * list seed))
    : heap * list (string * list (string * loc)) :=
  build_presets table [] [].

End PromptDjMidi.

(** ** The built-in table and the states the examples start from *)

Module Examples.

Import PromptDjMidi.

Definition seed3 (c t : string) (w : float) : seed :=
  mkSeed c t (Some w).

Definition seed2 (c t : string) : seed := mkSeed c t None.

(** [DEFAULT_PRESETS] of [index.tsx]. *)
Definition DEFAULT_PRESETS : list (string * list seed) :=
  [ ("Ambient Dreams",
     [ seed3 "#3dffab" "Lush Strings" 1%float;
       seed3 "#d8ff3e" "Sparkling Arpeggios" 1%float;
       seed2 "#9900ff" "Warm Pads";
       seed2 "#5200ff" "Ethereal Vocals";
       seed2 "#ff25f6" "Deep Bass Drone";
       seed2 "#2af6de" "Gentle Piano Melody";
       seed2 "#ffdd28" "Slow Attack Cello";
       seed2 "#d9b2ff" "Glassy FM Synthesis";
       seed2 "#9900ff" "Chimes";
       seed2 "#3dffab" "Reverb Washed Guitar";
       seed2 "#d8ff3e" "Subtle White Noise";
       seed2 "#ff25f6" "Harp Glissandos";
       seed2 "#5200ff" "Sine Wave Bass";
       seed2 "#2af6de" "Kalimba";
       seed2 "#ffdd28" "Ominous Choir";
       seed2 "#d9b2ff" "Rainstick" ]);
    ("Synthwave Drive",
     [ seed3 "#ff25f6" "Gated Reverb Drums" 1%float;
       seed3 "#2af6de" "Driving Bassline" 1%float;
       seed3 "#ffdd28" "Sawtooth Lead Synth" 0.5%float;
       seed2 "#9900ff" "Analog Brass Stabs";
       seed2 "#5200ff" "80s Movie Score";
       seed2 "#3dffab" "Retro Electric Guitar";
       seed2 "#d8ff3e" "FM Bells";
       seed2 "#d9b2ff" "Sequenced Arpeggio";
       seed2 "#ff25f6" "LinnDrum Machine";
       seed2 "#2af6de" "Vocoder";
       seed2 "#ffdd28" "Neon Pad";
       seed2 "#9900ff" "Power Drums";
       seed2 "#5200ff" "Cyberpunk Atmosphere";
       seed2 "#3dffab" "Synth Flute";
       seed2 "#d8ff3e" "Dark Synth Drone";
       seed2 "#d9b2ff" "Laser Sounds" ]);
    ("Lo-Fi Beats",
     [ seed3 "#d8ff3e" "Jazzy Electric Piano" 1%float;
       seed3 "#ffdd28" "Vinyl Crackle" 0.8%float;
       seed3 "#3dffab" "Boom Bap Drums" 1%float;
       seed2 "#9900ff" "Mellow Trumpet";
       seed2 "#5200ff" "Upright Bass";
       seed2 "#ff25f6" "MPC Sampled Vocals";
       seed2 "#2af6de" "Relaxing Guitar Lick";
       seed2 "#d9b2ff" "Tape Hiss";
       seed2 "#d8ff3e" "Wobbly Synth Pad";
       seed2 "#ffdd28" "Organ";
       seed2 "#3dffab" "Finger Snaps";
       seed2 "#9900ff" "Saxophone Riff";
       seed2 "#5200ff" "Sub Bass";
       seed2 "#ff25f6" "Flute Melody";
       seed2 "#2af6de" "Gameboy Sounds";
       seed2 "#d9b2ff" "Muffled Kick Drum" ]) ].

(** The prompt objects and the presets [main] builds. *)
Definition initial_heap : heap := fst (buildInitialPresets DEFAULT_PRESETS).

Definition initialPresets : list (string * list (string * loc)) :=
  snd (buildInitialPresets DEFAULT_PRESETS).

(** The element once it is connected, with nothing in storage. *)
Definition started : by_reference :=
  fst (install_presets [] (constructor initialPresets None)).

(** The built-in presets as values, and the element that holds them
    before it is connected, with [stored] in storage. *)
Definition initialPresets_values : preset_values :=
  map (fun e => (fst e, reify initial_heap (snd e))) initialPresets.

Definition fresh (stored : option Json.text) : by_value :=
  constructor initialPresets_values stored.

(** A controller as [renderPrompts] creates it for the prompt [p]. *)
Definition controller_of (p : Types.Prompt) (learn : bool)
    : PromptController.t :=
  PromptController.mk (Types.promptId p) (Types.text p) (Types.weight p)
    (Types.color p) false (Types.cc p) 0 learn true 0%float
    (Types.text p) (Types.text p).

(** The controller after the user typed [s] into its text element. *)
Definition retyped (k : PromptController.t) (s : string)
    : PromptController.t :=
  PromptController.mk (PromptController.promptId k)
    (PromptController.text k) (PromptController.weight k)
    (PromptController.color k) (PromptController.filtered k)
    (PromptController.cc k) (PromptController.channel k)
    (PromptController.learnMode k) (PromptController.showCC k)
    (PromptController.audioLevel k) (PromptController.lastValidText k) s.

Definition lush_strings : Types.Prompt :=
  Types.mkPrompt "prompt-0" "Lush Strings" 1%float 0 "#3dffab".

Definition warm_pads : Types.Prompt :=
  Types.mkPrompt "prompt-2" "Warm Pads" 0%float 2 "#9900ff".

(** A knob bound to controller 7, as in the scenario of the
    specification. *)
Definition knob_cc7 : PromptController.t :=
  controller_of
    (Types.mkPrompt "prompt-7" "Glassy FM Synthesis" 0%float 7 "#d9b2ff")
    false.

(** The packet and the message of the scenario: controller 7 at the
    value 64, and the same value on controller 8. *)
Definition packet_cc7 : MidiDispatcher.packet :=
  MidiDispatcher.mkPacket 0xB0 7 64.

Definition message_cc7 : Types.ControlChange :=
  Types.mkControlChange 0 7 64.

Definition message_cc8 : Types.ControlChange :=
  Types.mkControlChange 0 8 64.

(** A knob in the middle of a drag that started at height 300. *)
Definition dragged_knob : WeightKnob.t :=
  WeightKnob.handlePointerDown 300%float
    (WeightKnob.set_value 1%float WeightKnob.init).

(** The element after the user saved the registry as [Mine]. *)
Definition saved : by_reference :=
  fst (saveCurrentPreset (reify initial_heap) (Some "Mine") true started).

(** The changed event of the first knob, turned up to 2. *)
Definition turned_up : Types.Prompt :=
  Types.mkPrompt "prompt-0" "Lush Strings" 2%float 0 "#3dffab".

Definition after_turn
    : heap * by_reference * list (output (list (string * loc))) :=
  handlePromptChanged turned_up initial_heap saved.

(** The first prompt of the preset [name], read through the store [h]. *)
Definition first_prompt (h : heap) (name : string) (st : by_reference)
    : option Types.Prompt :=
  match get_preset (Some name) (presets st) with
  | Some ((_, r) :: _) => h !! r
  | _ => None
  end.

(** The first controller of the grid after its first update, and after
    the user chose the preset [Synthwave Drive]: the element loads the
    preset and renders its prompts into the same controllers. *)
Definition first_controller : PromptController.t :=
  PromptController.firstUpdated (controller_of lush_strings false).

Definition switched : by_reference :=
  fst (handlePresetChange "Synthwave Drive" started).

Definition gated_reverb_drums : Types.Prompt :=
  Types.mkPrompt "prompt-0" "Gated Reverb Drums" 1%float 0 "#ff25f6".

Definition rebound : PromptController.t :=
  Grid.rebind gated_reverb_drums false first_controller.

(** The user empties the text of that controller and leaves it. *)
Definition blank_commit : PromptController.t * PromptController.events :=
  PromptController.updateText (retyped rebound "  ").

(** The element handles the events of that commit, one after the
    other. *)
Definition after_blank_commit : heap * by_reference :=
  fold_left
    (fun hs e => fst (handlePromptChanged e (fst hs) (snd hs)))
    (snd blank_commit) (initial_heap, switched).

End Examples.

(** ** MidiDispatcher: acquiring access

    [getMidiAccess] awaits the request it sends to the platform. The
    request is modelled by its outcome, and nothing else runs while it is
    pending. *)

Module MidiAccess.

(** What [this.access] holds once it is set: the access object with its
    inputs (id and name, in the order of the input map), or the error a
    rejected request was turned into by [.catch((error) => error)]. *)
Inductive access_value : Type :=
| Granted (inputs : list (string * option string))
| Rejected.

(** What the platform does with [requestMIDIAccess]: [None] when
    [navigator.requestMIDIAccess] is missing, otherwise the value the
    awaited expression gives, [None] there for [null]. *)
Definition platform : Type := option (option access_value).

(** What a call throws: an [Error] with its message, or the [TypeError]
    of reading [inputs.keys] or [inputs.get] off a value that has no
    [inputs]. *)
Inductive thrown : Type :=
| Error (message : string)
| TypeError.

Inductive outcome (A : Type) : Type :=
| Returns (a : A)
| Throws (e : thrown).

Arguments Returns {A} a.
Arguments Throws {A} e.

Definition unsupported_message : string :=
  "Your browser does not support the Web MIDI API. For a list of compatible browsers, see https://caniuse.com/midi".

Definition unable_message : string := "Unable to acquire MIDI access.".

Record t : Type := mk {
  access : option access_value;
  activeMidiInputId : option string;
  (** The inputs whose [onmidimessage] was set. *)
  listening : list string;
}.

(** A dispatcher as [new MidiDispatcher()] creates it. *)
Definition init : t :=
  {| access := None; activeMidiInputId := None; listening := [] |}.

Definition inputIds (inputs : list (string * option string))
    : list string :=
  map fst inputs.

Definition getMidiAccess (p : platform) (d : t)
    : t * outcome (list string) :=
  match access d with
  | Some (Granted inputs) => (d, Returns (inputIds inputs))
  | Some Rejected => (d, Throws TypeError)
  | None =>
      match p with
      | None => (d, Throws (Error unsupported_message))
      | Some awaited =>
          match awaited with
          | None =>
              ({| access := None; activeMidiInputId := activeMidiInputId d;
                  listening := listening d |},
               Throws (Error unable_message))
          | Some Rejected =>
              ({| access := Some Rejected;
                  activeMidiInputId := activeMidiInputId d;
                  listening := listening d |},
               Throws TypeError)
          | Some (Granted inputs) =>
              let ids := inputIds inputs in
              let active :=
                match ids, activeMidiInputId d with
                | first :: _, None => Some first
                | _, _ => activeMidiInputId d
                end in
              ({| access := Some (Granted inputs);
                  activeMidiInputId := active;
                  listening := ids |},
               Returns ids)
          end
      end
  end.

Definition getDeviceName (id : string) (d : t) : outcome (option string) :=
  match access d with
  | None => Returns None
  | Some Rejected => Throws TypeError
  | Some (Granted inputs) =>
      match JsMap.get String.eqb id inputs with
      | Some name => Returns name
      | None => Returns None
      end
  end.

(** The assignment [dispatcher.activeMidiInputId = id]. *)
Definition set_activeMidiInputId (id : option string) (d : t) : t :=
  {| access := access d; activeMidiInputId := id;
     listening := listening d |}.

(** The [cc-message] events a MIDI message of the input [inputId]
    causes: the input has a handler when [getMidiAccess] set one. *)
Definition receive (inputId : string)
    (data : option MidiDispatcher.packet) (d : t)
    : list Types.ControlChange :=
  if bool_decide (inputId ∈ listening d)
  then MidiDispatcher.onmidimessage inputId data
         (MidiDispatcher.mk (activeMidiInputId d))
  else [].

End MidiAccess.

(** ** PromptDjMidi: the MIDI controls *)

Module MidiPanel.

(** The properties of the element the MIDI controls read and write. *)
Record t : Type := mk {
  showMidi : bool;
  midiInputIds : list string;
  activeMidiInputId : option string;
  midiDispatcher : MidiAccess.t;
}.

(** The element as its field initialisers and constructor leave it. *)
Definition init : t :=
  {| showMidi := false; midiInputIds := []; activeMidiInputId := None;
     midiDispatcher := MidiAccess.init |}.

(** The [error] events dispatched, each with the error whose message is
    the detail. *)
Definition events : Type := list MidiAccess.thrown.

Definition setShowMidi (show : bool) (p : MidiAccess.platform) (e : t)
    : t * events :=
  if negb show then
    ({| showMidi := false; midiInputIds := midiInputIds e;
        activeMidiInputId := activeMidiInputId e;
        midiDispatcher := midiDispatcher e |}, [])
  else
    match MidiAccess.getMidiAccess p (midiDispatcher e) with
    | (d, MidiAccess.Returns inputIds) =>
        ({| showMidi := true; midiInputIds := inputIds;
            activeMidiInputId := MidiAccess.activeMidiInputId d;
            midiDispatcher := d |}, [])
    | (d, MidiAccess.Throws err) =>
        ({| showMidi := false; midiInputIds := midiInputIds e;
            activeMidiInputId := activeMidiInputId e;
            midiDispatcher := d |}, [err])
    end.

Definition toggleShowMidi (p : MidiAccess.platform) (e : t) : t * events :=
  setShowMidi (negb (showMidi e)) p e.

(** The [change] handler of the device selector. *)
Definition handleMidiInputChange (newMidiId : string) (e : t) : t :=
  {| showMidi := showMidi e; midiInputIds := midiInputIds e;
     activeMidiInputId := Some newMidiId;
     midiDispatcher :=
       MidiAccess.set_activeMidiInputId (Some newMidiId) (midiDispatcher e) |}.

End MidiPanel.

(** ** PromptController: the keys of the text element *)

Module TextKeys.

(** The [keydown] handler. [Enter] and [Escape] call [blur] on the text
    element, which has the focus while keys reach it, so its [blur]
    handler [updateText] runs. *)
Definition onKeyDown (key : string) (k : PromptController.t)
    : PromptController.t * PromptController.events :=
  let '(k1, ev1) :=
    if String.eqb key "Enter" then PromptController.updateText k
    else (k, []) in
  let '(k2, ev2) :=
    if String.eqb key "Escape"
    then PromptController.updateText (PromptController.resetText k1)
    else (k1, []) in
  (k2, ev1 ++ ev2).

(** The text the user would get back is kept as [trim] leaves it. *)
Definition lastValidText_trimmed (k : PromptController.t) : Prop :=
  JsString.trim (PromptController.lastValidText k) =
  PromptController.lastValidText k.

(** A string that is empty or begins with a character that is not white
    space. *)
Definition starts_clean (s : string) : bool :=
  match s with
  | EmptyString => true
  | String c _ => negb (JsString.is_white_space c)
  end.

End TextKeys.

(** ** Further states of the examples *)

Module MoreExamples.

Import PromptDjMidi.

(** The element that carries its prompts as values, once connected with
    nothing in storage, and after the registry was saved as [Mine]. *)
Definition started_by_value : by_value :=
  fst (install_presets [] (Examples.fresh None)).

Definition saved_by_value : by_value :=
  fst (saveCurrentPreset (fun m => m) (Some "Mine") true started_by_value).

(** Two MIDI inputs, and the platform that grants access to them. *)
Definition two_inputs : list (string * option string) :=
  [("input-1", Some "Launch Control"); ("input-2", None)].

Definition granting : MidiAccess.platform :=
  Some (Some (MidiAccess.Granted two_inputs)).

Definition rejecting : MidiAccess.platform := Some (Some MidiAccess.Rejected).

(** A controller whose text is being edited. *)
Definition editing : PromptController.t :=
  Examples.retyped
    (Examples.controller_of Examples.lush_strings false) "Soft Str".

(** A drag, a release and a turn of the wheel. *)
Definition gesture : list WeightKnob.event :=
  [WeightKnob.PointerDown 300%float; WeightKnob.PointerMove 20%float;
   WeightKnob.PointerUp; WeightKnob.Wheel 5000%float].

(** Presets saved under a word and under two numbers. *)
Definition numbered_presets : preset_values :=
  [("b", []); ("10", []); ("2", [])].

(** A small table of built-in prompts. *)
Definition small_seeds : list seed :=
  [Examples.seed3 "#3dffab" "Lush Strings" 1%float;
   Examples.seed2 "#9900ff" "Warm Pads"].

End MoreExamples.

(** * Properties *)

(** ** Facts about binary64 comparison and addition *)

Section FloatFacts.

Local Open Scope float_scope.

Lemma SFcompare_antisym (x y : spec_float) :
  SFcompare x y = option_map CompOpp (SFcompare y x).
Proof.
  destruct x as [sx | sx | | sx mx ex], y as [sy | sy | | sy my ey];
    simpl; try reflexivity;
    try (destruct sx; reflexivity); try (destruct sy; reflexivity);
    try (destruct sx, sy; reflexivity).
  destruct sx, sy; simpl; try reflexivity;
    rewrite (Z.compare_antisym ex ey);
    destruct (ex ?= ey)%Z; simpl; try reflexivity;
    rewrite (Pos.compare_cont_antisym my mx Eq); simpl;
    try rewrite CompOpp_involutive; reflexivity.
Qed.

Lemma SFcompare_None (x y : spec_float) :
  SFcompare x y = None -> x = S754_nan \/ y = S754_nan.
Proof.
  destruct x as [sx | sx | | sx mx ex], y as [sy | sy | | sy my ey];
    simpl; intros H; try discriminate; auto.
Qed.

Lemma is_nan_Prim2SF (x : float) :
  PrimFloat.is_nan x = false -> Prim2SF x <> S754_nan.
Proof.
  unfold PrimFloat.is_nan. rewrite FloatAxioms.eqb_spec. unfold SFeqb.
  intros H E. rewrite E in H. simpl in H. discriminate.
Qed.

Lemma ltb_leb (x y : float) : (x <? y) = true -> (x <=? y) = true.
Proof.
  rewrite FloatAxioms.ltb_spec, FloatAxioms.leb_spec.
  unfold SFltb, SFleb.
  destruct (SFcompare (Prim2SF x) (Prim2SF y)) as [[]|]; congruence.
Qed.

(** Two numbers are ordered one way or the other. *)
Lemma not_ltb_leb (x y : float) :
  PrimFloat.is_nan x = false -> PrimFloat.is_nan y = false ->
  (x <? y) = false -> (y <=? x) = true.
Proof.
  intros Hx Hy. apply is_nan_Prim2SF in Hx. apply is_nan_Prim2SF in Hy.
  rewrite FloatAxioms.ltb_spec, FloatAxioms.leb_spec.
  unfold SFltb, SFleb.
  rewrite (SFcompare_antisym (Prim2SF y) (Prim2SF x)).
  destruct (SFcompare (Prim2SF x) (Prim2SF y)) as [[]|] eqn:E; simpl;
    try congruence.
  apply SFcompare_None in E. tauto.
Qed.

Lemma SFadd_comm (prec emax : Z) (x y : spec_float) :
  SFadd prec emax x y = SFadd prec emax y x.
Proof.
  destruct x as [sx | sx | | sx mx ex], y as [sy | sy | | sy my ey];
    simpl; try reflexivity; try (destruct sx, sy; reflexivity).
  rewrite (Z.min_comm ey ex), Z.add_comm. reflexivity.
Qed.

Lemma float_add_comm (x y : float) : x + y = y + x.
Proof.
  apply Prim2SF_inj. rewrite !FloatAxioms.add_spec.
  apply SFadd_comm.
Qed.

Lemma float_neq (x y : float) : Prim2SF x <> Prim2SF y -> x <> y.
Proof. intros H E. apply H. rewrite E. reflexivity. Qed.

End FloatFacts.

(** ** Clamping *)

Section Clamp.

Local Open Scope float_scope.

Lemma Math_min_2_cases (v : float) :
  PrimFloat.is_nan v = false ->
  JsNum.Math_min 2 v = 2 \/
  (JsNum.Math_min 2 v = v /\ (v <=? 2) = true).
Proof.
  intros Hv. unfold JsNum.Math_min. rewrite Hv.
  change (PrimFloat.is_nan 2) with false. simpl.
  destruct (2 <? v) eqn:E1; [left; reflexivity|].
  destruct (v <? 2) eqn:E2.
  - right. split; [reflexivity | apply ltb_leb; exact E2].
  - change (PrimFloat.get_sign 2) with false. simpl. right.
    split; [reflexivity|]. apply not_ltb_leb; auto.
Qed.

Lemma Math_max_0_cases (m : float) :
  PrimFloat.is_nan m = false ->
  JsNum.Math_max 0 m = 0 \/
  (JsNum.Math_max 0 m = m /\ (0 <=? m) = true).
Proof.
  intros Hm. unfold JsNum.Math_max. rewrite Hm.
  change (PrimFloat.is_nan 0) with false. simpl.
  destruct (0 <? m) eqn:E1.
  - right. split; [reflexivity | apply ltb_leb; exact E1].
  - left. change (PrimFloat.get_sign 0) with false.
    destruct (m <? 0); reflexivity.
Qed.

(** [Math.max(0, Math.min(2, v))] is in [[0, 2]] for every number [v]. *)
Lemma clamp_between (v : float) :
  PrimFloat.is_nan v = false ->
  JsNum.between 0 2 (JsNum.Math_max 0 (JsNum.Math_min 2 v)) = true.
Proof.
  intros Hv. unfold JsNum.between.
  destruct (Math_min_2_cases v Hv) as [E | [E Hle]]; rewrite E.
  - vm_compute. reflexivity.
  - destruct (Math_max_0_cases v Hv) as [E0 | [E0 Hge]]; rewrite E0.
    + vm_compute. reflexivity.
    + rewrite Hge, Hle. reflexivity.
Qed.

(** A NaN stays a NaN. *)
Lemma clamp_nan :
  JsNum.Math_max 0 (JsNum.Math_min 2 PrimFloat.nan) = PrimFloat.nan.
Proof. vm_compute. reflexivity. Qed.

End Clamp.

(** ** Arithmetic on finite numbers gives no NaN *)

Section NoNaN.

Local Open Scope float_scope.

Lemma shr_1_nonneg (mrs : shr_record) :
  (0 <= shr_m mrs)%Z -> (0 <= shr_m (shr_1 mrs))%Z.
Proof.
  destruct mrs as [m r s]. simpl.
  destruct m as [|p|p]; simpl; intros H; try lia;
    destruct p; simpl; lia.
Qed.

Lemma iter_pos_nonneg (p : positive) :
  forall mrs : shr_record,
    (0 <= shr_m mrs)%Z -> (0 <= shr_m (@SpecFloat.iter_pos shr_record shr_1 p mrs))%Z.
Proof.
  induction p as [p IH | p IH |]; intros mrs H; simpl.
  - apply IH, IH, shr_1_nonneg, H.
  - apply IH, IH, H.
  - apply shr_1_nonneg, H.
Qed.

Lemma shr_fexp_nonneg (prec emax m e : Z) (l : location) :
  (0 <= m)%Z -> (0 <= shr_m (fst (shr_fexp prec emax m e l)))%Z.
Proof.
  intros H. unfold shr_fexp, shr.
  assert (H0 : (0 <= shr_m (shr_record_of_loc m l))%Z).
  { destruct l as [|[]]; simpl; exact H. }
  destruct (fexp prec emax (Zdigits2 m + e) - e)%Z; simpl; auto.
  apply iter_pos_nonneg; exact H0.
Qed.

Lemma round_nearest_even_nonneg (m : Z) (l : location) :
  (0 <= m)%Z -> (0 <= round_nearest_even m l)%Z.
Proof.
  intros H. destruct l as [|[]]; simpl; try lia.
  destruct (Z.even m); lia.
Qed.

Lemma binary_round_aux_not_nan (prec emax : Z) (sx : bool) (mx ex : Z)
    (lx : location) :
  (0 <= mx)%Z -> binary_round_aux prec emax sx mx ex lx <> S754_nan.
Proof.
  intros H. unfold binary_round_aux.
  pose proof (shr_fexp_nonneg prec emax mx ex lx H) as H1.
  destruct (shr_fexp prec emax mx ex lx) as [mrs' e']. simpl in H1.
  pose proof (shr_fexp_nonneg prec emax
                (round_nearest_even (shr_m mrs') (loc_of_shr_record mrs'))
                e' loc_Exact
                (round_nearest_even_nonneg _ _ H1)) as H2.
  destruct (shr_fexp prec emax
              (round_nearest_even (shr_m mrs') (loc_of_shr_record mrs'))
              e' loc_Exact) as [mrs'' e'']. simpl in H2.
  destruct (shr_m mrs'') as [|p|p]; try discriminate; try lia.
  destruct (e'' <=? emax - prec)%Z; discriminate.
Qed.

Lemma binary_normalize_not_nan (prec emax m e : Z) (szero : bool) :
  binary_normalize prec emax m e szero <> S754_nan.
Proof.
  unfold binary_normalize, binary_round.
  destruct m as [|p|p]; try discriminate;
    destruct (shl_align p e (fexp prec emax (Z.pos (digits2_pos p) + e)));
    apply binary_round_aux_not_nan; lia.
Qed.

Lemma SFsub_not_nan (prec emax : Z) (x y : spec_float) :
  JsNum.SF_finite x = true -> JsNum.SF_finite y = true ->
  SFsub prec emax x y <> S754_nan.
Proof.
  destruct x as [sx | sx | | sx mx ex], y as [sy | sy | | sy my ey];
    simpl; intros Hx Hy; try discriminate.
  - destruct sx, sy; discriminate.
  - apply binary_normalize_not_nan.
Qed.

(** A number times a finite number other than zero. *)
Lemma SFmul_not_nan (prec emax : Z) (x : spec_float) (sy : bool)
    (my : positive) (ey : Z) :
  x <> S754_nan ->
  SFmul prec emax x (S754_finite sy my ey) <> S754_nan.
Proof.
  destruct x as [sx | sx | | sx mx ex]; simpl; intros Hx;
    try discriminate; try congruence.
  apply binary_round_aux_not_nan; lia.
Qed.

(** A finite number plus a number. *)
Lemma SFadd_not_nan (prec emax : Z) (x y : spec_float) :
  JsNum.SF_finite x = true -> y <> S754_nan ->
  SFadd prec emax x y <> S754_nan.
Proof.
  destruct x as [sx | sx | | sx mx ex], y as [sy | sy | | sy my ey];
    simpl; intros Hx Hy; try discriminate; try congruence.
  - destruct sx, sy; discriminate.
  - apply binary_normalize_not_nan.
Qed.

Lemma is_finite_SF (x : float) :
  PrimFloat.is_finite x = true -> JsNum.SF_finite (Prim2SF x) = true.
Proof.
  unfold PrimFloat.is_finite, PrimFloat.is_nan, PrimFloat.is_infinity.
  rewrite !FloatAxioms.eqb_spec, FloatAxioms.abs_spec.
  destruct (Prim2SF x) as [s | s | | s m e]; simpl; try reflexivity.
  - vm_compute. destruct s; discriminate.
  - vm_compute. discriminate.
Qed.

Lemma SF_finite_not_nan (x : spec_float) :
  JsNum.SF_finite x = true -> x <> S754_nan.
Proof. destruct x; simpl; congruence. Qed.

Lemma not_nan_is_nan (x : float) :
  Prim2SF x <> S754_nan -> PrimFloat.is_nan x = false.
Proof.
  unfold PrimFloat.is_nan. rewrite FloatAxioms.eqb_spec. unfold SFeqb.
  intros H.
  destruct (SFcompare (Prim2SF x) (Prim2SF x)) as [c|] eqn:E.
  - destruct (Prim2SF x) as [s | s | | s m e]; simpl in E.
    + injection E as <-. reflexivity.
    + destruct s; injection E as <-; reflexivity.
    + congruence.
    + destruct s; injection E as <-; rewrite Z.compare_refl;
        rewrite Pos.compare_cont_refl; reflexivity.
  - apply SFcompare_None in E. tauto.
Qed.

(** [a + (b - c) * k] is a number when [a], [b] and [c] are finite and
    [k] is finite and not zero. *)
Lemma drag_raw_not_nan (a b c k : float) (sk : bool) (mk : positive)
    (ek : Z) :
  Prim2SF k = S754_finite sk mk ek ->
  PrimFloat.is_finite a = true -> PrimFloat.is_finite b = true ->
  PrimFloat.is_finite c = true ->
  PrimFloat.is_nan (a + (b - c) * k) = false.
Proof.
  intros Hk Ha Hb Hc. apply not_nan_is_nan.
  rewrite FloatAxioms.add_spec, FloatAxioms.mul_spec, FloatAxioms.sub_spec.
  rewrite Hk.
  apply SFadd_not_nan; [apply is_finite_SF; exact Ha|].
  apply SFmul_not_nan.
  apply SFsub_not_nan; apply is_finite_SF; assumption.
Qed.

(** [a + d * k] is a number under the same conditions. *)
Lemma wheel_raw_not_nan (a d k : float) (sk : bool) (mk : positive)
    (ek : Z) :
  Prim2SF k = S754_finite sk mk ek ->
  PrimFloat.is_finite a = true -> PrimFloat.is_finite d = true ->
  PrimFloat.is_nan (a + d * k) = false.
Proof.
  intros Hk Ha Hd. apply not_nan_is_nan.
  rewrite FloatAxioms.add_spec, FloatAxioms.mul_spec.
  rewrite Hk.
  apply SFadd_not_nan; [apply is_finite_SF; exact Ha|].
  apply SFmul_not_nan, SF_finite_not_nan, is_finite_SF; exact Hd.
Qed.

End NoNaN.

(** ** The weight knob and the prompt controller *)

Section Knob.

Local Open Scope float_scope.

(** The weight a control change of value [v] gives. *)
Lemma cc_weight_range_check :
  forallb
    (fun n => JsNum.between 0 2 (JsNum.of_Z (Z.of_nat n) / 127 * 2))
    (seq 0 128) = true.
Proof. vm_compute. reflexivity. Qed.

Lemma cc_weight_between (v : Z) :
  (0 <= v <= 127)%Z ->
  JsNum.between 0 2 (JsNum.of_Z v / 127 * 2) = true.
Proof.
  intros Hv.
  pose proof cc_weight_range_check as H.
  rewrite forallb_forall in H.
  specialize (H (Z.to_nat v)).
  rewrite Z2Nat.id in H by lia.
  apply H. apply in_seq. lia.
Qed.

Lemma cc_weight_increasing_check :
  forallb
    (fun n =>
       PrimFloat.ltb (JsNum.of_Z (Z.of_nat n) / 127 * 2)
         (JsNum.of_Z (Z.of_nat (S n)) / 127 * 2))
    (seq 0 127) = true.
Proof. vm_compute. reflexivity. Qed.

(** The rescale is strictly increasing from one value to the next. *)
Lemma cc_weight_increasing (v : Z) :
  (0 <= v < 127)%Z ->
  (JsNum.of_Z v / 127 * 2 <? JsNum.of_Z (v + 1) / 127 * 2) = true.
Proof.
  intros Hv.
  pose proof cc_weight_increasing_check as H.
  rewrite forallb_forall in H.
  specialize (H (Z.to_nat v)).
  rewrite Nat2Z.inj_succ, Z2Nat.id in H by lia.
  apply H. apply in_seq. lia.
Qed.

Lemma handlePointerMove_between (clientY : float) (k : WeightKnob.t) :
  PrimFloat.is_finite (WeightKnob.dragStartValue k) = true ->
  PrimFloat.is_finite (WeightKnob.dragStartPos k) = true ->
  PrimFloat.is_finite clientY = true ->
  JsNum.between 0 2
    (WeightKnob.value (fst (WeightKnob.handlePointerMove clientY k))) = true.
Proof.
  intros Hv Hp Hy. unfold WeightKnob.handlePointerMove. simpl.
  apply clamp_between. unfold WeightKnob.pointerMoveRaw.
  eapply drag_raw_not_nan; [vm_compute; reflexivity | assumption ..].
Qed.

Lemma handleWheel_between (deltaY : float) (k : WeightKnob.t) :
  PrimFloat.is_finite (WeightKnob.value k) = true ->
  PrimFloat.is_finite deltaY = true ->
  JsNum.between 0 2
    (WeightKnob.value (fst (WeightKnob.handleWheel deltaY k))) = true.
Proof.
  intros Hv Hd. unfold WeightKnob.handleWheel. simpl.
  apply clamp_between. unfold WeightKnob.wheelRaw.
  eapply wheel_raw_not_nan; [vm_compute; reflexivity | assumption ..].
Qed.

(** A value in [[0, 2]] is finite, so a knob that is in range stays in
    range under any sequence of finite pointer and wheel events. *)
Lemma between_is_finite (x : float) :
  JsNum.between 0 2 x = true -> PrimFloat.is_finite x = true.
Proof.
  unfold JsNum.between, PrimFloat.is_finite, PrimFloat.is_nan,
    PrimFloat.is_infinity.
  rewrite !FloatAxioms.leb_spec, !FloatAxioms.eqb_spec, FloatAxioms.abs_spec.
  destruct (Prim2SF x) as [s | s | | s m e]; simpl.
  - intros _. vm_compute. reflexivity.
  - vm_compute. destruct s; discriminate.
  - vm_compute. discriminate.
  - intros _. unfold SFeqb, SFcompare. simpl.
    destruct s; rewrite Z.compare_refl, Pos.compare_cont_refl; simpl;
      vm_compute; reflexivity.
Qed.

Lemma step_in_range (k : WeightKnob.t) (e : WeightKnob.event) :
  WeightKnob.event_finite e = true ->
  WeightKnob.in_range k = true ->
  WeightKnob.in_range (WeightKnob.step k e) = true.
Proof.
  unfold WeightKnob.in_range. intros He Hk.
  apply andb_true_iff in Hk as [Hk Hp].
  apply andb_true_iff in Hk as [Hv Hs].
  pose proof (between_is_finite _ Hv) as Hfin.
  destruct e as [y | y | | d]; simpl in He; simpl.
  - rewrite Hv, Hfin, He. reflexivity.
  - rewrite Hs, Hp, andb_true_r, andb_true_r.
    apply (handlePointerMove_between y k); assumption.
  - unfold WeightKnob.handlePointerUp. rewrite Hv, Hs, Hp. reflexivity.
  - rewrite Hs, Hp, andb_true_r, andb_true_r.
    apply (handleWheel_between d k); assumption.
Qed.

(** From a knob whose value is in [[0, 2]], every sequence of pointer and
    wheel events leaves the value in [[0, 2]]. *)
Lemma run_in_range (es : list WeightKnob.event) :
  forall k : WeightKnob.t,
    forallb WeightKnob.event_finite es = true ->
    WeightKnob.in_range k = true ->
    JsNum.between 0 2 (WeightKnob.value (WeightKnob.run es k)) = true.
Proof.
  unfold WeightKnob.run.
  induction es as [|e es IH]; intros k Hes Hk; simpl.
  - unfold WeightKnob.in_range in Hk.
    apply andb_true_iff in Hk as [Hk _].
    apply andb_true_iff in Hk as [Hv _]. exact Hv.
  - simpl in Hes. apply andb_true_iff in Hes as [He Hes].
    apply IH; [exact Hes|]. apply step_in_range; assumption.
Qed.

Lemma init_in_range : WeightKnob.in_range WeightKnob.init = true.
Proof. reflexivity. Qed.

End Knob.

Section KnobProperties.

Local Open Scope float_scope.

(** C5. A control change of value [v] in [[0, 127]] reaches a controller
    that is not in learn mode. When its controller number is the bound
    one, the weight becomes [v / 127 * 2] and exactly one changed event
    is dispatched, which carries that weight; otherwise no event is
    dispatched and the controller is unchanged. The value 0 gives the
    weight 0, the value 127 the weight 2, and the weight grows with the
    value in between. *)
Theorem cc_message_rescales_weight (m : Types.ControlChange)
    (k : PromptController.t) :
  (0 <= Types.cc_value m <= 127)%Z ->
  PromptController.learnMode k = false ->
  let w := JsNum.of_Z (Types.cc_value m) / 127 * 2 in
  (Types.cc_cc m = PromptController.cc k ->
     PromptController.on_cc_message m k =
       (PromptController.set_weight w k,
        [Types.mkPrompt (PromptController.promptId k)
           (PromptController.text k) w (PromptController.cc k)
           (PromptController.color k)])) /\
  (Types.cc_cc m <> PromptController.cc k ->
     PromptController.on_cc_message m k = (k, [])) /\
  JsNum.of_Z 0 / 127 * 2 = 0 /\
  JsNum.of_Z 127 / 127 * 2 = 2 /\
  ((Types.cc_value m < 127)%Z ->
     (w <? JsNum.of_Z (Types.cc_value m + 1) / 127 * 2) = true).
Proof.
  intros Hv Hl w. unfold PromptController.on_cc_message. rewrite Hl.
  repeat split.
  - intros E. rewrite E, Z.eqb_refl. reflexivity.
  - intros E. apply Z.eqb_neq in E. rewrite E. reflexivity.
  - intros Hlt. apply cc_weight_increasing. lia.
Qed.

(** C6. The value a pointer move, a wheel event or a control change of
    value in [[0, 127]] stores is in [[0, 2]]; the coordinates of an
    event and the value the knob had are finite numbers. *)
Theorem stored_weight_in_range (k : WeightKnob.t) (clientY deltaY : float)
    (m : Types.ControlChange) (c : PromptController.t) :
  PrimFloat.is_finite (WeightKnob.value k) = true ->
  PrimFloat.is_finite (WeightKnob.dragStartValue k) = true ->
  PrimFloat.is_finite (WeightKnob.dragStartPos k) = true ->
  PrimFloat.is_finite clientY = true ->
  PrimFloat.is_finite deltaY = true ->
  (0 <= Types.cc_value m <= 127)%Z ->
  PromptController.learnMode c = false ->
  Types.cc_cc m = PromptController.cc c ->
  JsNum.between 0 2
    (WeightKnob.value (fst (WeightKnob.handlePointerMove clientY k))) = true
  /\ JsNum.between 0 2
       (WeightKnob.value (fst (WeightKnob.handleWheel deltaY k))) = true
  /\ JsNum.between 0 2
       (PromptController.weight
          (fst (PromptController.on_cc_message m c))) = true.
Proof.
  intros Hv Hs Hp Hy Hd Hm Hl Hc. repeat split.
  - apply handlePointerMove_between; assumption.
  - apply handleWheel_between; assumption.
  - unfold PromptController.on_cc_message.
    rewrite Hl, Hc, Z.eqb_refl. simpl.
    apply cc_weight_between; exact Hm.
Qed.

(** C7. A controller in learn mode that receives a control change binds
    itself to the controller number of the message, leaves learn mode and
    dispatches exactly one changed event; the weight of the controller
    and the weight the event carries are the weight it had. *)
Theorem learn_mode_rebinds (m : Types.ControlChange)
    (k : PromptController.t) :
  PromptController.learnMode k = true ->
  let k' := fst (PromptController.on_cc_message m k) in
  PromptController.cc k' = Types.cc_cc m /\
  PromptController.learnMode k' = false /\
  PromptController.weight k' = PromptController.weight k /\
  snd (PromptController.on_cc_message m k) =
    [Types.mkPrompt (PromptController.promptId k)
       (PromptController.text k) (PromptController.weight k)
       (Types.cc_cc m) (PromptController.color k)].
Proof.
  intros Hl. unfold PromptController.on_cc_message. rewrite Hl.
  simpl. repeat split.
Qed.

(** C9. The scale of the halo is
    [MIN_SCALE + (weight / 2) * (MAX_SCALE - MIN_SCALE)
     + audioLevel * LEVEL_MODIFIER] with the three constants 1, 2 and 1,
    and for a weight in [[0, 2]] the halo is hidden exactly when the
    weight equals 0. *)
Theorem halo_scale_and_display (k : WeightKnob.t) :
  JsNum.between 0 2 (WeightKnob.value k) = true ->
  WeightKnob.haloScale k =
    WeightKnob.MIN_HALO_SCALE
    + WeightKnob.value k / 2
      * (WeightKnob.MAX_HALO_SCALE - WeightKnob.MIN_HALO_SCALE)
    + WeightKnob.audioLevel k * WeightKnob.HALO_LEVEL_MODIFIER
  /\ WeightKnob.MIN_HALO_SCALE = 1
  /\ WeightKnob.MAX_HALO_SCALE = 2
  /\ WeightKnob.HALO_LEVEL_MODIFIER = 1
  /\ (WeightKnob.haloDisplayed k = false <->
      (WeightKnob.value k =? 0) = true).
Proof.
  intros Hb. repeat split.
  - unfold WeightKnob.haloScale.
    rewrite (float_add_comm WeightKnob.MIN_HALO_SCALE). reflexivity.
  - unfold WeightKnob.haloDisplayed. intros H.
    unfold JsNum.between in Hb. apply andb_true_iff in Hb as [H0 _].
    revert H H0.
    rewrite FloatAxioms.ltb_spec, FloatAxioms.leb_spec,
      FloatAxioms.eqb_spec.
    unfold SFltb, SFleb, SFeqb.
    rewrite (SFcompare_antisym (Prim2SF (WeightKnob.value k)) (Prim2SF 0)).
    destruct (SFcompare (Prim2SF 0) (Prim2SF (WeightKnob.value k)))
      as [[]|]; simpl; congruence.
  - unfold WeightKnob.haloDisplayed.
    rewrite FloatAxioms.ltb_spec, FloatAxioms.eqb_spec.
    unfold SFltb, SFeqb.
    rewrite (SFcompare_antisym (Prim2SF (WeightKnob.value k)) (Prim2SF 0)).
    destruct (SFcompare (Prim2SF 0) (Prim2SF (WeightKnob.value k)))
      as [[]|]; simpl; congruence.
Qed.

End KnobProperties.

(** ** Trimming *)

Section Trim.

Lemma all_white_space_rev_append (s acc : string) :
  JsString.all_white_space (JsString.rev_append s acc) =
  JsString.all_white_space s && JsString.all_white_space acc.
Proof.
  revert acc. induction s as [|c s IH]; intros acc; simpl.
  - reflexivity.
  - rewrite IH. simpl.
    destruct (JsString.is_white_space c), (JsString.all_white_space s);
      reflexivity.
Qed.

Lemma all_white_space_reverse (s : string) :
  JsString.all_white_space (JsString.reverse s) =
  JsString.all_white_space s.
Proof.
  unfold JsString.reverse. rewrite all_white_space_rev_append. simpl.
  apply andb_true_r.
Qed.

Lemma rev_append_empty (s acc : string) :
  JsString.rev_append s acc = EmptyString ->
  s = EmptyString /\ acc = EmptyString.
Proof.
  revert acc. induction s as [|c s IH]; intros acc H; simpl in H.
  - auto.
  - apply IH in H as [_ H]. discriminate.
Qed.

Lemma trimStart_empty (s : string) :
  JsString.trimStart s = EmptyString <->
  JsString.all_white_space s = true.
Proof.
  induction s as [|c s IH]; simpl.
  - tauto.
  - destruct (JsString.is_white_space c); simpl.
    + exact IH.
    + split; discriminate.
Qed.

(** What is left of a string whose start was trimmed is empty or begins
    with a character that is not white space. *)
Lemma trimStart_head (s : string) :
  JsString.all_white_space (JsString.trimStart s) = true ->
  JsString.trimStart s = EmptyString.
Proof.
  induction s as [|c s IH]; simpl.
  - reflexivity.
  - destruct (JsString.is_white_space c) eqn:E; simpl.
    + exact IH.
    + rewrite E. discriminate.
Qed.

(** [trim] gives the empty string exactly for a string of white space. *)
Lemma trim_empty (s : string) :
  JsString.trim s = EmptyString <-> JsString.all_white_space s = true.
Proof.
  unfold JsString.trim, JsString.trimEnd. split.
  - intros H. unfold JsString.reverse at 1 in H.
    apply rev_append_empty in H as [H _].
    apply trimStart_empty in H. rewrite all_white_space_reverse in H.
    apply trimStart_empty, trimStart_head, H.
  - intros H. apply trimStart_empty in H. rewrite H. reflexivity.
Qed.

Lemma truthy_empty (s : string) :
  JsString.truthy s = false <-> s = EmptyString.
Proof. destruct s; simpl; split; congruence. Qed.

End Trim.

Section TextProperties.

(** What a commit does with the fields of the controller: a content that
    is empty or only white space puts the field [lastValidText] back as
    the text, and a content that is not becomes, trimmed, the text and
    the last valid text; in both cases exactly one changed event is
    dispatched, with the text now stored. *)
Theorem updateText_commits (k : PromptController.t) :
  let k' := fst (PromptController.updateText k) in
  let newText := JsString.trim (PromptController.textContent k) in
  (JsString.all_white_space (PromptController.textContent k) = true ->
     PromptController.text k' = PromptController.lastValidText k /\
     PromptController.lastValidText k' = PromptController.lastValidText k /\
     PromptController.textContent k' = PromptController.lastValidText k) /\
  (JsString.all_white_space (PromptController.textContent k) = false ->
     newText <> EmptyString /\
     PromptController.text k' = newText /\
     PromptController.lastValidText k' = newText) /\
  snd (PromptController.updateText k) =
    [Types.mkPrompt (PromptController.promptId k)
       (PromptController.text k') (PromptController.weight k)
       (PromptController.cc k) (PromptController.color k)] /\
  PromptController.weight k' = PromptController.weight k /\
  PromptController.cc k' = PromptController.cc k.
Proof.
  unfold PromptController.updateText. simpl.
  destruct (JsString.truthy (JsString.trim (PromptController.textContent k)))
    eqn:E; simpl.
  - assert (Hne : JsString.trim (PromptController.textContent k)
                  <> EmptyString).
    { intros H. apply truthy_empty in H. congruence. }
    split; [|split; [|repeat split]].
    + intros Hw. apply trim_empty in Hw. contradiction.
    + intros _. repeat split. exact Hne.
  - apply truthy_empty in E. apply trim_empty in E.
    split; [|split; [|repeat split]].
    + intros _. repeat split.
    + intros Hw. congruence.
Qed.

End TextProperties.

(** ** Learn mode across the grid *)

Section LearnMode.

Lemma learnMode_toggle (k : PromptController.t) :
  PromptController.learnMode (PromptController.toggleLearnMode k) =
  negb (PromptController.learnMode k).
Proof. reflexivity. Qed.

(** C2, as the code has it. A click on the [#midi] element of knob B
    flips the learn flag of B alone and leaves every other controller as
    it was: a knob A that was learning is still learning, so A and B are
    both in learn mode afterwards. *)
Theorem click_midi_flips_one (g : list PromptController.t) (iA iB : nat)
    (a b : PromptController.t) :
  iA <> iB ->
  g !! iA = Some a ->
  g !! iB = Some b ->
  PromptController.learnMode a = true ->
  PromptController.learnMode b = false ->
  let g' := Grid.click_midi iB g in
  g' !! iB = Some (PromptController.set_learnMode true b) /\
  g' !! iA = Some a /\
  (forall j : nat, j <> iB -> g' !! j = g !! j) /\
  In a (Grid.learning g') /\
  In (PromptController.set_learnMode true b) (Grid.learning g').
Proof.
  intros Hne Ha Hb Hla Hlb g'. unfold g', Grid.click_midi.
  assert (HB : alter PromptController.toggleLearnMode iB g !! iB =
               Some (PromptController.set_learnMode true b)).
  { rewrite list_lookup_alter_eq, Hb. simpl.
    unfold PromptController.toggleLearnMode. rewrite Hlb. reflexivity. }
  assert (HA : alter PromptController.toggleLearnMode iB g !! iA = Some a).
  { rewrite list_lookup_alter_ne by auto. exact Ha. }
  split; [exact HB|]. split; [exact HA|]. split.
  - intros j Hj. apply list_lookup_alter_ne. auto.
  - unfold Grid.learning. split.
    + apply list_elem_of_In, list_elem_of_filter. split; [exact Hla|].
      eapply list_elem_of_lookup_2. exact HA.
    + apply list_elem_of_In, list_elem_of_filter. split; [reflexivity|].
      eapply list_elem_of_lookup_2. exact HB.
Qed.

End LearnMode.

(** ** Maps keyed by strings *)

Section StringMaps.

Context {V : Type}.

Lemma JsMap_get_app (k : string) (m1 m2 : list (string * V)) :
  JsMap.get String.eqb k (m1 ++ m2) =
  match JsMap.get String.eqb k m1 with
  | Some v => Some v
  | None => JsMap.get String.eqb k m2
  end.
Proof.
  induction m1 as [|[k' v'] m1 IH]; simpl; [reflexivity|].
  destruct (String.eqb k' k); [reflexivity | exact IH].
Qed.

Lemma JsMap_get_None (k : string) (m : list (string * V)) :
  JsMap.get String.eqb k m = None <-> ~ In k (JsMap.keys m).
Proof.
  induction m as [|[k' v'] m IH]; simpl.
  - tauto.
  - destruct (String.eqb_spec k' k) as [E | E].
    + split; [discriminate | intros H; exfalso; apply H; auto].
    + rewrite IH. tauto.
Qed.

(** Setting a key that is absent adds the entry at the end. *)
Lemma JsMap_set_fresh (k : string) (v : V) (m : list (string * V)) :
  JsMap.get String.eqb k m = None ->
  JsMap.set String.eqb k v m = m ++ [(k, v)].
Proof.
  induction m as [|[k' v'] m IH]; simpl; [reflexivity|].
  destruct (String.eqb k' k); [discriminate|].
  intros H. rewrite IH by exact H. reflexivity.
Qed.

Lemma JsMap_get_set_eq (k : string) (v : V) (m : list (string * V)) :
  JsMap.get String.eqb k (JsMap.set String.eqb k v m) = Some v.
Proof.
  induction m as [|[k' v'] m IH]; simpl.
  - rewrite String.eqb_refl. reflexivity.
  - destruct (String.eqb k' k) eqn:E; simpl; rewrite E; auto.
Qed.

Lemma JsMap_get_set_ne (k k0 : string) (v : V) (m : list (string * V)) :
  k <> k0 ->
  JsMap.get String.eqb k0 (JsMap.set String.eqb k v m) =
  JsMap.get String.eqb k0 m.
Proof.
  intros Hne. induction m as [|[k' v'] m IH]; simpl.
  - destruct (String.eqb_spec k k0); [contradiction | reflexivity].
  - destruct (String.eqb_spec k' k) as [E | E]; simpl.
    + subst k'. destruct (String.eqb_spec k k0); [contradiction|].
      reflexivity.
    + destruct (String.eqb k' k0); [reflexivity | exact IH].
Qed.

Lemma JsMap_fold_set_fresh (l acc : list (string * V)) :
  NoDup (JsMap.keys (acc ++ l)) ->
  fold_left (fun m e => JsMap.set String.eqb (fst e) (snd e) m) l acc =
  acc ++ l.
Proof.
  revert acc. induction l as [|[k v] l IH]; intros acc Hnd; simpl.
  - rewrite app_nil_r. reflexivity.
  - assert (Hk : JsMap.get String.eqb k acc = None).
    { apply JsMap_get_None. unfold JsMap.keys in *.
      rewrite map_app in Hnd. simpl in Hnd.
      apply NoDup_ListNoDup, NoDup_remove_2 in Hnd.
      intros Hin. apply Hnd. apply in_or_app. auto. }
    rewrite JsMap_set_fresh by exact Hk.
    rewrite IH; rewrite <- app_assoc; [reflexivity | exact Hnd].
Qed.

(** [new Map(entries)] of entries with different keys holds the entries
    in their order. *)
Lemma JsMap_of_entries_NoDup (l : list (string * V)) :
  NoDup (JsMap.keys l) -> JsMap.of_entries String.eqb l = l.
Proof.
  intros H. unfold JsMap.of_entries.
  apply (JsMap_fold_set_fresh l []). exact H.
Qed.

(** [set] keeps the keys that are there, in their places. *)
Lemma JsMap_keys_set_prefix (k : string) (v : V) (m : list (string * V)) :
  exists rest : list string,
    JsMap.keys (JsMap.set String.eqb k v m) = JsMap.keys m ++ rest.
Proof.
  induction m as [|[k' v'] m IH]; simpl.
  - exists [k]. reflexivity.
  - destruct (String.eqb k' k); simpl.
    + exists []. rewrite app_nil_r. reflexivity.
    + destruct IH as [rest IH]. exists rest.
      unfold JsMap.keys in *. simpl. rewrite IH. reflexivity.
Qed.

Lemma JsMap_fold_set_keys_prefix (l acc : list (string * V)) :
  exists rest : list string,
    JsMap.keys
      (fold_left (fun m e => JsMap.set String.eqb (fst e) (snd e) m) l acc) =
    JsMap.keys acc ++ rest.
Proof.
  revert acc. induction l as [|[k v] l IH]; intros acc; simpl.
  - exists []. rewrite app_nil_r. reflexivity.
  - destruct (IH (JsMap.set String.eqb k v acc)) as [rest1 H1].
    destruct (JsMap_keys_set_prefix k v acc) as [rest2 H2].
    exists (rest2 ++ rest1). rewrite H1, H2, app_assoc. reflexivity.
Qed.

(** Entries set under other keys leave the value of a key alone. *)
Lemma JsMap_fold_set_get_other (k : string) (l acc : list (string * V)) :
  JsMap.get String.eqb k l = None ->
  JsMap.get String.eqb k
    (fold_left (fun m e => JsMap.set String.eqb (fst e) (snd e) m) l acc) =
  JsMap.get String.eqb k acc.
Proof.
  revert acc. induction l as [|[k' v] l IH]; intros acc; simpl;
    [reflexivity|].
  destruct (String.eqb_spec k' k) as [E | E]; [discriminate|].
  intros H. rewrite IH by exact H. apply JsMap_get_set_ne, E.
Qed.

(** The last entry set under a key gives its value. *)
Lemma JsMap_fold_set_get_last (k : string) (v : V)
    (l acc : list (string * V)) :
  NoDup (JsMap.keys l) ->
  JsMap.get String.eqb k l = Some v ->
  JsMap.get String.eqb k
    (fold_left (fun m e => JsMap.set String.eqb (fst e) (snd e) m) l acc) =
  Some v.
Proof.
  revert acc. induction l as [|[k' v'] l IH]; intros acc Hnd; simpl;
    [discriminate|].
  simpl in Hnd. apply NoDup_ListNoDup in Hnd.
  pose proof (NoDup_cons_iff k' (map fst l)) as Hc.
  apply Hc in Hnd as [Hk Hnd].
  destruct (String.eqb_spec k' k) as [E | E].
  - intros H. apply (inj Some) in H. subst k' v'.
    rewrite JsMap_fold_set_get_other by (apply JsMap_get_None; exact Hk).
    apply JsMap_get_set_eq.
  - intros H. apply IH; [|exact H]. apply NoDup_ListNoDup. exact Hnd.
Qed.

Lemma JsMap_set_NoDup (k : string) (v : V) (m : list (string * V)) :
  NoDup (JsMap.keys m) -> NoDup (JsMap.keys (JsMap.set String.eqb k v m)).
Proof.
  intros Hnd. destruct (JsMap.get String.eqb k m) as [x|] eqn:E.
  - assert (Hk : JsMap.keys (JsMap.set String.eqb k v m) = JsMap.keys m);
      [|rewrite Hk; exact Hnd].
    clear Hnd. revert E. induction m as [|[k' v'] m IH]; simpl;
      [discriminate|].
    destruct (String.eqb k' k); simpl; [reflexivity|].
    intros H. f_equal. apply IH, H.
  - rewrite JsMap_set_fresh by exact E.
    unfold JsMap.keys. rewrite map_app. simpl.
    apply list.NoDup_app. split; [exact Hnd|]. split; [|apply NoDup_singleton].
    intros x Hx Hk. apply list_elem_of_singleton in Hk. subst x.
    apply JsMap_get_None in E. apply E, list_elem_of_In, Hx.
Qed.

End StringMaps.

(** ** The preset store *)

Section Store.

Import PromptDjMidi.

Context {K P : Type}.

Lemma loadActivePreset_present (st : t K P) (m : list (K * P)) :
  get_preset (activePresetName st) (presets st) = Some m ->
  loadActivePreset st = (set_prompts m st, [Prompts_changed m]).
Proof. intros H. unfold loadActivePreset. rewrite H. reflexivity. Qed.

Lemma loadActivePreset_absent (st : t K P) :
  get_preset (activePresetName st) (presets st) = None ->
  loadActivePreset st = (st, []).
Proof. intros H. unfold loadActivePreset. rewrite H. reflexivity. Qed.

(** C4, as the code has it. Switching to a name that is absent from the
    store reports nothing: the registry, the presets and the storage are
    unchanged and no event is dispatched. Switching to a name that is
    present makes it the active one and loads its prompts into the
    registry, with exactly one [prompts-changed] event. *)
Theorem handlePresetChange_switches (value : string) (st : t K P) :
  (get_preset (Some value) (presets st) = None ->
     snd (handlePresetChange value st) = [] /\
     prompts (fst (handlePresetChange value st)) = prompts st /\
     presets (fst (handlePresetChange value st)) = presets st /\
     defaultPresets (fst (handlePresetChange value st)) =
       defaultPresets st /\
     localStorage (fst (handlePresetChange value st)) = localStorage st) /\
  (forall m : list (K * P),
     get_preset (Some value) (presets st) = Some m ->
     handlePresetChange value st =
       (set_prompts m (set_activePresetName (Some value) st),
        [Prompts_changed m])).
Proof.
  unfold handlePresetChange. split.
  - intros H. rewrite loadActivePreset_absent by exact H.
    simpl. repeat split.
  - intros m H. apply loadActivePreset_present. exact H.
Qed.

End Store.

Section Startup.

Import PromptDjMidi.

(** Loading fails exactly when the stored text is not empty and cannot be
    read back. *)
Lemma loadPresets_throws (st : by_value) (e : Js.error) :
  loadPresets st = Js.Throw e <->
  exists s : Json.text,
    localStorage st = Some s /\ Json.truthy s = true /\
    deserializePresets s = Js.Throw e.
Proof.
  unfold loadPresets. split.
  - destruct (localStorage st) as [s|]; simpl; [|discriminate].
    destruct (Json.truthy s) eqn:Et; simpl; [|discriminate].
    destruct (deserializePresets s) eqn:Ed; simpl; [discriminate|].
    intros H. injection H as <-. exists s. auto.
  - intros (s & Hs & Ht & Hd). rewrite Hs, Ht, Hd. reflexivity.
Qed.

(** The presets read back have names that are all different. *)
Lemma collect_presets_NoDup (own : list (string * Js.value))
    (acc user : preset_values) :
  NoDup (JsMap.keys acc) ->
  collect_presets own acc = Js.Ok user -> NoDup (JsMap.keys user).
Proof.
  revert acc. induction own as [|[name v] own IH]; intros acc Hnd; simpl.
  - intros H. injection H as <-. exact Hnd.
  - destruct (JsObject.new_Map v) as [m|e]; simpl; [|discriminate].
    apply IH, JsMap_set_NoDup, Hnd.
Qed.

Lemma deserializePresets_NoDup (s : Json.text) (user : preset_values) :
  deserializePresets s = Js.Ok user -> NoDup (JsMap.keys user).
Proof.
  unfold deserializePresets.
  destruct (Json.parse s) as [obj|e]; simpl; [|discriminate].
  apply collect_presets_NoDup. constructor.
Qed.

(** The store that [loadPresets] installs, whichever preset is active. *)
Lemma install_presets_store (user : preset_values) (st : by_value) :
  NoDup (JsMap.keys (defaultPresets st)) ->
  presets (fst (install_presets user st)) =
    fold_left (fun m e => JsMap.set String.eqb (fst e) (snd e) m) user
      (defaultPresets st) /\
  defaultPresets (fst (install_presets user st)) = defaultPresets st.
Proof.
  intros Hnd. unfold install_presets, loadActivePreset.
  assert (H : JsMap.of_entries String.eqb (defaultPresets st ++ user) =
              fold_left (fun m e => JsMap.set String.eqb (fst e) (snd e) m)
                user (defaultPresets st)).
  { unfold JsMap.of_entries. rewrite fold_left_app. f_equal.
    apply JsMap_of_entries_NoDup, Hnd. }
  destruct (get_preset _ _); cbn [fst presets defaultPresets set_presets
    set_prompts]; rewrite H; split; reflexivity.
Qed.

(** C3, as the code has it. Loading the presets at startup does not fail
    when the stored data is missing, is the empty string, or is a text
    that [deserializePresets] reads without throwing. Missing and empty
    data is treated as having no user presets, and then the store holds
    exactly the default presets. In every such case the default presets
    are available: their names stand first in the store, in their order;
    a name that is no stored preset has the prompts of the default
    preset, and a stored preset is in the store with its prompts.
    Loading throws exactly when the stored text is not empty and
    [deserializePresets] throws on it. *)
Theorem loadPresets_starts_on_readable_data (st : by_value) :
  NoDup (JsMap.keys (defaultPresets st)) ->
  (forall user : preset_values,
     (localStorage st = None \/ localStorage st = Some Json.Text_empty) /\
     user = [] \/
     (exists s : Json.text,
        localStorage st = Some s /\ deserializePresets s = Js.Ok user) ->
     let st' := fst (install_presets user st) in
     loadPresets st = Js.Ok (install_presets user st) /\
     defaultPresets st' = defaultPresets st /\
     (exists rest : list string,
        JsMap.keys (presets st') = JsMap.keys (defaultPresets st) ++ rest) /\
     (forall n : string,
        JsMap.get String.eqb n user = None ->
        JsMap.get String.eqb n (presets st') =
        JsMap.get String.eqb n (defaultPresets st)) /\
     (forall (n : string) (m : list (Js.value * Js.value)),
        JsMap.get String.eqb n user = Some m ->
        JsMap.get String.eqb n (presets st') = Some m) /\
     (user = [] -> presets st' = defaultPresets st)) /\
  (forall e : Js.error,
     loadPresets st = Js.Throw e <->
     exists s : Json.text,
       localStorage st = Some s /\ Json.truthy s = true /\
       deserializePresets s = Js.Throw e).
Proof.
  intros Hnd. split; [|intros e; apply loadPresets_throws].
  intros user Hs st'.
  destruct (install_presets_store user st Hnd) as [Hp Hd].
  assert (Hu : NoDup (JsMap.keys user)).
  { destruct Hs as [[_ ->] | (s & _ & Hs)]; [constructor|].
    exact (deserializePresets_NoDup s user Hs). }
  split; [|split; [exact Hd|]].
  - unfold loadPresets.
    destruct Hs as [[[-> | ->] ->] | (s & -> & Hs)]; [reflexivity..|].
    destruct s; [discriminate Hs|discriminate Hs|].
    cbn [Json.truthy]. rewrite Hs. reflexivity.
  - subst st'. rewrite Hp. split; [|split; [|split]].
    + apply JsMap_fold_set_keys_prefix.
    + intros n Hn. apply JsMap_fold_set_get_other, Hn.
    + intros n m Hn. apply JsMap_fold_set_get_last; assumption.
    + intros ->. reflexivity.
Qed.

End Startup.

Section StoreExamples.

Import PromptDjMidi.

Local Open Scope float_scope.

Lemma one_is_not_two : 1 <> 2.
Proof. apply float_neq. vm_compute. discriminate. Qed.

(** C1 on the built-in presets. The registry is saved as [Mine] while the
    first prompt has the weight 1; the first knob is then turned up to 2.
    The preset [Mine] holds the prompt object of the registry, so its
    first prompt now has the weight 2, and so has the first prompt of the
    built-in preset the registry was loaded from. *)
Theorem saved_preset_follows_registry :
  let h := fst (fst Examples.after_turn) in
  let st := snd (fst Examples.after_turn) in
  Types.weight <$> Examples.first_prompt Examples.initial_heap "Mine"
                     Examples.saved = Some 1 /\
  get_preset (Some "Mine") (presets st) =
    get_preset (Some "Mine") (presets Examples.saved) /\
  Types.weight <$> Examples.first_prompt h "Mine" st = Some 2 /\
  Types.weight <$> Examples.first_prompt h "Ambient Dreams" st = Some 2 /\
  Examples.first_prompt h "Mine" st <>
    Examples.first_prompt Examples.initial_heap "Mine" Examples.saved.
Proof.
  assert (H1 : Types.weight <$>
                 Examples.first_prompt Examples.initial_heap "Mine"
                   Examples.saved = Some 1)
    by (vm_compute; reflexivity).
  assert (H2 : Types.weight <$>
                 Examples.first_prompt (fst (fst Examples.after_turn)) "Mine"
                   (snd (fst Examples.after_turn)) = Some 2)
    by (vm_compute; reflexivity).
  cbv zeta. split; [exact H1|]. split; [vm_compute; reflexivity|].
  split; [exact H2|]. split; [vm_compute; reflexivity|].
  intros E. rewrite E, H1 in H2. apply (inj Some) in H2.
  exact (one_is_not_two H2).
Qed.

(** C3 at a stored text that is not JSON: loading throws, and the store
    of the element is still empty. *)
Lemma loadPresets_malformed_throws :
  loadPresets (Examples.fresh (Some Json.Text_not_json)) =
    Js.Throw Js.SyntaxError /\
  presets (Examples.fresh (Some Json.Text_not_json)) = [].
Proof. split; reflexivity. Qed.

(** C4 at a name that is no preset: nothing is reported, and the active
    preset name is now that name. *)
Lemma handlePresetChange_unknown_renames :
  get_preset (Some "Unknown") (presets Examples.started) = None /\
  snd (handlePresetChange "Unknown" Examples.started) = [] /\
  activePresetName Examples.started = Some "Ambient Dreams" /\
  activePresetName (fst (handlePresetChange "Unknown" Examples.started)) =
    Some "Unknown".
Proof. vm_compute. repeat split. Qed.

(** C8 at a preset named [__proto__]: the assignment [obj[name] = ...]
    defines no property, the text written is that of the empty object,
    and reading it back gives no preset. *)
Theorem proto_preset_is_lost :
  let presets :=
    [("__proto__",
      reify Examples.initial_heap (prompts Examples.started))] in
  serializePresets presets = Json.Text_json (Js.VObj []) /\
  deserializePresets (serializePresets presets) = Js.Ok [].
Proof. split; reflexivity. Qed.

(** C10 after a change of preset. The first controller was first
    updated with the text [Lush Strings]; the user chooses the preset
    [Synthwave Drive], whose first prompt is bound to the same
    controller, so that [update] writes [Gated Reverb Drums] into the
    text element and leaves [lastValidText] as it was. The user then
    empties the text and leaves the element. The text put back is
    [Lush Strings], not the text the controller held before the edit;
    the one changed event carries it, and the element writes it into
    the first prompt of [Synthwave Drive]. *)
Theorem blank_commit_restores_stale_text :
  PromptController.text Examples.rebound = "Gated Reverb Drums"%string /\
  PromptController.textContent Examples.rebound =
    "Gated Reverb Drums"%string /\
  PromptController.lastValidText Examples.rebound = "Lush Strings"%string /\
  Examples.first_prompt Examples.initial_heap "Synthwave Drive"
    Examples.switched = Some Examples.gated_reverb_drums /\
  PromptController.text (fst Examples.blank_commit) =
    "Lush Strings"%string /\
  snd Examples.blank_commit =
    [Types.mkPrompt "prompt-0" "Lush Strings" 1 0 "#ff25f6"] /\
  Types.text <$> Examples.first_prompt (fst Examples.after_blank_commit)
                   "Synthwave Drive" (snd Examples.after_blank_commit) =
    Some "Lush Strings"%string /\
  PromptController.text (fst Examples.blank_commit) <>
    PromptController.text Examples.rebound.
Proof.
  assert (H : PromptController.text (fst Examples.blank_commit) =
              "Lush Strings"%string) by reflexivity.
  repeat (split; [vm_compute; reflexivity|]).
  rewrite H. discriminate.
Qed.

(** C2 at two controllers: the first is learning, the second is clicked,
    and both are learning afterwards. *)
Lemma two_knobs_learn_at_once :
  let g := [Examples.controller_of Examples.lush_strings true;
            Examples.controller_of Examples.warm_pads false] in
  length (Grid.learning g) = 1%nat /\
  length (Grid.learning (Grid.click_midi 1 g)) = 2%nat.
Proof. split; reflexivity. Qed.

End StoreExamples.

(** ** The statements at concrete inputs *)

Section Instances.

Import PromptDjMidi.

Local Open Scope float_scope.

(** The scenario of the specification, from the packet to the event. *)
Lemma scenario_cc7_dispatch :
  MidiDispatcher.onmidimessage "input-1" (Some Examples.packet_cc7)
    (MidiDispatcher.mk (Some "input-1")) = [Examples.message_cc7] /\
  MidiDispatcher.onmidimessage "input-2" (Some Examples.packet_cc7)
    (MidiDispatcher.mk (Some "input-1")) = [] /\
  snd (Grid.dispatch_cc Examples.message_cc7
         [Examples.controller_of Examples.lush_strings false;
          Examples.knob_cc7]) =
    [Types.mkPrompt "prompt-7" "Glassy FM Synthesis" 1.0078740157480315
       7 "#d9b2ff"].
Proof. repeat split. Qed.

Lemma cc_message_rescales_weight_witness :
  PromptController.on_cc_message Examples.message_cc7 Examples.knob_cc7 =
    (PromptController.set_weight (JsNum.of_Z 64 / 127 * 2)
       Examples.knob_cc7,
     [Types.mkPrompt "prompt-7" "Glassy FM Synthesis"
        (JsNum.of_Z 64 / 127 * 2) 7 "#d9b2ff"]) /\
  PromptController.on_cc_message Examples.message_cc8 Examples.knob_cc7 =
    (Examples.knob_cc7, []).
Proof.
  split.
  - apply (cc_message_rescales_weight Examples.message_cc7
             Examples.knob_cc7); [simpl; lia | reflexivity | reflexivity].
  - apply (cc_message_rescales_weight Examples.message_cc8
             Examples.knob_cc7); [simpl; lia | reflexivity |].
    simpl. lia.
Defined.

Lemma stored_weight_in_range_witness :
  JsNum.between 0 2
    (WeightKnob.value
       (fst (WeightKnob.handlePointerMove 20 Examples.dragged_knob)))
    = true /\
  JsNum.between 0 2
    (WeightKnob.value
       (fst (WeightKnob.handleWheel 5000 Examples.dragged_knob))) = true /\
  JsNum.between 0 2
    (PromptController.weight
       (fst (PromptController.on_cc_message Examples.message_cc7
               Examples.knob_cc7))) = true.
Proof.
  apply (stored_weight_in_range Examples.dragged_knob 20 5000
           Examples.message_cc7 Examples.knob_cc7);
    try reflexivity.
  simpl. lia.
Defined.

Lemma learn_mode_rebinds_witness :
  let k := Examples.controller_of Examples.lush_strings true in
  let k' := fst (PromptController.on_cc_message Examples.message_cc7 k) in
  PromptController.cc k' = 7%Z /\
  PromptController.learnMode k' = false /\
  PromptController.weight k' = 1 /\
  snd (PromptController.on_cc_message Examples.message_cc7 k) =
    [Types.mkPrompt "prompt-0" "Lush Strings" 1 7 "#3dffab"].
Proof.
  apply (learn_mode_rebinds Examples.message_cc7
           (Examples.controller_of Examples.lush_strings true)).
  reflexivity.
Defined.

Lemma halo_scale_and_display_witness :
  WeightKnob.haloScale (WeightKnob.set_value 1 WeightKnob.init) =
    WeightKnob.MIN_HALO_SCALE
    + 1 / 2 * (WeightKnob.MAX_HALO_SCALE - WeightKnob.MIN_HALO_SCALE)
    + 0 * WeightKnob.HALO_LEVEL_MODIFIER /\
  (WeightKnob.haloDisplayed WeightKnob.init = false <-> (0 =? 0) = true).
Proof.
  split.
  - apply (halo_scale_and_display (WeightKnob.set_value 1 WeightKnob.init)).
    reflexivity.
  - apply (halo_scale_and_display WeightKnob.init). reflexivity.
Defined.

Lemma updateText_commits_witness :
  let k := Examples.controller_of Examples.lush_strings false in
  PromptController.text
    (fst (PromptController.updateText
            (Examples.retyped k "   "))) = "Lush Strings"%string /\
  PromptController.text
    (fst (PromptController.updateText
            (Examples.retyped k "  Soft Strings "))) =
    "Soft Strings"%string.
Proof.
  split.
  - apply (updateText_commits
             (Examples.retyped
                (Examples.controller_of Examples.lush_strings false)
                "   ")).
    reflexivity.
  - apply (updateText_commits
             (Examples.retyped
                (Examples.controller_of Examples.lush_strings false)
                "  Soft Strings ")).
    reflexivity.
Defined.

Lemma click_midi_flips_one_witness :
  let a := Examples.controller_of Examples.lush_strings true in
  let b := Examples.controller_of Examples.warm_pads false in
  In a (Grid.learning (Grid.click_midi 1 [a; b])) /\
  In (PromptController.set_learnMode true b)
    (Grid.learning (Grid.click_midi 1 [a; b])).
Proof.
  apply (click_midi_flips_one
           [Examples.controller_of Examples.lush_strings true;
            Examples.controller_of Examples.warm_pads false]
           0 1
           (Examples.controller_of Examples.lush_strings true)
           (Examples.controller_of Examples.warm_pads false));
    [lia | reflexivity ..].
Defined.

Lemma handlePresetChange_switches_witness :
  prompts (fst (handlePresetChange "Unknown" Examples.started)) =
    prompts Examples.started /\
  activePresetName
    (fst (handlePresetChange "Lo-Fi Beats" Examples.started)) =
    Some "Lo-Fi Beats"%string /\
  length (snd (handlePresetChange "Lo-Fi Beats" Examples.started)) = 1%nat.
Proof.
  split.
  - apply (handlePresetChange_switches "Unknown" Examples.started).
    reflexivity.
  - destruct (get_preset (Some "Lo-Fi Beats"%string)
                (presets Examples.started)) as [m|] eqn:E;
      [|vm_compute in E; discriminate].
    rewrite (proj2 (handlePresetChange_switches "Lo-Fi Beats"
                      Examples.started) m E).
    split; reflexivity.
Defined.

Lemma loadPresets_starts_on_readable_data_witness :
  loadPresets (Examples.fresh None) =
    Js.Ok (install_presets [] (Examples.fresh None)) /\
  presets (fst (install_presets [] (Examples.fresh None))) =
    Examples.initialPresets_values /\
  loadPresets (Examples.fresh (Some (Json.Text_json Js.VNull))) =
    Js.Ok
      (install_presets [] (Examples.fresh (Some (Json.Text_json Js.VNull)))).
Proof.
  split; [|split].
  - apply (loadPresets_starts_on_readable_data (Examples.fresh None)).
    + apply (bool_decide_unpack _). vm_compute. reflexivity.
    + left. split; [left|]; reflexivity.
  - apply (loadPresets_starts_on_readable_data (Examples.fresh None)).
    + apply (bool_decide_unpack _). vm_compute. reflexivity.
    + left. split; [left|]; reflexivity.
    + reflexivity.
  - apply (loadPresets_starts_on_readable_data
             (Examples.fresh (Some (Json.Text_json Js.VNull)))).
    + apply (bool_decide_unpack _). vm_compute. reflexivity.
    + right. exists (Json.Text_json Js.VNull). split; reflexivity.
Defined.

End Instances.

(** ** Writing the presets and reading them back *)

Section ObjectProperties.

Context {V W : Type} (f : V -> W).

Let F (own : list (string * V)) : list (string * W) :=
  map (fun e => (fst e, f (snd e))) own.

Lemma JsMap_has_map (name : string) (own : list (string * V)) :
  JsMap.has String.eqb name (F own) = JsMap.has String.eqb name own.
Proof.
  unfold JsMap.has. induction own as [|[k v] own IH]; simpl; auto.
  destruct (String.eqb k name); auto.
Qed.

Lemma JsMap_set_map (name : string) (v : V) (own : list (string * V)) :
  JsMap.set String.eqb name (f v) (F own) =
  F (JsMap.set String.eqb name v own).
Proof.
  induction own as [|[k x] own IH]; simpl; auto.
  destruct (String.eqb k name); simpl; [reflexivity|].
  f_equal. exact IH.
Qed.

Lemma insert_index_map (n : N) (name : string) (v : V)
    (own : list (string * V)) :
  JsObject.insert_index n name (f v) (F own) =
  F (JsObject.insert_index n name v own).
Proof.
  induction own as [|[k x] own IH]; simpl; auto.
  destruct (JsObject.array_index k) as [n'|]; [|reflexivity].
  destruct (n <? n')%N; simpl; [reflexivity|].
  f_equal. exact IH.
Qed.

Lemma assign_map (name : string) (v : V) (own : list (string * V)) :
  JsObject.assign name (f v) (F own) = F (JsObject.assign name v own).
Proof.
  unfold JsObject.assign, JsObject.define_own.
  destruct (String.eqb name "__proto__"); [reflexivity|].
  rewrite JsMap_has_map.
  destruct (JsObject.array_index name) as [n|].
  - destruct (JsMap.has String.eqb name own).
    + apply JsMap_set_map.
    + apply insert_index_map.
  - apply JsMap_set_map.
Qed.

Lemma fold_assign_map (l acc : list (string * V)) :
  fold_left (fun obj e => JsObject.assign (fst e) (f (snd e)) obj) l (F acc)
  = F (fold_left (fun obj e => JsObject.assign (fst e) (snd e) obj) l acc).
Proof.
  revert acc. induction l as [|[k v] l IH]; intros acc; simpl; auto.
  rewrite assign_map. apply IH.
Qed.

End ObjectProperties.

Section ObjectKeys.

Context {V : Type}.

Lemma JsMap_keys_set_present (name : string) (v : V)
    (own : list (string * V)) :
  JsMap.has String.eqb name own = true ->
  JsMap.keys (JsMap.set String.eqb name v own) = JsMap.keys own.
Proof.
  unfold JsMap.has.
  induction own as [|[k x] own IH]; simpl; [discriminate|].
  destruct (String.eqb k name) eqn:E; simpl; [reflexivity|].
  intros H. f_equal. apply IH, H.
Qed.

Lemma JsMap_has_false (name : string) (own : list (string * V)) :
  JsMap.has String.eqb name own = false <-> ~ In name (JsMap.keys own).
Proof.
  rewrite <- JsMap_get_None. unfold JsMap.has.
  destruct (JsMap.get String.eqb name own); split; congruence.
Qed.

Lemma insert_index_Permutation (n : N) (name : string) (v : V)
    (own : list (string * V)) :
  Permutation (JsObject.insert_index n name v own) ((name, v) :: own).
Proof.
  induction own as [|[k x] own IH]; simpl; [reflexivity|].
  destruct (JsObject.array_index k) as [n'|]; [|reflexivity].
  destruct (n <? n')%N; [reflexivity|].
  rewrite IH. apply perm_swap.
Qed.

(** A property that is not there yet is added, wherever it goes. *)
Lemma assign_fresh_Permutation (name : string) (v : V)
    (own : list (string * V)) :
  name <> "__proto__"%string -> ~ In name (JsMap.keys own) ->
  Permutation (JsObject.assign name v own) ((name, v) :: own).
Proof.
  intros Hp Hk. unfold JsObject.assign, JsObject.define_own.
  apply String.eqb_neq in Hp. rewrite Hp.
  pose proof (proj2 (JsMap_has_false name own) Hk) as Hh.
  pose proof (proj2 (JsMap_get_None name own) Hk) as Hg.
  rewrite Hh.
  destruct (JsObject.array_index name) as [n|].
  - apply insert_index_Permutation.
  - rewrite JsMap_set_fresh by exact Hg.
    rewrite Permutation_app_comm. reflexivity.
Qed.

(** A name that is no array index and not there yet goes last. *)
Lemma assign_fresh_last (name : string) (v : V) (own : list (string * V)) :
  name <> "__proto__"%string -> ~ In name (JsMap.keys own) ->
  JsObject.array_index name = None ->
  JsObject.assign name v own = own ++ [(name, v)].
Proof.
  intros Hp Hk Hi. unfold JsObject.assign, JsObject.define_own.
  apply String.eqb_neq in Hp. rewrite Hp, Hi.
  apply JsMap_set_fresh, JsMap_get_None, Hk.
Qed.

(** The names of the properties stay different from one another. *)
Lemma assign_NoDup (name : string) (v : V) (own : list (string * V)) :
  NoDup (JsMap.keys own) -> NoDup (JsMap.keys (JsObject.assign name v own)).
Proof.
  intros Hnd. unfold JsObject.assign.
  destruct (String.eqb_spec name "__proto__") as [E | E]; [exact Hnd|].
  destruct (JsMap.has String.eqb name own) eqn:Hh.
  - unfold JsObject.define_own. rewrite Hh.
    destruct (JsObject.array_index name);
      rewrite JsMap_keys_set_present by exact Hh; exact Hnd.
  - apply JsMap_has_false in Hh.
    pose proof (assign_fresh_Permutation name v own E Hh) as HP.
    unfold JsObject.assign in HP.
    destruct (String.eqb_spec name "__proto__"); [contradiction|].
    unfold JsMap.keys. rewrite HP. simpl.
    apply NoDup_cons_2; [|exact Hnd].
    rewrite list_elem_of_In. exact Hh.
Qed.

Lemma assign_Forall (Q : string * V -> Prop) (name : string) (v : V)
    (own : list (string * V)) :
  (forall k : string, Q (k, v)) ->
  Forall Q own -> Forall Q (JsObject.assign name v own).
Proof.
  intros Hv Ho. unfold JsObject.assign.
  destruct (String.eqb name "__proto__"); [exact Ho|].
  assert (Hset : Forall Q (JsMap.set String.eqb name v own)).
  { clear -Hv Ho. induction Ho as [|[k x] own Hx Ho IH]; simpl.
    - repeat constructor. apply Hv.
    - destruct (String.eqb k name); constructor; auto. }
  assert (Hins : forall n, Forall Q (JsObject.insert_index n name v own)).
  { intros n. rewrite insert_index_Permutation. constructor; auto. }
  unfold JsObject.define_own.
  destruct (JsObject.array_index name);
    [destruct (JsMap.has String.eqb name own)|]; auto.
Qed.

End ObjectKeys.

(** ** Array indices *)

Section ArrayIndex.

Import JsObject.

Local Open Scope N_scope.

Lemma digit_value_lt (c : ascii) (d : N) :
  digit_value c = Some d -> d < 10.
Proof.
  unfold digit_value.
  destruct ((48 <=? N_of_ascii c) && (N_of_ascii c <=? 57)) eqn:E;
    [|discriminate].
  apply andb_true_iff in E as [E1 E2].
  apply N.leb_le in E1, E2. intros H. apply (inj Some) in H. lia.
Qed.

Lemma digit_value_inj (c c' : ascii) (d : N) :
  digit_value c = Some d -> digit_value c' = Some d -> c = c'.
Proof.
  unfold digit_value.
  destruct ((48 <=? N_of_ascii c) && (N_of_ascii c <=? 57)) eqn:E;
    [|discriminate].
  destruct ((48 <=? N_of_ascii c') && (N_of_ascii c' <=? 57)) eqn:E';
    [|discriminate].
  apply andb_true_iff in E as [E1 _], E' as [E1' _].
  apply N.leb_le in E1, E1'.
  intros H H'. apply (inj Some) in H, H'.
  rewrite <- (ascii_N_embedding c), <- (ascii_N_embedding c').
  f_equal. lia.
Qed.

Lemma digits_value_shift (s : string) (acc : N) :
  digits_value s acc =
  option_map (fun w => acc * 10 ^ N.of_nat (String.length s) + w)
    (digits_value s 0).
Proof.
  revert acc. induction s as [|c s IH]; intros acc;
    cbn [digits_value String.length].
  - cbn [option_map]. f_equal. change (N.of_nat 0) with 0.
    rewrite N.pow_0_r. lia.
  - destruct (digit_value c) as [d|]; [|reflexivity].
    rewrite (IH (acc * 10 + d)), (IH (0 * 10 + d)).
    destruct (digits_value s 0) as [w|]; [|reflexivity].
    cbn [option_map]. f_equal.
    rewrite Nat2N.inj_succ, N.pow_succ_r'. lia.
Qed.

Lemma digits_value_cons (c : ascii) (s : string) (w : N) :
  digits_value (String c s) 0 = Some w ->
  exists d w' : N,
    digit_value c = Some d /\ digits_value s 0 = Some w' /\
    w = d * 10 ^ N.of_nat (String.length s) + w'.
Proof.
  cbn [digits_value]. destruct (digit_value c) as [d|]; [|discriminate].
  rewrite digits_value_shift.
  destruct (digits_value s 0) as [w'|]; [|discriminate].
  cbn [option_map]. intros H. apply (inj Some) in H.
  exists d, w'. split; [reflexivity|]. split; [reflexivity|]. lia.
Qed.

Lemma digits_value_bound (s : string) (w : N) :
  digits_value s 0 = Some w -> w < 10 ^ N.of_nat (String.length s).
Proof.
  revert w. induction s as [|c s IH]; intros w.
  - cbn. intros H. apply (inj Some) in H. subst w. lia.
  - intros H. apply digits_value_cons in H as (d & w' & Hd & Hw & ->).
    apply digit_value_lt in Hd. specialize (IH w' Hw).
    cbn [String.length]. rewrite Nat2N.inj_succ, N.pow_succ_r'. nia.
Qed.

Lemma digits_value_length_inj (s t : string) (w : N) :
  String.length s = String.length t ->
  digits_value s 0 = Some w -> digits_value t 0 = Some w -> s = t.
Proof.
  revert t w. induction s as [|c s IH]; intros [|c' t] w Hl; simpl in Hl;
    try discriminate; [reflexivity|].
  injection Hl as Hl. intros Hs Ht.
  apply digits_value_cons in Hs as (d & w1 & Hd & Hw1 & Hs).
  apply digits_value_cons in Ht as (d' & w2 & Hd' & Hw2 & Ht).
  pose proof (digits_value_bound s w1 Hw1) as B1.
  pose proof (digits_value_bound t w2 Hw2) as B2.
  rewrite <- Hl in Ht, B2.
  set (P := 10 ^ N.of_nat (String.length s)) in *.
  assert (Hdd : d = d').
  { destruct (N.lt_trichotomy d d') as [L | [E | L]]; [|exact E|].
    - assert (d * P + P <= d' * P) by nia. lia.
    - assert (d' * P + P <= d * P) by nia. lia. }
  subst d'. assert (w1 = w2) by lia. subst w2.
  f_equal; [exact (digit_value_inj c c' d Hd Hd') | exact (IH t w1 Hl Hw1 Hw2)].
Qed.

Lemma digit_value_zero (c : ascii) :
  digit_value c = Some 0 -> c = "0"%char.
Proof. intros H. apply (digit_value_inj c "0" 0 H). reflexivity. Qed.

(** What [array_index] accepts: the name [0], or digits that do not
    begin with [0]; the index is then at least the power of ten of its
    length. *)
Lemma array_index_digits (name : string) (n : N) :
  array_index name = Some n ->
  digits_value name 0 = Some n /\
  (name = "0"%string \/
   10 ^ N.of_nat (Nat.pred (String.length name)) <= n /\ 0 < n).
Proof.
  unfold array_index. destruct name as [|c rest]; [discriminate|].
  destruct (Ascii.eqb_spec c "0") as [-> | Hc]; cbn [andb].
  - destruct (String.eqb_spec rest EmptyString) as [-> | Hr]; cbn [negb];
      [|discriminate].
    simpl. intros H. apply (inj Some) in H. subst n. auto.
  - destruct (digits_value (String c rest) 0) as [w|] eqn:E; [|discriminate].
    destruct (w <? 4294967295); [|discriminate].
    intros H. apply (inj Some) in H. subst w. split; [reflexivity|].
    right. apply digits_value_cons in E as (d & w' & Hd & Hw & ->).
    assert (d <> 0) by (intros ->; apply Hc, digit_value_zero, Hd).
    cbn [String.length Nat.pred].
    assert (0 < 10 ^ N.of_nat (String.length rest))
      by (apply N.neq_0_lt_0, N.pow_nonzero; lia).
    nia.
Qed.

(** Different names are different array indices. *)
Lemma array_index_inj (a b : string) (n : N) :
  array_index a = Some n -> array_index b = Some n -> a = b.
Proof.
  intros Ha Hb.
  apply array_index_digits in Ha as [Da Ha], Hb as [Db Hb].
  destruct Ha as [-> | [La Pa]], Hb as [-> | [Lb Pb]].
  - reflexivity.
  - simpl in Da. apply (inj Some) in Da. lia.
  - simpl in Db. apply (inj Some) in Db. lia.
  - apply (digits_value_length_inj a b n); [|exact Da | exact Db].
    pose proof (digits_value_bound a n Da) as Ua.
    pose proof (digits_value_bound b n Db) as Ub.
    assert (Hlt : forall x y : nat,
               10 ^ N.of_nat (Nat.pred x) <= n -> n < 10 ^ N.of_nat y ->
               (x <= y)%nat).
    { intros x y H1 H2.
      destruct (Nat.le_gt_cases x y) as [Hxy | Hxy]; [exact Hxy|].
      exfalso.
      assert (10 ^ N.of_nat y <= 10 ^ N.of_nat (Nat.pred x))
        by (apply N.pow_le_mono_r; lia).
      lia. }
    apply Nat.le_antisymm; [apply (Hlt _ _ La Ub) | apply (Hlt _ _ Lb Ua)].
Qed.

End ArrayIndex.

(** ** The order in which an object enumerates its properties *)

Section IndexOrder.

Import JsObject.

Context {V : Type}.

Lemma index_lt_trans (a b c : string) :
  index_lt a b -> index_lt b c -> index_lt a c.
Proof.
  unfold index_lt.
  destruct (array_index a), (array_index b), (array_index c);
    try tauto. lia.
Qed.

Lemma is_array_index_true (name : string) :
  is_array_index name = true <-> exists n : N, array_index name = Some n.
Proof.
  unfold is_array_index. destruct (array_index name) as [n|].
  - split; [eauto | reflexivity].
  - split; [discriminate | intros [n H]; discriminate].
Qed.

Lemma is_array_index_false (name : string) :
  is_array_index name = false <-> array_index name = None.
Proof.
  unfold is_array_index. destruct (array_index name); split; congruence.
Qed.

(** A new array index is put among the array indices, which stand before
    the other names. *)
Lemma insert_index_app (n : N) (name : string) (v : V)
    (ix others : list (string * V)) :
  Forall (fun e => is_array_index (fst e) = true) ix ->
  Forall (fun e => is_array_index (fst e) = false) others ->
  insert_index n name v (ix ++ others) = insert_index n name v ix ++ others.
Proof.
  intros Hi Ho. induction Hi as [|[k x] ix Hk Hi IH]; simpl.
  - destruct Ho as [|[k x] others Hk Ho]; simpl; [reflexivity|].
    simpl in Hk. apply is_array_index_false in Hk. rewrite Hk. reflexivity.
  - simpl in Hk. apply is_array_index_true in Hk as [n' Hk]. rewrite Hk.
    destruct (n <? n')%N; [reflexivity|]. rewrite IH. reflexivity.
Qed.

Lemma insert_index_keys_Permutation (n : N) (name : string) (v : V)
    (own : list (string * V)) :
  Permutation (JsMap.keys (insert_index n name v own))
    (name :: JsMap.keys own).
Proof.
  unfold JsMap.keys.
  exact (Permutation_map fst (insert_index_Permutation n name v own)).
Qed.

(** It is put where the array indices stay in ascending order. *)
Lemma insert_index_sorted (n : N) (name : string) (v : V)
    (ix : list (string * V)) :
  array_index name = Some n ->
  ~ In name (JsMap.keys ix) ->
  Forall (fun e => is_array_index (fst e) = true) ix ->
  StronglySorted index_lt (JsMap.keys ix) ->
  StronglySorted index_lt (JsMap.keys (insert_index n name v ix)).
Proof.
  intros Hn Hfresh Hi. induction Hi as [|[k x] ix Hk Hi IH]; simpl;
    intros Hs.
  - constructor; constructor.
  - simpl in Hk. apply is_array_index_true in Hk as [n' Hk].
    rewrite Hk. simpl in Hfresh.
    apply StronglySorted_inv in Hs as [Hs Hall].
    assert (Hne : n <> n').
    { intros <-. apply Hfresh. left. exact (array_index_inj k name n Hk Hn). }
    destruct (N.ltb_spec n n') as [L | L].
    + simpl. constructor; [constructor; assumption|].
      assert (Hnk : index_lt name k)
        by (unfold index_lt; rewrite Hn, Hk; exact L).
      constructor; [exact Hnk|].
      eapply Forall_impl; [|exact Hall].
      intros c Hc. exact (index_lt_trans name k c Hnk Hc).
    + simpl. constructor.
      * apply IH; [tauto | exact Hs].
      * assert (Hkn : index_lt k name)
          by (unfold index_lt; rewrite Hn, Hk; lia).
        apply Forall_forall. intros c Hc.
        apply (Permutation_in _ (insert_index_keys_Permutation n name v ix))
          in Hc.
        destruct Hc as [<- | Hc]; [exact Hkn|].
        rewrite Forall_forall in Hall. apply Hall, Hc.
Qed.

Lemma insert_index_Forall (Q : string * V -> Prop) (n : N) (name : string)
    (v : V) (own : list (string * V)) :
  Q (name, v) -> Forall Q own -> Forall Q (insert_index n name v own).
Proof.
  intros Hq Ho. rewrite insert_index_Permutation. constructor; assumption.
Qed.

Lemma assign_fresh_index (n : N) (name : string) (v : V)
    (own : list (string * V)) :
  name <> "__proto__"%string -> ~ In name (JsMap.keys own) ->
  array_index name = Some n ->
  assign name v own = insert_index n name v own.
Proof.
  intros Hp Hk Hn. unfold assign, define_own.
  apply String.eqb_neq in Hp. rewrite Hp, Hn.
  rewrite (proj2 (JsMap_has_false name own) Hk). reflexivity.
Qed.

End IndexOrder.

Section RoundTrip.

Import Js PromptDjMidi.

Lemma sameValueZero_VStr (k : value) (s : string) :
  sameValueZero k (VStr s) = true -> k = VStr s.
Proof.
  destruct k; simpl; try discriminate.
  intros H. apply String.eqb_eq in H. congruence.
Qed.

Lemma JsMap_get_sameValueZero_None (s : string)
    (m : list (value * value)) :
  ~ In (VStr s) (JsMap.keys m) ->
  JsMap.get sameValueZero (VStr s) m = None.
Proof.
  induction m as [|[k v] m IH]; simpl; [reflexivity|].
  intros H. destruct (sameValueZero k (VStr s)) eqn:E.
  - apply sameValueZero_VStr in E. tauto.
  - apply IH. tauto.
Qed.

Lemma JsMap_set_fresh_any {K V : Type} (same : K -> K -> bool) (k : K)
    (v : V) (m : list (K * V)) :
  JsMap.get same k m = None -> JsMap.set same k v m = m ++ [(k, v)].
Proof.
  induction m as [|[k' v'] m IH]; simpl; [reflexivity|].
  destruct (same k' k); [discriminate|].
  intros H. rewrite IH by exact H. reflexivity.
Qed.

(** [new Map(Array.from(m.entries()))] is [m] again. *)
Lemma add_entries_json_map (m acc : list (value * value)) :
  NoDup (JsMap.keys (acc ++ m)) ->
  Forall (fun e => exists s : string, fst e = VStr s) m ->
  JsObject.add_entries (map (fun kv => VArr [fst kv; snd kv]) m) acc =
  Ok (acc ++ m).
Proof.
  revert acc. induction m as [|[k v] m IH]; intros acc Hnd Hk; simpl.
  - rewrite app_nil_r. reflexivity.
  - apply Forall_cons_1 in Hk as [[s Hs] Hk]. simpl in Hs. subst k.
    simpl.
    rewrite JsMap_set_fresh_any.
    + rewrite IH; [rewrite <- app_assoc; reflexivity | | exact Hk].
      rewrite <- app_assoc. exact Hnd.
    + apply JsMap_get_sameValueZero_None.
      unfold JsMap.keys in Hnd. rewrite map_app in Hnd. simpl in Hnd.
      apply NoDup_ListNoDup, NoDup_remove_2 in Hnd.
      intros Hin. apply Hnd, in_or_app. auto.
Qed.

Lemma new_Map_entries_array (m : list (value * value)) :
  json_map m -> JsObject.new_Map (JsObject.entries_array m) = Ok m.
Proof.
  intros [Hnd Hf]. unfold JsObject.entries_array. simpl.
  apply (add_entries_json_map m []); [exact Hnd|].
  eapply Forall_impl; [|exact Hf]. intros e [He _]. exact He.
Qed.

Lemma reparsed_entries_array (m : list (value * value)) :
  json_map m ->
  Json.reparsed (JsObject.entries_array m) = JsObject.entries_array m.
Proof.
  intros [_ Hf]. unfold JsObject.entries_array. simpl. f_equal.
  induction Hf as [|[k v] m [[s Hs] Hv] Hf IH]; simpl; [reflexivity|].
  simpl in Hs, Hv. subst k. unfold json_value in Hv. rewrite Hv.
  f_equal. exact IH.
Qed.

(** The object [serializePresets] builds is written and read back as it
    is. *)
Lemma reparsed_presets_object (l : preset_values) :
  Forall (fun e => json_map (snd e)) l ->
  Json.reparsed
    (VObj (map (fun e => (fst e, JsObject.entries_array (snd e))) l)) =
  VObj (map (fun e => (fst e, JsObject.entries_array (snd e))) l).
Proof.
  intros Hf. simpl. f_equal.
  induction Hf as [|[name m] l Hm Hf IH]; [reflexivity|].
  cbn [map fst snd]. change (Js.is_undefined (JsObject.entries_array m))
    with false. cbv iota.
  rewrite IH. f_equal. f_equal.
  exact (reparsed_entries_array m Hm).
Qed.

Lemma collect_presets_entries (l acc : preset_values) :
  NoDup (JsMap.keys (acc ++ l)) ->
  Forall (fun e => json_map (snd e)) l ->
  collect_presets
    (map (fun e => (fst e, JsObject.entries_array (snd e))) l) acc =
  Ok (acc ++ l).
Proof.
  revert acc. induction l as [|[name m] l IH]; intros acc Hnd Hf;
    cbn [map fst snd collect_presets].
  - rewrite app_nil_r. reflexivity.
  - apply Forall_cons_1 in Hf as [Hm Hf]. simpl in Hm.
    rewrite new_Map_entries_array by exact Hm. cbn [bind].
    rewrite JsMap_set_fresh.
    + rewrite IH; [rewrite <- app_assoc; reflexivity | | exact Hf].
      rewrite <- app_assoc. exact Hnd.
    + apply JsMap_get_None.
      unfold JsMap.keys in Hnd. rewrite map_app in Hnd. simpl in Hnd.
      apply NoDup_ListNoDup, NoDup_remove_2 in Hnd.
      intros Hin. apply Hnd, in_or_app. auto.
Qed.

Lemma enumeration_order_acc_NoDup (l acc : preset_values) :
  NoDup (JsMap.keys acc) ->
  NoDup
    (JsMap.keys
       (fold_left (fun obj e => JsObject.assign (fst e) (snd e) obj) l acc)).
Proof.
  revert acc. induction l as [|[name m] l IH]; intros acc H; simpl; auto.
  apply IH, assign_NoDup, H.
Qed.

Lemma enumeration_order_acc_Forall (Q : list (value * value) -> Prop)
    (l acc : preset_values) :
  Forall (fun e => Q (snd e)) l -> Forall (fun e => Q (snd e)) acc ->
  Forall (fun e => Q (snd e))
    (fold_left (fun obj e => JsObject.assign (fst e) (snd e) obj) l acc).
Proof.
  revert acc. induction l as [|[name m] l IH]; intros acc Hl Ha; simpl; auto.
  apply Forall_cons_1 in Hl as [Hm Hl].
  apply IH; [exact Hl|]. apply assign_Forall; auto.
Qed.

(** Reading back what was written gives the presets in the order in
    which the object enumerates their names, without a preset named
    [__proto__]. *)
Theorem deserialize_serialize (presets : preset_values) :
  Forall (fun e => json_map (snd e)) presets ->
  deserializePresets (serializePresets presets) =
  Ok (enumeration_order presets).
Proof.
  intros Hf. unfold serializePresets, deserializePresets, Json.stringify.
  change (@nil (string * value)) with
    (map (fun e : string * list (value * value) =>
            (fst e, JsObject.entries_array (snd e))) []).
  rewrite (fold_assign_map JsObject.entries_array presets []).
  fold (enumeration_order presets).
  assert (Hq : Forall (fun e => json_map (snd e)) (enumeration_order presets)).
  { apply enumeration_order_acc_Forall; [exact Hf | constructor]. }
  rewrite reparsed_presets_object by exact Hq.
  simpl. apply (collect_presets_entries (enumeration_order presets) []);
    [|exact Hq].
  apply enumeration_order_acc_NoDup. constructor.
Qed.

Lemma assign_keys_not_proto {V : Type} (name : string) (v : V)
    (own : list (string * V)) :
  ~ In "__proto__"%string (JsMap.keys own) ->
  ~ In "__proto__"%string (JsMap.keys (JsObject.assign name v own)).
Proof.
  intros Ho. unfold JsObject.assign.
  destruct (String.eqb_spec name "__proto__") as [E | E]; [exact Ho|].
  destruct (JsMap.has String.eqb name own) eqn:Hh.
  - unfold JsObject.define_own. rewrite Hh.
    destruct (JsObject.array_index name);
      rewrite JsMap_keys_set_present by exact Hh; exact Ho.
  - apply JsMap_has_false in Hh.
    pose proof (assign_fresh_Permutation name v own E Hh) as HP.
    unfold JsObject.assign in HP.
    destruct (String.eqb_spec name "__proto__"); [contradiction|].
    intros Hin. unfold JsMap.keys in Hin.
    apply (Permutation_in _ (Permutation_map fst HP)) in Hin.
    simpl in Hin. destruct Hin as [Hin | Hin]; [congruence | auto].
Qed.

(** X22. Whatever presets are written, as long as their prompts are
    values of JSON, reading the text back succeeds and gives no preset
    named [__proto__]. *)
Theorem proto_never_survives (presets : preset_values) :
  Forall (fun e => json_map (snd e)) presets ->
  exists back : preset_values,
    deserializePresets (serializePresets presets) = Ok back /\
    ~ In "__proto__"%string (JsMap.keys back).
Proof.
  intros Hf. exists (enumeration_order presets).
  split; [apply deserialize_serialize, Hf|].
  unfold enumeration_order.
  assert (H : forall l acc : preset_values,
             ~ In "__proto__"%string (JsMap.keys acc) ->
             ~ In "__proto__"%string
                 (JsMap.keys
                    (fold_left
                       (fun obj e => JsObject.assign (fst e) (snd e) obj)
                       l acc))).
  { induction l as [|[name m] l IH]; intros acc Ha; simpl; auto.
    apply IH, assign_keys_not_proto, Ha. }
  apply H. simpl. tauto.
Qed.

Lemma enumeration_order_acc_Permutation (l acc : preset_values) :
  NoDup (JsMap.keys (acc ++ l)) ->
  ~ In "__proto__"%string (JsMap.keys l) ->
  Permutation
    (fold_left (fun obj e => JsObject.assign (fst e) (snd e) obj) l acc)
    (acc ++ l).
Proof.
  revert acc. induction l as [|[name m] l IH]; intros acc Hnd Hp; simpl.
  - rewrite app_nil_r. reflexivity.
  - simpl in Hp.
    assert (Hk : ~ In name (JsMap.keys acc)).
    { unfold JsMap.keys in *. rewrite map_app in Hnd. simpl in Hnd.
      apply NoDup_ListNoDup, NoDup_remove_2 in Hnd.
      intros Hin. apply Hnd, in_or_app. auto. }
    assert (HP : Permutation (JsObject.assign name m acc) (acc ++ [(name, m)])).
    { rewrite assign_fresh_Permutation by (auto; intros E; apply Hp; auto).
      rewrite Permutation_app_comm. reflexivity. }
    rewrite IH.
    + rewrite HP, <- app_assoc. reflexivity.
    + unfold JsMap.keys in *. rewrite HP, <- app_assoc. exact Hnd.
    + tauto.
Qed.

Lemma enumeration_order_acc_same (l acc : preset_values) :
  NoDup (JsMap.keys (acc ++ l)) ->
  ~ In "__proto__"%string (JsMap.keys l) ->
  Forall (fun e => JsObject.array_index (fst e) = None) l ->
  fold_left (fun obj e => JsObject.assign (fst e) (snd e) obj) l acc =
  acc ++ l.
Proof.
  revert acc. induction l as [|[name m] l IH]; intros acc Hnd Hp Hi; simpl.
  - rewrite app_nil_r. reflexivity.
  - simpl in Hp. apply Forall_cons_1 in Hi as [Hn Hi]. simpl in Hn.
    assert (Hk : ~ In name (JsMap.keys acc)).
    { unfold JsMap.keys in *. rewrite map_app in Hnd. simpl in Hnd.
      apply NoDup_ListNoDup, NoDup_remove_2 in Hnd.
      intros Hin. apply Hnd, in_or_app. auto. }
    rewrite assign_fresh_last by (auto; intros E; apply Hp; auto).
    rewrite IH; [rewrite <- app_assoc; reflexivity | | tauto | exact Hi].
    rewrite <- app_assoc. exact Hnd.
Qed.

(** The object that gets the names of the presets holds the array
    indices first, in ascending order, and the other names after them
    in the order in which they were assigned. *)
Lemma enumeration_order_acc_split (l ix others : preset_values) :
  NoDup (JsMap.keys ((ix ++ others) ++ l)) ->
  ~ In "__proto__"%string (JsMap.keys l) ->
  Forall (fun e => JsObject.is_array_index (fst e) = true) ix ->
  Forall (fun e => JsObject.is_array_index (fst e) = false) others ->
  StronglySorted JsObject.index_lt (JsMap.keys ix) ->
  exists ix' : preset_values,
    fold_left (fun obj e => JsObject.assign (fst e) (snd e) obj) l
      (ix ++ others) =
    ix' ++ others ++
      List.filter (fun e => negb (JsObject.is_array_index (fst e))) l /\
    Permutation ix'
      (ix ++ List.filter (fun e => JsObject.is_array_index (fst e)) l) /\
    StronglySorted JsObject.index_lt (JsMap.keys ix').
Proof.
  revert ix others.
  induction l as [|[name m] l IH]; intros ix others Hnd Hp Hi Ho Hs.
  - exists ix. simpl. rewrite !app_nil_r. auto.
  - simpl in Hp.
    assert (Hk : ~ In name (JsMap.keys (ix ++ others))).
    { unfold JsMap.keys in *. rewrite map_app in Hnd. simpl in Hnd.
      apply NoDup_ListNoDup, NoDup_remove_2 in Hnd.
      intros Hin. apply Hnd, in_or_app. auto. }
    assert (Hpn : name <> "__proto__"%string) by (intros E; apply Hp; auto).
    cbn [fold_left fst snd List.filter].
    destruct (JsObject.array_index name) as [n|] eqn:En.
    + assert (Ht : JsObject.is_array_index name = true)
        by (apply is_array_index_true; eauto).
      rewrite Ht. cbn [negb].
      rewrite (assign_fresh_index n) by assumption.
      rewrite insert_index_app by assumption.
      destruct (IH (JsObject.insert_index n name m ix) others)
        as (ix' & E & HP & Hs').
      * unfold JsMap.keys in *. rewrite !map_app in *.
        rewrite (Permutation_map fst
                   (insert_index_Permutation n name m ix)).
        simpl. simpl in Hnd.
        apply NoDup_ListNoDup. apply NoDup_ListNoDup in Hnd.
        rewrite <- app_assoc in *.
        apply (Permutation_NoDup
                 (l := map fst ix ++ map fst others ++ name :: map fst l));
          [|exact Hnd].
        rewrite !app_assoc. symmetry. apply Permutation_middle.
      * tauto.
      * apply insert_index_Forall; assumption.
      * exact Ho.
      * apply insert_index_sorted; [exact En | | exact Hi | exact Hs].
        intros Hin. apply Hk. unfold JsMap.keys in *.
        rewrite map_app. apply in_or_app. auto.
      * exists ix'. split; [exact E|]. split; [|exact Hs'].
        rewrite HP, insert_index_Permutation. simpl.
        apply Permutation_middle.
    + assert (Hf : JsObject.is_array_index name = false)
        by (apply is_array_index_false; exact En).
      rewrite Hf. cbn [negb].
      rewrite assign_fresh_last by assumption.
      rewrite <- app_assoc.
      destruct (IH ix (others ++ [(name, m)])) as (ix' & E & HP & Hs').
      * rewrite <- !app_assoc in *. exact Hnd.
      * tauto.
      * exact Hi.
      * apply Forall_app. split; [exact Ho|]. constructor; [exact Hf|].
        constructor.
      * exact Hs.
      * exists ix'. split; [|split; [exact HP | exact Hs']].
        rewrite E, <- !app_assoc. reflexivity.
Qed.

(** X20. The round trip on presets none of which is named [__proto__]:
    the same presets come back, each with its prompts in their order.
    The presets whose names are array indices come first, in ascending
    order of the index; the other presets follow in the order in which
    they were written; and when no name is an array index the order of
    the presets is kept as a whole. *)
Theorem round_trip_without_proto (presets : preset_values) :
  NoDup (JsMap.keys presets) ->
  ~ In "__proto__"%string (JsMap.keys presets) ->
  Forall (fun e => json_map (snd e)) presets ->
  exists back indexed : preset_values,
    deserializePresets (serializePresets presets) = Ok back /\
    Permutation back presets /\
    back =
      indexed ++
      List.filter (fun e => negb (JsObject.is_array_index (fst e)))
        presets /\
    Permutation indexed
      (List.filter (fun e => JsObject.is_array_index (fst e)) presets) /\
    StronglySorted JsObject.index_lt (JsMap.keys indexed) /\
    (Forall (fun e => JsObject.array_index (fst e) = None) presets ->
     back = presets).
Proof.
  intros Hnd Hp Hf.
  destruct (enumeration_order_acc_split presets [] [])
    as (indexed & E & HP & Hs);
    [exact Hnd | exact Hp | constructor | constructor | constructor|].
  exists (enumeration_order presets), indexed.
  split; [apply deserialize_serialize, Hf|]. split; [|split; [|split;
    [|split]]].
  - apply (enumeration_order_acc_Permutation presets []); assumption.
  - exact E.
  - exact HP.
  - exact Hs.
  - intros Hi. apply (enumeration_order_acc_same presets []); assumption.
Qed.

End RoundTrip.

(** ** A saved preset shares its prompts with the registry *)

Section Sharing.

Import PromptDjMidi.

(** What a successful save leaves in the store. *)
Lemma saveCurrentPreset_stores (reify : list (string * loc) ->
                                        list (Js.value * Js.value))
    (answer : string) (confirmed : bool) (st : by_reference) :
  let name := JsString.trim answer in
  JsString.truthy answer = true ->
  JsString.truthy name = true ->
  JsMap.has String.eqb name (defaultPresets st) = false ->
  JsMap.has String.eqb name (presets st) = false \/ confirmed = true ->
  let st' := fst (saveCurrentPreset reify (Some answer) confirmed st) in
  get_preset (Some name) (presets st') = Some (prompts st) /\
  activePresetName st' = Some name /\
  prompts st' = prompts st.
Proof.
  intros name Ha Hn Hd Hc st'. unfold st', saveCurrentPreset.
  rewrite Ha. cbn [negb]. fold name. rewrite Hn, Hd. cbn [negb andb].
  assert (Hg : JsMap.has String.eqb name (presets st) && true
               && negb confirmed = false).
  { destruct Hc as [-> | ->]; [reflexivity|].
    rewrite andb_false_r. reflexivity. }
  rewrite Hg. cbn [fst]. unfold savePresetsToStorage. simpl.
  split; [apply JsMap_get_set_eq | split; reflexivity].
Qed.

(** X21. After a save, a change of a prompt of the registry shows in the
    saved preset: the preset still maps the prompt's id to the object the
    registry holds, and that object now has the fields of the event. *)
Theorem saved_preset_shares_prompts (answer : string) (confirmed : bool)
    (h : heap) (st : by_reference) (e p : Types.Prompt) (r : loc) :
  let name := JsString.trim answer in
  JsString.truthy answer = true ->
  JsString.truthy name = true ->
  JsMap.has String.eqb name (defaultPresets st) = false ->
  JsMap.has String.eqb name (presets st) = false \/ confirmed = true ->
  JsMap.get String.eqb (Types.promptId e) (prompts st) = Some r ->
  h !! r = Some p ->
  let st1 := fst (saveCurrentPreset (reify h) (Some answer) confirmed st) in
  let h2 := fst (fst (handlePromptChanged e h st1)) in
  let st2 := snd (fst (handlePromptChanged e h st1)) in
  exists m : list (string * loc),
    get_preset (Some name) (presets st2) = Some m /\
    JsMap.get String.eqb (Types.promptId e) m = Some r /\
    h2 !! r =
      Some (Types.mkPrompt (Types.promptId p) (Types.text e)
              (Types.weight e) (Types.cc e) (Types.color p)).
Proof.
  intros name Ha Hn Hd Hc Hr Hp st1 h2 st2.
  destruct (saveCurrentPreset_stores (reify h) answer confirmed st
              Ha Hn Hd Hc) as (Hg & _ & Hq).
  fold name in Hg. fold st1 in Hg, Hq.
  exists (prompts st). unfold h2, st2, handlePromptChanged.
  rewrite Hq, Hr. cbn [fst snd]. split; [exact Hg|].
  split; [reflexivity|].
  unfold heap, loc in *.
  rewrite list_lookup_alter_eq, Hp. reflexivity.
Qed.

Lemma saved_preset_shares_prompts_witness :
  exists m : list (string * loc),
    get_preset (Some "Mine"%string)
      (presets (snd (fst Examples.after_turn))) = Some m /\
    JsMap.get String.eqb "prompt-0" m = Some 0%nat /\
    fst (fst Examples.after_turn) !! 0%nat = Some Examples.turned_up.
Proof.
  apply (saved_preset_shares_prompts "Mine" true Examples.initial_heap
           Examples.started Examples.turned_up Examples.lush_strings 0%nat);
    try reflexivity.
  right. reflexivity.
Defined.

End Sharing.

(** ** The round trip on the built-in prompts *)

Section RoundTripExamples.

Import Js PromptDjMidi.

Lemma reify_keys (h : heap) (m : list (string * loc)) :
  JsMap.keys (reify h m) = VStr <$> JsMap.keys m.
Proof.
  unfold JsMap.keys, reify. rewrite map_map.
  induction m as [|[k r] m IH]; simpl; [reflexivity|].
  f_equal. exact IH.
Qed.

(** The values of a map of prompts are a map of JSON when the ids are
    different and every prompt is a value of JSON. *)
Lemma reify_json_map (h : heap) (m : list (string * loc)) :
  NoDup (JsMap.keys m) ->
  Forall
    (fun e => exists p : Types.Prompt,
        h !! snd e = Some p /\ json_value (Prompt_value p)) m ->
  json_map (reify h m).
Proof.
  intros Hnd Hf. split.
  - rewrite reify_keys. apply NoDup_fmap_2; [|exact Hnd].
    intros x y E. congruence.
  - unfold reify. induction Hf as [|[k r] m (p & Hp & Hv) Hf IH];
      simpl; constructor.
    + simpl in Hp. rewrite Hp. split; [eexists; reflexivity | exact Hv].
    + apply IH. apply NoDup_cons_1_2 in Hnd. exact Hnd.
Qed.

Lemma registry_is_json :
  json_map (reify Examples.initial_heap (prompts Examples.started)).
Proof.
  apply reify_json_map.
  - apply (bool_decide_unpack _). vm_compute. reflexivity.
  - vm_compute prompts. vm_compute Examples.initial_heap.
    repeat (constructor; [eexists; split; reflexivity|]).
    constructor.
Qed.

(** Presets saved as [b], [10] and [2] are read back as [2], [10]
    and [b]. *)
Lemma round_trip_without_proto_witness :
  exists back indexed : preset_values,
    deserializePresets (serializePresets MoreExamples.numbered_presets) =
      Ok back /\
    back = indexed ++ [("b"%string, [])] /\
    Permutation indexed [("10"%string, []); ("2"%string, [])] /\
    StronglySorted JsObject.index_lt (JsMap.keys indexed).
Proof.
  destruct (round_trip_without_proto MoreExamples.numbered_presets)
    as (back & indexed & H1 & _ & H3 & H4 & H5 & _).
  - apply (bool_decide_unpack _). vm_compute. reflexivity.
  - simpl. intros [H | [H | [H | []]]]; discriminate.
  - repeat (constructor; [split; constructor|]). constructor.
  - exists back, indexed. exact (conj H1 (conj H3 (conj H4 H5))).
Defined.

End RoundTripExamples.

(** ** Further scenarios *)

Section Scenarios.

Import Js PromptDjMidi.

Local Open Scope float_scope.

(** The halo of the specification's scenario: hidden at the weight 0, and
    of scale 1.5 at the weight 1 with no audio. *)
Lemma halo_scenario :
  WeightKnob.haloDisplayed WeightKnob.init = false /\
  WeightKnob.haloDisplayed (WeightKnob.set_value 1 WeightKnob.init) = true /\
  WeightKnob.haloScale (WeightKnob.set_value 1 WeightKnob.init) = 1.5.
Proof. repeat split. Qed.

(** A drag upwards by 50 pixels from the value 1 gives 1.5, and a drag
    far upwards stops at 2. *)
Lemma drag_scenario :
  WeightKnob.value
    (fst (WeightKnob.handlePointerMove 250 Examples.dragged_knob)) = 1.5 /\
  WeightKnob.value
    (fst (WeightKnob.handlePointerMove 20 Examples.dragged_knob)) = 2 /\
  WeightKnob.value
    (fst (WeightKnob.handlePointerMove 900 Examples.dragged_knob)) = 0.
Proof. repeat split. Qed.

(** What [savePresetsToStorage] wrote is read at the next startup: the
    user presets are the ones written, in the enumeration order of their
    names. *)
Lemma loadPresets_after_save (st : by_value) (user : preset_values) :
  localStorage st = Some (serializePresets user) ->
  Forall (fun e => json_map (snd e)) user ->
  loadPresets st = Ok (install_presets (enumeration_order user) st).
Proof.
  intros Hs Hf. unfold loadPresets. rewrite Hs.
  change (Json.truthy (serializePresets user)) with true. cbv iota.
  rewrite deserialize_serialize by exact Hf. reflexivity.
Qed.

(** A stored text that is JSON of another shape makes loading throw as
    well: here an object whose property is a number. *)
Lemma loadPresets_wrong_shape_throws :
  loadPresets
    (Examples.fresh (Some (Json.Text_json (VObj [("Mine"%string, VNum 1)]))))
  = Throw TypeError.
Proof. reflexivity. Qed.

(** Deleting the active user preset falls back to the first built-in
    preset, with one [prompts-changed] event, and the user preset is gone
    from the store and from the storage. *)
Lemma delete_scenario :
  let r := deleteCurrentPreset (reify Examples.initial_heap) true
             Examples.saved in
  activePresetName (fst r) = Some "Ambient Dreams"%string /\
  JsMap.keys (presets (fst r)) =
    ["Ambient Dreams"; "Synthwave Drive"; "Lo-Fi Beats"]%string /\
  length (snd r) = 1%nat /\
  localStorage (fst r) = Some (Json.Text_json (VObj [])).
Proof. vm_compute. repeat split. Qed.

End Scenarios.

(** * Further properties of the code *)

(** ** The knob under sequences of events *)

Section KnobRuns.

Local Open Scope float_scope.

(** X1. A knob whose value is in [[0, 2]] and whose drag reference is
    finite stays so under every sequence of pointer-down, pointer-move,
    pointer-up and wheel events with finite coordinates: the handlers
    never store a value outside [[0, 2]], a NaN or an infinity. *)
Theorem knob_events_keep_range (es : list WeightKnob.event)
    (k : WeightKnob.t) :
  forallb WeightKnob.event_finite es = true ->
  WeightKnob.in_range k = true ->
  WeightKnob.in_range (WeightKnob.run es k) = true /\
  JsNum.between 0 2 (WeightKnob.value (WeightKnob.run es k)) = true.
Proof.
  intros Hes Hk. split; [|apply run_in_range; assumption].
  revert k Hes Hk. unfold WeightKnob.run.
  induction es as [|e es IH]; intros k Hes Hk; simpl; [exact Hk|].
  simpl in Hes. apply andb_true_iff in Hes as [He Hes].
  apply IH; [exact Hes|]. apply step_in_range; assumption.
Qed.

Lemma knob_events_keep_range_witness :
  WeightKnob.in_range
    (WeightKnob.run MoreExamples.gesture WeightKnob.init) = true /\
  JsNum.between 0 2
    (WeightKnob.value
       (WeightKnob.run MoreExamples.gesture WeightKnob.init)) = true.
Proof.
  apply (knob_events_keep_range MoreExamples.gesture WeightKnob.init);
    reflexivity.
Defined.

End KnobRuns.

(** ** The dispatcher's filter *)

Section MidiFilter.

Lemma status_nibbles_check :
  forallb
    (fun n =>
       let s := Z.of_nat n in
       if (176 <=? s) && (s <=? 191)
       then Z.eqb (Z.land s 0xf0) 0xb0 && Z.eqb (Z.land s 0x0f) (s - 176)
       else negb (Z.eqb (Z.land s 0xf0) 0xb0))
    (seq 0 256) = true.
Proof. vm_compute. reflexivity. Qed.

Lemma status_nibbles (s : Z) :
  0 <= s < 256 ->
  if (176 <=? s) && (s <=? 191)
  then Z.land s 0xf0 = 0xb0 /\ Z.land s 0x0f = s - 176
  else Z.land s 0xf0 <> 0xb0.
Proof.
  intros Hs. pose proof status_nibbles_check as H.
  rewrite forallb_forall in H. specialize (H (Z.to_nat s)).
  rewrite Z2Nat.id in H by lia. cbv zeta in H.
  assert (Hin : In (Z.to_nat s) (seq 0 256)) by (apply in_seq; lia).
  specialize (H Hin).
  destruct ((176 <=? s) && (s <=? 191)).
  - apply andb_true_iff in H as [H1 H2].
    split; apply Z.eqb_eq; assumption.
  - apply negb_true_iff, Z.eqb_neq in H. exact H.
Qed.

(** X2. A MIDI message reaches the subscribers only from the active
    input and only as a control change: for a status byte [0xB0..0xBF]
    exactly one [cc-message] is dispatched, with the channel the low
    nibble of the status byte, the controller number the second byte and
    the value the third; for any other status byte, for an event without
    data and for any other input nothing is dispatched. *)
Theorem onmidimessage_filters (inputId : string)
    (p : MidiDispatcher.packet) (d : MidiDispatcher.t) :
  0 <= MidiDispatcher.status p < 256 ->
  (MidiDispatcher.activeMidiInputId d = Some inputId ->
   176 <= MidiDispatcher.status p <= 191 ->
   MidiDispatcher.onmidimessage inputId (Some p) d =
     [Types.mkControlChange (MidiDispatcher.status p - 176)
        (MidiDispatcher.data1 p) (MidiDispatcher.data2 p)] /\
   0 <= MidiDispatcher.status p - 176 <= 15) /\
  (MidiDispatcher.status p < 176 \/ 191 < MidiDispatcher.status p ->
   MidiDispatcher.onmidimessage inputId (Some p) d = []) /\
  (MidiDispatcher.activeMidiInputId d <> Some inputId ->
   forall data : option MidiDispatcher.packet,
     MidiDispatcher.onmidimessage inputId data d = []) /\
  MidiDispatcher.onmidimessage inputId None d = [].
Proof.
  intros Hs. pose proof (status_nibbles _ Hs) as Hn.
  unfold MidiDispatcher.onmidimessage. repeat split.
  - rewrite H, bool_decide_eq_true_2 by reflexivity.
    replace ((176 <=? MidiDispatcher.status p)
             && (MidiDispatcher.status p <=? 191)) with true in Hn
      by (symmetry; apply andb_true_iff; split; apply Z.leb_le; lia).
    destruct Hn as [H1 H2]. rewrite H1, H2. reflexivity.
  - lia.
  - lia.
  - intros Hout.
    replace ((176 <=? MidiDispatcher.status p)
             && (MidiDispatcher.status p <=? 191)) with false in Hn
      by (symmetry; apply andb_false_iff;
          destruct Hout; [left; apply Z.leb_gt | right; apply Z.leb_gt];
          lia).
    apply Z.eqb_neq in Hn. rewrite Hn.
    destruct (bool_decide _); reflexivity.
  - intros Hne data. rewrite bool_decide_eq_false_2; [reflexivity|].
    congruence.
  - destruct (bool_decide _); reflexivity.
Qed.

Lemma onmidimessage_filters_witness :
  MidiDispatcher.onmidimessage "input-1" (Some Examples.packet_cc7)
    (MidiDispatcher.mk (Some "input-1")) =
    [Types.mkControlChange (0xB0 - 176) 7 64] /\
  MidiDispatcher.onmidimessage "input-1"
    (Some (MidiDispatcher.mkPacket 0x90 60 100))
    (MidiDispatcher.mk (Some "input-1")) = [].
Proof.
  split.
  - apply (onmidimessage_filters "input-1" Examples.packet_cc7
             (MidiDispatcher.mk (Some "input-1")));
      [simpl; lia | reflexivity | simpl; lia].
  - apply (onmidimessage_filters "input-1"
             (MidiDispatcher.mkPacket 0x90 60 100)
             (MidiDispatcher.mk (Some "input-1"))); simpl; lia.
Defined.

End MidiFilter.

(** ** A control change across the grid *)

Section GridDispatch.

(** The controllers a message concerns: those in learn mode and those
    bound to its controller number. *)
Let concerned (m : Types.ControlChange) (k : PromptController.t) : bool :=
  PromptController.learnMode k
  || Z.eqb (Types.cc_cc m) (PromptController.cc k).

Lemma on_cc_message_learnMode (m : Types.ControlChange)
    (k : PromptController.t) :
  PromptController.learnMode (fst (PromptController.on_cc_message m k)) =
  false.
Proof.
  unfold PromptController.on_cc_message.
  destruct (PromptController.learnMode k) eqn:E; [reflexivity|].
  destruct (Z.eqb _ _); simpl; exact E.
Qed.

Lemma on_cc_message_events (m : Types.ControlChange)
    (k : PromptController.t) :
  length (snd (PromptController.on_cc_message m k)) =
  if concerned m k then 1%nat else 0%nat.
Proof.
  unfold PromptController.on_cc_message, concerned.
  destruct (PromptController.learnMode k); [reflexivity|].
  destruct (Z.eqb _ _); reflexivity.
Qed.

Lemma dispatch_cc_cons (m : Types.ControlChange) (k : PromptController.t)
    (g : list PromptController.t) :
  Grid.dispatch_cc m (k :: g) =
  (fst (PromptController.on_cc_message m k) :: fst (Grid.dispatch_cc m g),
   snd (PromptController.on_cc_message m k) ++ snd (Grid.dispatch_cc m g)).
Proof.
  simpl. destruct (PromptController.on_cc_message m k).
  destruct (Grid.dispatch_cc m g). reflexivity.
Qed.

Lemma dispatch_cc_lookup (m : Types.ControlChange)
    (g : list PromptController.t) (i : nat) :
  fst (Grid.dispatch_cc m g) !! i =
  (fun k => fst (PromptController.on_cc_message m k)) <$> g !! i.
Proof.
  revert i. induction g as [|k g IH]; intros i; [reflexivity|].
  rewrite dispatch_cc_cons. destruct i; simpl; [reflexivity | apply IH].
Qed.

(** X3. One control change reaches every controller of the grid. After
    it no controller is in learn mode; every controller that was learning
    is bound to the controller number of the message and keeps its
    weight; the number of changed events is the number of controllers
    that were learning or bound to that number; and the grid has as many
    controllers as before. *)
Theorem dispatch_cc_ends_learning (m : Types.ControlChange)
    (g : list PromptController.t) :
  Grid.learning (fst (Grid.dispatch_cc m g)) = [] /\
  length (fst (Grid.dispatch_cc m g)) = length g /\
  length (snd (Grid.dispatch_cc m g)) =
    length (List.filter (concerned m) g) /\
  (forall (i : nat) (k : PromptController.t),
     g !! i = Some k -> PromptController.learnMode k = true ->
     exists k' : PromptController.t,
       fst (Grid.dispatch_cc m g) !! i = Some k' /\
       PromptController.cc k' = Types.cc_cc m /\
       PromptController.weight k' = PromptController.weight k).
Proof.
  split; [|split; [|split]].
  - induction g as [|k g IH]; [reflexivity|].
    rewrite dispatch_cc_cons. cbn [fst]. unfold Grid.learning in *.
    rewrite filter_cons, IH.
    destruct (decide _) as [E | E]; [|reflexivity].
    rewrite on_cc_message_learnMode in E. discriminate.
  - induction g as [|k g IH]; [reflexivity|].
    rewrite dispatch_cc_cons. simpl. f_equal. exact IH.
  - induction g as [|k g IH]; [reflexivity|].
    rewrite dispatch_cc_cons. cbn [snd List.filter].
    rewrite length_app, on_cc_message_events, IH.
    destruct (concerned m k); reflexivity.
  - intros i k Hk Hl. rewrite dispatch_cc_lookup, Hk. simpl.
    eexists. split; [reflexivity|].
    unfold PromptController.on_cc_message. rewrite Hl. split; reflexivity.
Qed.

End GridDispatch.

(** ** A changed prompt in the registry *)

Section RegistryChange.

Import PromptDjMidi.

(** Setting a key to the value it has leaves the map as it is. *)
Lemma JsMap_set_same {V : Type} (k : string) (v : V)
    (m : list (string * V)) :
  JsMap.get String.eqb k m = Some v -> JsMap.set String.eqb k v m = m.
Proof.
  induction m as [|[k' v'] m IH]; simpl; [discriminate|].
  destruct (String.eqb k' k).
  - intros H. apply (inj Some) in H. subst v'. reflexivity.
  - intros H. f_equal. apply IH, H.
Qed.

(** X4. [handlePromptChanged] for a prompt id that the registry does not
    hold logs an error and changes nothing. For an id it holds, the text,
    the weight and the controller number of the event are written into
    the prompt object, whose id and colour stay; no other prompt object
    changes, the registry keeps its entries in their order, the presets
    and the active name stay, and exactly one [prompts-changed] event is
    dispatched. *)
Theorem handlePromptChanged_updates_one (e : Types.Prompt) (h : heap)
    (st : by_reference) :
  (JsMap.get String.eqb (Types.promptId e) (prompts st) = None ->
   handlePromptChanged e h st =
     (h, st, [Console_error_prompt_not_found (Types.promptId e)])) /\
  (forall (r : loc) (p : Types.Prompt),
     JsMap.get String.eqb (Types.promptId e) (prompts st) = Some r ->
     h !! r = Some p ->
     let h' := fst (fst (handlePromptChanged e h st)) in
     let st' := snd (fst (handlePromptChanged e h st)) in
     h' !! r =
       Some (Types.mkPrompt (Types.promptId p) (Types.text e)
               (Types.weight e) (Types.cc e) (Types.color p)) /\
     (forall r' : loc, r' <> r -> h' !! r' = h !! r') /\
     length h' = length h /\
     st' = st /\
     snd (handlePromptChanged e h st) = [Prompts_changed (prompts st)]).
Proof.
  split.
  - intros H. unfold handlePromptChanged. rewrite H. reflexivity.
  - intros r p Hr Hp. unfold handlePromptChanged. rewrite Hr.
    cbn [fst snd]. rewrite (JsMap_set_same _ _ _ Hr).
    unfold heap, loc in *. repeat split.
    + rewrite list_lookup_alter_eq, Hp. reflexivity.
    + intros r' Hne. apply list_lookup_alter_ne. auto.
    + apply length_alter.
    + destruct st; reflexivity.
Qed.

Lemma handlePromptChanged_updates_one_witness :
  fst (fst (handlePromptChanged Examples.turned_up Examples.initial_heap
              Examples.started)) !! 0%nat = Some Examples.turned_up /\
  snd (fst (handlePromptChanged Examples.turned_up Examples.initial_heap
              Examples.started)) = Examples.started /\
  handlePromptChanged
    (Types.mkPrompt "prompt-99" "None" 1%float 3 "#000")
    Examples.initial_heap Examples.started =
    (Examples.initial_heap, Examples.started,
     [Console_error_prompt_not_found "prompt-99"]).
Proof.
  pose proof (handlePromptChanged_updates_one Examples.turned_up
                Examples.initial_heap Examples.started) as [_ H].
  specialize (H 0%nat Examples.lush_strings eq_refl eq_refl).
  split; [apply H|]. split; [apply H|].
  apply (handlePromptChanged_updates_one
           (Types.mkPrompt "prompt-99" "None" 1%float 3 "#000")
           Examples.initial_heap Examples.started).
  reflexivity.
Defined.

(** X5. From the knob to the registry. A control change for the
    controller number a controller is bound to, followed by the handling
    of the event the controller dispatched, leaves the registry's prompt
    with the weight [v / 127 * 2] and with the controller's text and
    number. A control change that a learning controller takes leaves the
    registry's prompt with the controller number of the message and with
    the controller's own weight. *)
Theorem cc_message_reaches_registry (m : Types.ControlChange)
    (k : PromptController.t) (h : heap) (st : by_reference) (r : loc)
    (p : Types.Prompt) :
  JsMap.get String.eqb (PromptController.promptId k) (prompts st) = Some r ->
  h !! r = Some p ->
  PromptController.learnMode k = true \/
  Types.cc_cc m = PromptController.cc k ->
  exists e : Types.Prompt,
    snd (PromptController.on_cc_message m k) = [e] /\
    fst (fst (handlePromptChanged e h st)) !! r =
      Some (Types.mkPrompt (Types.promptId p) (PromptController.text k)
              (if PromptController.learnMode k
               then PromptController.weight k
               else (JsNum.of_Z (Types.cc_value m) / 127 * 2)%float)
              (Types.cc_cc m) (Types.color p)).
Proof.
  intros Hr Hp Hc. unfold PromptController.on_cc_message.
  destruct (PromptController.learnMode k) eqn:Hl.
  - eexists. split; [reflexivity|].
    unfold handlePromptChanged, PromptController.dispatchPromptChange.
    cbn [Types.promptId PromptController.promptId]. rewrite Hr.
    cbn [fst]. unfold heap, loc in *.
    rewrite list_lookup_alter_eq, Hp. reflexivity.
  - destruct Hc as [Hc | Hc]; [discriminate|].
    rewrite Hc, Z.eqb_refl. eexists. split; [reflexivity|].
    unfold handlePromptChanged, PromptController.dispatchPromptChange,
      PromptController.set_weight.
    cbn [Types.promptId PromptController.promptId]. rewrite Hr.
    cbn [fst]. unfold heap, loc in *.
    rewrite list_lookup_alter_eq, Hp. reflexivity.
Qed.

End RegistryChange.

Section GridInstances.

Import PromptDjMidi.

Local Open Scope float_scope.

Lemma dispatch_cc_ends_learning_witness :
  let g := [Examples.controller_of Examples.lush_strings true;
            Examples.controller_of Examples.warm_pads true;
            Examples.knob_cc7] in
  Grid.learning (fst (Grid.dispatch_cc Examples.message_cc7 g)) = [] /\
  length (snd (Grid.dispatch_cc Examples.message_cc7 g)) = 3%nat /\
  exists k' : PromptController.t,
    fst (Grid.dispatch_cc Examples.message_cc7 g) !! 1%nat = Some k' /\
    PromptController.cc k' = 7%Z /\
    PromptController.weight k' = 0.
Proof.
  pose proof (dispatch_cc_ends_learning Examples.message_cc7
                [Examples.controller_of Examples.lush_strings true;
                 Examples.controller_of Examples.warm_pads true;
                 Examples.knob_cc7]) as (H1 & _ & H3 & H4).
  split; [exact H1|]. split; [exact H3|].
  apply (H4 1%nat (Examples.controller_of Examples.warm_pads true));
    reflexivity.
Defined.

Lemma cc_message_reaches_registry_witness :
  exists e : Types.Prompt,
    snd (PromptController.on_cc_message Examples.message_cc7
           Examples.knob_cc7) = [e] /\
    fst (fst (handlePromptChanged e Examples.initial_heap Examples.started))
      !! 7%nat =
      Some (Types.mkPrompt "prompt-7" "Glassy FM Synthesis"
              (JsNum.of_Z 64 / 127 * 2) 7 "#d9b2ff").
Proof.
  apply (cc_message_reaches_registry Examples.message_cc7 Examples.knob_cc7
           Examples.initial_heap Examples.started 7%nat
           (Types.mkPrompt "prompt-7" "Glassy FM Synthesis" 0 7 "#d9b2ff"));
    [reflexivity | reflexivity | right; reflexivity].
Defined.

End GridInstances.

(** ** Saving and deleting presets *)

Section SaveDelete.

Import PromptDjMidi.

Context {K P : Type} (reify : list (K * P) -> list (Js.value * Js.value)).

Lemma savePresetsToStorage_frame (st : t K P) :
  presets (savePresetsToStorage reify st) = presets st /\
  activePresetName (savePresetsToStorage reify st) = activePresetName st /\
  defaultPresets (savePresetsToStorage reify st) = defaultPresets st /\
  prompts (savePresetsToStorage reify st) = prompts st.
Proof. repeat split. Qed.

Lemma has_true_neq {V : Type} (a b : string) (m : list (string * V)) :
  JsMap.has String.eqb a m = true -> JsMap.has String.eqb b m = false ->
  b <> a.
Proof. intros Ha Hb E. subst b. congruence. Qed.

(** X6. [saveCurrentPreset] validates the name before it touches the
    store. A cancelled prompt, an empty name or a name of white space
    changes nothing and shows nothing; the name of a default preset
    changes nothing and shows the alert; an existing user preset is
    overwritten only when the user confirms. Whatever the answers, the
    entry of every default preset in the store stays as it was, and so
    does the table of defaults. *)
Theorem saveCurrentPreset_validates (answer : option string)
    (confirmed : bool) (st : t K P) :
  let name := JsString.trim (default EmptyString answer) in
  (answer = None \/ name = EmptyString ->
   saveCurrentPreset reify answer confirmed st = (st, [])) /\
  (answer <> None -> name <> EmptyString ->
   JsMap.has String.eqb name (defaultPresets st) = true ->
   saveCurrentPreset reify answer confirmed st =
     (st, [Alert_cannot_overwrite_default name])) /\
  (answer <> None -> name <> EmptyString ->
   JsMap.has String.eqb name (presets st) = true -> confirmed = false ->
   fst (saveCurrentPreset reify answer confirmed st) = st) /\
  (forall d : string,
     JsMap.has String.eqb d (defaultPresets st) = true ->
     JsMap.get String.eqb d
       (presets (fst (saveCurrentPreset reify answer confirmed st))) =
     JsMap.get String.eqb d (presets st)) /\
  defaultPresets (fst (saveCurrentPreset reify answer confirmed st)) =
    defaultPresets st.
Proof.
  intros name. unfold saveCurrentPreset.
  destruct answer as [a|]; subst name; cbn [default from_option id].
  2:{ repeat split; intros; cbn [fst]; try reflexivity; congruence. }
  set (name := JsString.trim a).
  destruct (JsString.truthy a) eqn:Ea; cbn [negb].
  2:{ apply truthy_empty in Ea. subst a.
      assert (Hn : name = EmptyString) by reflexivity.
      clearbody name.
      repeat split; intros; cbn [fst]; try reflexivity; congruence. }
  clearbody name.
  destruct (JsString.truthy name) eqn:En; cbn [negb].
  2:{ apply truthy_empty in En.
      repeat split; intros; cbn [fst]; try reflexivity; congruence. }
  assert (Hne : name <> EmptyString).
  { intros E. apply truthy_empty in E. congruence. }
  destruct (JsMap.has String.eqb name (defaultPresets st)) eqn:Hd;
    cbn [negb andb].
  { repeat split; intros; cbn [fst]; try reflexivity; try congruence.
    destruct H; congruence. }
  rewrite andb_true_r.
  assert (Hkeep : forall d : string,
             JsMap.has String.eqb d (defaultPresets st) = true ->
             JsMap.get String.eqb d
               (JsMap.set String.eqb name (prompts st) (presets st)) =
             JsMap.get String.eqb d (presets st)).
  { intros d Hdd. apply JsMap_get_set_ne.
    apply (has_true_neq d name _ Hdd Hd). }
  destruct (JsMap.has String.eqb name (presets st)) eqn:Hp; cbn [andb].
  - destruct confirmed; cbn [negb fst];
      repeat split; intros; try reflexivity; try congruence;
      try (apply Hkeep; assumption);
      match goal with H : _ \/ _ |- _ => destruct H; congruence end.
  - cbn [fst]. repeat split; intros; try reflexivity; try congruence;
      try (apply Hkeep; assumption);
      match goal with H : _ \/ _ |- _ => destruct H; congruence end.
Qed.

End SaveDelete.

Section SaveInstances.

Import PromptDjMidi.

Lemma saveCurrentPreset_validates_witness :
  saveCurrentPreset (reify Examples.initial_heap) (Some "   ") true
    Examples.started = (Examples.started, []) /\
  saveCurrentPreset (reify Examples.initial_heap)
    (Some " Ambient Dreams ") true Examples.started =
    (Examples.started, [Alert_cannot_overwrite_default "Ambient Dreams"]) /\
  fst (saveCurrentPreset (reify Examples.initial_heap) (Some "Mine") false
         Examples.saved) = Examples.saved /\
  JsMap.get String.eqb "Lo-Fi Beats" (presets Examples.saved) =
  JsMap.get String.eqb "Lo-Fi Beats" (presets Examples.started).
Proof.
  split; [|split; [|split]].
  - apply (saveCurrentPreset_validates (reify Examples.initial_heap)
             (Some "   "%string) true Examples.started).
    right. reflexivity.
  - apply (saveCurrentPreset_validates (reify Examples.initial_heap)
             (Some " Ambient Dreams "%string) true Examples.started);
      [discriminate | discriminate | reflexivity].
  - apply (saveCurrentPreset_validates (reify Examples.initial_heap)
             (Some "Mine"%string) false Examples.saved);
      [discriminate | discriminate | reflexivity | reflexivity].
  - apply (saveCurrentPreset_validates (reify Examples.initial_heap)
             (Some "Mine"%string) true Examples.started).
    reflexivity.
Defined.

End SaveInstances.

Section Delete.

Import PromptDjMidi.

Lemma JsMap_get_delete_ne {V : Type} (k k0 : string)
    (m : list (string * V)) :
  k <> k0 ->
  JsMap.get String.eqb k0 (JsMap.delete String.eqb k m) =
  JsMap.get String.eqb k0 m.
Proof.
  intros Hne. induction m as [|[k' v'] m IH]; simpl; [reflexivity|].
  destruct (String.eqb_spec k' k) as [E | E]; simpl.
  - subst k'. destruct (String.eqb_spec k k0); [contradiction|].
    reflexivity.
  - destruct (String.eqb k' k0); [reflexivity | exact IH].
Qed.

Lemma JsMap_get_delete_eq {V : Type} (k : string) (m : list (string * V)) :
  NoDup (JsMap.keys m) ->
  JsMap.get String.eqb k (JsMap.delete String.eqb k m) = None.
Proof.
  induction m as [|[k' v'] m IH]; simpl; intros Hnd; [reflexivity|].
  pose proof (NoDup_cons_1_1 _ _ Hnd) as Hk.
  apply NoDup_cons_1_2 in Hnd.
  destruct (String.eqb_spec k' k) as [E | E]; simpl.
  - subst k'. apply JsMap_get_None. rewrite <- list_elem_of_In. exact Hk.
  - destruct (String.eqb_spec k' k); [contradiction|]. apply IH, Hnd.
Qed.

Context {K P : Type} (reify : list (K * P) -> list (Js.value * Js.value)).

Lemma has_preset_Some (n : string) (m : list (string * list (K * P))) :
  has_preset (Some n) m = JsMap.has String.eqb n m.
Proof. reflexivity. Qed.

(** X7. [deleteCurrentPreset] refuses a default preset: the element is
    unchanged and the alert is shown. Without the confirmation nothing
    changes. With it, the active user preset is removed from the store,
    every other preset stays, the first default preset becomes the active
    one and its prompts are loaded into the registry with exactly one
    [prompts-changed] event. Whatever the case, no default preset leaves
    the store. *)
Theorem deleteCurrentPreset_falls_back (confirmed : bool) (st : t K P) :
  (has_preset (activePresetName st) (defaultPresets st) = true ->
   deleteCurrentPreset reify confirmed st =
     (st, [Alert_cannot_delete_default])) /\
  (has_preset (activePresetName st) (defaultPresets st) = false ->
   confirmed = false ->
   deleteCurrentPreset reify confirmed st = (st, [])) /\
  (forall d : string,
     JsMap.has String.eqb d (defaultPresets st) = true ->
     JsMap.get String.eqb d
       (presets (fst (deleteCurrentPreset reify confirmed st))) =
     JsMap.get String.eqb d (presets st)) /\
  (forall n : string,
     activePresetName st = Some n ->
     JsMap.has String.eqb n (defaultPresets st) = false ->
     confirmed = true ->
     NoDup (JsMap.keys (presets st)) ->
     let st' := fst (deleteCurrentPreset reify confirmed st) in
     JsMap.get String.eqb n (presets st') = None /\
     (forall o : string,
        o <> n ->
        JsMap.get String.eqb o (presets st') =
        JsMap.get String.eqb o (presets st)) /\
     activePresetName st' = first_default (defaultPresets st) /\
     (forall (f : string) (m : list (K * P)),
        first_default (defaultPresets st) = Some f ->
        JsMap.get String.eqb f (presets st) = Some m ->
        prompts st' = m /\
        snd (deleteCurrentPreset reify confirmed st) =
          [Prompts_changed m])).
Proof.
  unfold deleteCurrentPreset.
  destruct (has_preset (activePresetName st) (defaultPresets st)) eqn:Hd.
  { split; [reflexivity|]. split; [intros; congruence|].
    split; [reflexivity|].
    intros n Ha Hn. rewrite Ha in Hd.
    change (JsMap.has String.eqb n (defaultPresets st) = true) in Hd.
    rewrite Hd in Hn. discriminate. }
  destruct confirmed.
  2:{ split; [intros; congruence|]. split; [reflexivity|].
      split; [reflexivity|]. intros; congruence. }
  destruct (activePresetName st) as [n|] eqn:Ha.
  - change (JsMap.has String.eqb n (defaultPresets st) = false) in Hd.
    set (st2 := set_activePresetName _ _).
    assert (Hp2 : presets st2 = JsMap.delete String.eqb n (presets st))
      by reflexivity.
    assert (Hl : presets (fst (loadActivePreset st2)) = presets st2 /\
                 activePresetName (fst (loadActivePreset st2)) =
                   activePresetName st2).
    { unfold loadActivePreset. destruct (get_preset _ _); split; reflexivity. }
    destruct (loadActivePreset st2) as [st3 out] eqn:E3.
    cbn [fst snd] in *. unfold savePresetsToStorage.
    cbn [presets activePresetName prompts set_localStorage].
    destruct Hl as [Hl1 Hl2].
    split; [intros; congruence|]. split; [intros; congruence|].
    split.
    + intros d Hdd. rewrite Hl1, Hp2. apply JsMap_get_delete_ne.
      intros E. subst d. congruence.
    + intros n0 Hn0 _ _ Hnd. apply (inj Some) in Hn0. subst n0.
      split; [|split; [|split]].
      * rewrite Hl1, Hp2. apply JsMap_get_delete_eq, Hnd.
      * intros o Ho. rewrite Hl1, Hp2. apply JsMap_get_delete_ne. auto.
      * rewrite Hl2. reflexivity.
      * intros f m Hf Hm.
        assert (Hfn : n <> f).
        { intros E. subst f. unfold first_default in Hf.
          destruct (defaultPresets st) as [|[k v] ds]; [discriminate|].
          simpl in Hf. apply (inj Some) in Hf. subst k.
          unfold JsMap.has in Hd. simpl in Hd.
          rewrite String.eqb_refl in Hd. discriminate. }
        assert (Hg : get_preset (activePresetName st2) (presets st2) =
                     Some m).
        { unfold st2. cbn. rewrite Hf. cbn.
          rewrite JsMap_get_delete_ne by exact Hfn. exact Hm. }
        unfold loadActivePreset in E3. rewrite Hg in E3.
        injection E3 as <- <-. split; reflexivity.
  - set (st2 := set_activePresetName _ _).
    assert (Hl : presets (fst (loadActivePreset st2)) = presets st).
    { unfold loadActivePreset. destruct (get_preset _ _); reflexivity. }
    destruct (loadActivePreset st2) as [st3 out] eqn:E3.
    cbn [fst snd] in *. unfold savePresetsToStorage.
    cbn [presets activePresetName prompts set_localStorage].
    repeat split; intros; try congruence.
Qed.

End Delete.

Section DeleteInstances.

Import PromptDjMidi.

Lemma deleteCurrentPreset_falls_back_witness :
  deleteCurrentPreset (reify Examples.initial_heap) true Examples.started =
    (Examples.started, [Alert_cannot_delete_default]) /\
  JsMap.get String.eqb "Mine"
    (presets (fst (deleteCurrentPreset (reify Examples.initial_heap) true
                     Examples.saved))) = None /\
  activePresetName
    (fst (deleteCurrentPreset (reify Examples.initial_heap) true
            Examples.saved)) = Some "Ambient Dreams"%string.
Proof.
  split.
  - apply (deleteCurrentPreset_falls_back (reify Examples.initial_heap) true
             Examples.started).
    reflexivity.
  - pose proof (deleteCurrentPreset_falls_back
                  (reify Examples.initial_heap) true Examples.saved)
      as (_ & _ & _ & H).
    specialize (H "Mine"%string eq_refl eq_refl eq_refl).
    destruct H as (H1 & _ & H3 & _).
    + apply (bool_decide_unpack _). vm_compute. reflexivity.
    + split; [exact H1 | exact H3].
Defined.

End DeleteInstances.

(** ** What is written to storage and what comes back *)

Section Persistence.

Import Js PromptDjMidi.

Lemma JsMap_has_In {V : Type} (k : string) (m : list (string * V)) :
  JsMap.has String.eqb k m = true <-> In k (JsMap.keys m).
Proof.
  unfold JsMap.has. induction m as [|[k' v'] m IH]; simpl.
  - split; [discriminate | tauto].
  - destruct (String.eqb_spec k' k) as [E | E].
    + split; auto.
    + rewrite IH. tauto.
Qed.

(** The loop of [savePresetsToStorage] keeps the presets that are no
    defaults, in their order. *)
Lemma user_presets_loop {V : Type} (ds ps acc : list (string * V)) :
  NoDup (JsMap.keys (acc ++ ps)) ->
  fold_left
    (fun user e =>
       if negb (JsMap.has String.eqb (fst e) ds)
       then JsMap.set String.eqb (fst e) (snd e) user
       else user) ps acc =
  acc ++ List.filter (fun e => negb (JsMap.has String.eqb (fst e) ds)) ps.
Proof.
  revert acc. induction ps as [|[k v] ps IH]; intros acc Hnd; simpl.
  - rewrite app_nil_r. reflexivity.
  - assert (Hk : ~ In k (JsMap.keys acc)).
    { unfold JsMap.keys in *. rewrite map_app in Hnd. simpl in Hnd.
      apply NoDup_ListNoDup, NoDup_remove_2 in Hnd.
      intros Hin. apply Hnd, in_or_app. auto. }
    destruct (JsMap.has String.eqb k ds); cbn [negb].
    + apply IH. unfold JsMap.keys in *. rewrite map_app in *.
      simpl in Hnd. apply NoDup_ListNoDup in Hnd.
      apply NoDup_ListNoDup. eapply NoDup_remove_1. exact Hnd.
    + rewrite JsMap_set_fresh by (apply JsMap_get_None; exact Hk).
      rewrite IH; rewrite <- app_assoc; [reflexivity | exact Hnd].
Qed.

Context {K P : Type} (reify : list (K * P) -> list (value * value)).

(** X8. [savePresetsToStorage] writes the presets of the store that are
    no default presets, and only those, in the order in which the store
    holds them: the text written is that of the store with the default
    presets filtered out. The store itself, the registry and the active
    name are not touched. *)
Theorem savePresetsToStorage_writes_user_presets (st : t K P) :
  NoDup (JsMap.keys (presets st)) ->
  let user :=
    List.filter
      (fun e => negb (JsMap.has String.eqb (fst e) (defaultPresets st)))
      (presets st) in
  localStorage (savePresetsToStorage reify st) =
    Some (serializePresets (map (fun e => (fst e, reify (snd e))) user)) /\
  (forall e : string * list (K * P),
     In e user <->
     In e (presets st) /\
     JsMap.has String.eqb (fst e) (defaultPresets st) = false) /\
  presets (savePresetsToStorage reify st) = presets st /\
  prompts (savePresetsToStorage reify st) = prompts st /\
  activePresetName (savePresetsToStorage reify st) = activePresetName st.
Proof.
  intros Hnd user. split; [|split; [|repeat split]].
  - unfold savePresetsToStorage. cbn [localStorage set_localStorage].
    rewrite (user_presets_loop (defaultPresets st) (presets st) [])
      by exact Hnd.
    reflexivity.
  - intros e. subst user. rewrite filter_In, negb_true_iff. reflexivity.
Qed.

End Persistence.

Section Restart.

Import Js PromptDjMidi.

Lemma map_pair_id {A B : Type} (l : list (A * B)) :
  map (fun e => (fst e, snd e)) l = l.
Proof.
  induction l as [|[a b] l IH]; simpl; [reflexivity|]. f_equal. exact IH.
Qed.

Lemma filter_none {A : Type} (f : A -> bool) (l : list A) :
  (forall a : A, In a l -> f a = false) -> List.filter f l = [].
Proof.
  induction l as [|a l IH]; intros H; simpl; [reflexivity|].
  rewrite (H a) by (left; reflexivity). apply IH.
  intros b Hb. apply H. right. exact Hb.
Qed.

Lemma filter_all {A : Type} (f : A -> bool) (l : list A) :
  (forall a : A, In a l -> f a = true) -> List.filter f l = l.
Proof.
  induction l as [|a l IH]; intros H; simpl; [reflexivity|].
  rewrite (H a) by (left; reflexivity). f_equal. apply IH.
  intros b Hb. apply H. right. exact Hb.
Qed.

(** In a store that lists the defaults first, the presets that are no
    defaults are the ones after them. *)
Lemma filter_defaults_out {V : Type} (ds us : list (string * V)) :
  NoDup (JsMap.keys (ds ++ us)) ->
  List.filter (fun e => negb (JsMap.has String.eqb (fst e) ds)) (ds ++ us)
  = us.
Proof.
  intros Hnd. rewrite List.filter_app.
  rewrite filter_none, filter_all; [reflexivity | |].
  - intros [k v] Hin. cbn [fst]. apply negb_true_iff, JsMap_has_false.
    unfold JsMap.keys in *. rewrite map_app in Hnd.
    apply list.NoDup_app in Hnd as (_ & Hdis & _).
    intros Hk. apply (Hdis k); rewrite list_elem_of_In; [exact Hk|].
    apply (in_map fst) in Hin. exact Hin.
  - intros [k v] Hin. cbn [fst]. apply negb_false_iff, JsMap_has_In.
    apply (in_map fst) in Hin. exact Hin.
Qed.

(** X9. The user presets survive a restart. When the store lists the
    default presets first and the user presets after them, with names
    that are all different, and no user preset is named [__proto__] or by
    an array index, then what [savePresetsToStorage] writes is read by
    [loadPresets] of a new element with the same defaults into a store
    with the same presets in the same order. *)
Theorem presets_survive_restart (st : by_value) (us : preset_values) :
  presets st = defaultPresets st ++ us ->
  NoDup (JsMap.keys (presets st)) ->
  Forall
    (fun e =>
       fst e <> "__proto__"%string /\
       JsObject.array_index (fst e) = None /\ json_map (snd e)) us ->
  let stored := localStorage (savePresetsToStorage (fun m => m) st) in
  stored = Some (serializePresets us) /\
  exists (st' : by_value) (out : list (output (list (value * value)))),
    loadPresets (constructor (defaultPresets st) stored) = Ok (st', out) /\
    presets st' = presets st /\
    defaultPresets st' = defaultPresets st.
Proof.
  intros Hps Hnd Hus stored.
  assert (Hs : stored = Some (serializePresets us)).
  { unfold stored, savePresetsToStorage.
    cbn [localStorage set_localStorage].
    rewrite (user_presets_loop (defaultPresets st) (presets st) [])
      by exact Hnd.
    cbn [app]. rewrite map_pair_id, Hps, filter_defaults_out; [reflexivity|].
    rewrite <- Hps. exact Hnd. }
  split; [exact Hs|]. rewrite Hs.
  assert (Hnu : NoDup (JsMap.keys us)).
  { rewrite Hps in Hnd. unfold JsMap.keys in *. rewrite map_app in Hnd.
    apply list.NoDup_app in Hnd as (_ & _ & H). exact H. }
  assert (Hj : Forall (fun e => json_map (snd e)) us).
  { eapply Forall_impl; [|exact Hus]. intros e (_ & _ & H). exact H. }
  assert (Hord : enumeration_order us = us).
  { apply (enumeration_order_acc_same us []); [exact Hnu | |].
    - intros Hin. apply in_map_iff in Hin as (e & He & Hin).
      rewrite Forall_forall in Hus.
      apply Hus in Hin. destruct Hin as [Hin _]. congruence.
    - eapply Forall_impl; [|exact Hus]. intros e (_ & H & _). exact H. }
  unfold loadPresets. cbn [localStorage constructor].
  change (Json.truthy (serializePresets us)) with true. cbv iota.
  rewrite deserialize_serialize by exact Hj. cbn [bind].
  rewrite Hord.
  destruct (install_presets us
              (constructor (defaultPresets st) (Some (serializePresets us))))
    as [st' out] eqn:E.
  exists st', out. split; [reflexivity|].
  unfold install_presets, loadActivePreset in E.
  cbn [defaultPresets constructor] in E.
  rewrite JsMap_of_entries_NoDup in E by (rewrite <- Hps; exact Hnd).
  destruct (get_preset _ _) in E; injection E as <- _;
    split; try reflexivity; cbn; congruence.
Qed.

End Restart.

Section PersistenceInstances.

Import Js PromptDjMidi.

Lemma savePresetsToStorage_writes_user_presets_witness :
  let user :=
    List.filter
      (fun e =>
         negb (JsMap.has String.eqb (fst e) (defaultPresets Examples.saved)))
      (presets Examples.saved) in
  JsMap.keys user = ["Mine"%string] /\
  localStorage
    (savePresetsToStorage (reify Examples.initial_heap) Examples.saved) =
    Some (serializePresets
            (map (fun e => (fst e, reify Examples.initial_heap (snd e)))
               user)).
Proof.
  intros user. split; [vm_compute; reflexivity|].
  assert (Hnd : NoDup (JsMap.keys (presets Examples.saved)))
    by (apply (bool_decide_unpack _); vm_compute; reflexivity).
  exact (proj1 (savePresetsToStorage_writes_user_presets
                  (reify Examples.initial_heap) Examples.saved Hnd)).
Defined.

Lemma saved_registry_is_json :
  json_map (prompts MoreExamples.saved_by_value).
Proof. exact registry_is_json. Qed.

Lemma presets_survive_restart_witness :
  exists (st' : by_value) (out : list (output (list (value * value)))),
    loadPresets
      (constructor (defaultPresets MoreExamples.saved_by_value)
         (localStorage
            (savePresetsToStorage (fun m => m)
               MoreExamples.saved_by_value))) = Ok (st', out) /\
    presets st' = presets MoreExamples.saved_by_value /\
    defaultPresets st' = defaultPresets MoreExamples.saved_by_value.
Proof.
  apply (presets_survive_restart MoreExamples.saved_by_value
           [("Mine"%string, prompts MoreExamples.saved_by_value)]).
  - reflexivity.
  - apply (bool_decide_unpack _). vm_compute. reflexivity.
  - constructor; [|constructor].
    split; [discriminate|]. split; [reflexivity|].
    exact saved_registry_is_json.
Defined.

End PersistenceInstances.

(** ** The first load *)

Section FirstLoad.

Import Js PromptDjMidi.

(** X10. With nothing in storage, connecting an element built on a table
    of default presets with different names leaves the first default
    preset active, its prompts in the registry, the defaults as the store
    and exactly one [prompts-changed] event dispatched, which carries
    those prompts. On an empty table the store and the registry are
    empty, no preset is active and no event is dispatched. *)
Theorem first_load_activates_first_default (name : string)
    (m : list (value * value)) (rest : preset_values) :
  NoDup (JsMap.keys ((name, m) :: rest)) ->
  loadPresets (constructor ((name, m) :: rest) None) =
    Ok (mk value value ((name, m) :: rest) (Some name) ((name, m) :: rest)
          m None,
        [Prompts_changed m]) /\
  loadPresets (constructor [] None) =
    Ok (mk value value [] None [] [] None, []).
Proof.
  intros Hnd. split; [|reflexivity].
  unfold loadPresets. cbn [localStorage constructor bind].
  unfold install_presets. cbn [defaultPresets]. rewrite app_nil_r.
  rewrite JsMap_of_entries_NoDup by exact Hnd.
  unfold loadActivePreset, first_default. cbn.
  rewrite String.eqb_refl. reflexivity.
Qed.

Lemma first_load_activates_first_default_witness :
  exists (st : by_value) (m : list (value * value)),
    loadPresets (Examples.fresh None) = Ok (st, [Prompts_changed m]) /\
    activePresetName st = Some "Ambient Dreams"%string /\
    prompts st = m /\ length m = 16%nat.
Proof.
  destruct Examples.initialPresets_values as [|[name m] rest] eqn:E;
    [vm_compute in E; discriminate|].
  assert (Hnd : NoDup (JsMap.keys ((name, m) :: rest))).
  { rewrite <- E. apply (bool_decide_unpack _). vm_compute. reflexivity. }
  pose proof (first_load_activates_first_default name m rest Hnd) as [H _].
  unfold Examples.fresh. rewrite E.
  eexists _, m. split; [exact H|].
  assert (En : name = "Ambient Dreams"%string /\ length m = 16%nat).
  { vm_compute in E. injection E as -> <- _. split; reflexivity. }
  destruct En as [-> Hm]. repeat split. exact Hm.
Defined.

End FirstLoad.

(** ** The built-in presets *)

Section BuiltIn.

Import PromptDjMidi.

(** The id [buildInitialPresets] gives the prompt at index [i]. *)
Let id_of (i : nat) : string :=
  ("prompt-" ++ NilEmpty.string_of_uint (Nat.to_uint i))%string.

(** The prompt object it builds for the seed [s] at index [i]. *)
Let built (i : nat) (s : seed) : Types.Prompt :=
  Types.mkPrompt (id_of i) (seed_text s) (default 0%float (seed_weight s))
    (Z.of_nat i) (seed_color s).

Lemma id_of_inj (i j : nat) : id_of i = id_of j -> i = j.
Proof.
  unfold id_of. intros H. simpl in H. inversion H as [H'].
  change (NilEmpty.string_of_uint (Nat.to_uint i) =
          NilEmpty.string_of_uint (Nat.to_uint j)) in H'.
  apply Unsigned.to_uint_inj.
  pose proof (NilEmpty.usu (Nat.to_uint i)) as Hi.
  pose proof (NilEmpty.usu (Nat.to_uint j)) as Hj.
  rewrite H' in Hi. rewrite Hi in Hj. injection Hj as Hj. exact Hj.
Qed.

Lemma build_prompts_closed (seeds : list seed) :
  forall (i : nat) (h : heap) (pm : list (string * loc)),
    (forall j : nat, (i <= j)%nat -> ~ In (id_of j) (JsMap.keys pm)) ->
    build_prompts i seeds h pm =
    (h ++ imap (fun j s => built (i + j) s) seeds,
     pm ++ imap (fun j _ => (id_of (i + j), (length h + j)%nat)) seeds).
Proof.
  induction seeds as [|s seeds IH]; intros i h pm Hfresh.
  - simpl. rewrite !app_nil_r. reflexivity.
  - cbn [build_prompts]. fold (id_of i).
    rewrite JsMap_set_fresh
      by (apply JsMap_get_None, Hfresh; lia).
    rewrite IH.
    + rewrite !imap_cons, <- !app_assoc. cbn [app].
      rewrite length_app. cbn [length].
      f_equal; f_equal.
      * unfold built. rewrite Nat.add_0_r. f_equal.
        apply imap_ext. intros j x _. cbn. f_equal; f_equal; lia.
      * rewrite !Nat.add_0_r. f_equal.
        apply imap_ext. intros j x _. cbn. f_equal; [f_equal|]; lia.
    + intros j Hj Hin. unfold JsMap.keys in Hin.
      rewrite map_app in Hin. apply in_app_or in Hin as [Hin | Hin].
      * apply (Hfresh j); [lia | exact Hin].
      * simpl in Hin. destruct Hin as [Hin | []].
        apply id_of_inj in Hin. lia.
Qed.

Lemma get_numbered (f : nat -> loc) (seeds : list seed) :
  forall a i : nat,
    (i < length seeds)%nat ->
    JsMap.get String.eqb (id_of (a + i))
      (imap (fun j (_ : seed) => (id_of (a + j), f j)) seeds) = Some (f i).
Proof.
  revert f. induction seeds as [|s seeds IH]; intros f a i Hi;
    [simpl in Hi; lia|].
  rewrite imap_cons. cbn [JsMap.get]. rewrite Nat.add_0_r.
  destruct (String.eqb_spec (id_of a) (id_of (a + i))) as [E | E].
  - apply id_of_inj in E. replace i with 0%nat by lia. reflexivity.
  - destruct i as [|i]; [rewrite Nat.add_0_r in E; contradiction|].
    simpl in Hi.
    rewrite (imap_ext _ (fun j (_ : seed) => (id_of (S a + j), f (S j))));
      [|intros j x _; cbn; f_equal; f_equal; lia].
    replace (a + S i)%nat with (S a + i)%nat by lia.
    apply (IH (fun j => f (S j))). lia.
Qed.

(** The inner loop: the row at index [i] becomes the entry [prompt-i],
    in the order of the rows, with an object of its own. *)
Lemma build_prompts_rows (seeds : list seed) (h : heap) :
  let h' := fst (build_prompts 0 seeds h []) in
  let promptMap := snd (build_prompts 0 seeds h []) in
  length promptMap = length seeds /\
  (forall r : loc, (r < length h)%nat -> h' !! r = h !! r) /\
  (forall (i : nat) (s : seed),
     seeds !! i = Some s ->
     promptMap !! i =
       Some (("prompt-" ++ NilEmpty.string_of_uint (Nat.to_uint i))%string,
             (length h + i)%nat) /\
     JsMap.get String.eqb
       ("prompt-" ++ NilEmpty.string_of_uint (Nat.to_uint i))%string
       promptMap = Some (length h + i)%nat /\
     h' !! (length h + i)%nat =
       Some (Types.mkPrompt
               ("prompt-" ++ NilEmpty.string_of_uint (Nat.to_uint i))%string
               (seed_text s) (default 0%float (seed_weight s)) (Z.of_nat i)
               (seed_color s))).
Proof.
  rewrite (build_prompts_closed seeds 0 h []) by (intros j _ []).
  cbn [fst snd app]. unfold heap, loc.
  split; [apply length_imap|]. split.
  - intros r Hr. apply lookup_app_l. exact Hr.
  - intros i s Hs. fold (id_of i).
    pose proof (lookup_lt_Some _ _ _ Hs) as Hlt.
    split; [|split].
    + rewrite list_lookup_imap, Hs. reflexivity.
    + apply (get_numbered (fun j => (length h + j)%nat) seeds 0 i Hlt).
    + rewrite lookup_app_r by lia.
      replace (length h + i - length h)%nat with i by lia.
      rewrite list_lookup_imap, Hs. reflexivity.
Qed.

(** The number of rows before the preset at index [k]. *)
Let rows_before (k : nat) (table : list (string * list seed)) : nat :=
  length (concat (map snd (take k table))).

Lemma build_presets_rows (table : list (string * list seed)) :
  forall (h : heap) (ps : list (string * list (string * loc))),
    NoDup (JsMap.keys ps ++ map fst table) ->
    let h' := fst (build_presets table h ps) in
    let ps' := snd (build_presets table h ps) in
    (length h <= length h')%nat /\
    (forall r : loc, (r < length h)%nat -> h' !! r = h !! r) /\
    (forall n : string,
       ~ In n (map fst table) ->
       JsMap.get String.eqb n ps' = JsMap.get String.eqb n ps) /\
    JsMap.keys ps' = JsMap.keys ps ++ map fst table /\
    (forall (k : nat) (name : string) (seeds : list seed) (i : nat)
            (s : seed),
       table !! k = Some (name, seeds) -> seeds !! i = Some s ->
       exists pm : list (string * loc),
         JsMap.get String.eqb name ps' = Some pm /\
         length pm = length seeds /\
         pm !! i = Some (id_of i, (length h + rows_before k table + i)%nat)
         /\
         JsMap.get String.eqb (id_of i) pm =
           Some (length h + rows_before k table + i)%nat /\
         h' !! (length h + rows_before k table + i)%nat = Some (built i s)).
Proof.
  induction table as [|[name0 seeds0] rest IH]; intros h ps Hnd.
  - cbn. rewrite app_nil_r. repeat split; auto.
    intros k name seeds i s Hk. destruct k; discriminate.
  - cbn [build_presets].
    destruct (build_prompts 0 seeds0 h []) as [h1 pm0] eqn:E.
    pose proof (build_prompts_rows seeds0 h) as Hrows.
    rewrite E in Hrows. cbn [fst snd] in Hrows.
    destruct Hrows as (Hlen & Hpre & Hrow).
    assert (Hh1 : length h1 = (length h + length seeds0)%nat).
    { pose proof (build_prompts_closed seeds0 0 h []
                    (fun j _ (F : In (id_of j) []) => F)) as Hc.
      rewrite E in Hc. injection Hc as -> _.
      rewrite length_app, length_imap. reflexivity. }
    cbn [map fst] in Hnd.
    assert (Hn0 : ~ In name0 (JsMap.keys ps) /\ ~ In name0 (map fst rest)).
    { apply NoDup_ListNoDup in Hnd. split.
      - apply NoDup_remove_2 in Hnd. intros Hin. apply Hnd, in_or_app. auto.
      - apply NoDup_remove_2 in Hnd. intros Hin. apply Hnd, in_or_app. auto. }
    destruct Hn0 as [Hn0 Hn0'].
    assert (Hset : JsMap.set String.eqb name0 pm0 ps = ps ++ [(name0, pm0)])
      by (apply JsMap_set_fresh, JsMap_get_None, Hn0).
    rewrite Hset.
    assert (Hnd1 : NoDup (JsMap.keys (ps ++ [(name0, pm0)]) ++ map fst rest)).
    { unfold JsMap.keys. rewrite map_app, <- app_assoc. exact Hnd. }
    specialize (IH h1 (ps ++ [(name0, pm0)]) Hnd1).
    cbv zeta in IH. destruct IH as (IHlen & IHpre & IHget & IHkeys & IHrow).
    cbv zeta. split; [lia|]. split; [|split; [|split]].
    + intros r Hr. rewrite IHpre by lia. apply Hpre, Hr.
    + intros n Hn. rewrite IHget by (intros Hin; apply Hn; right; exact Hin).
      rewrite JsMap_get_app.
      destruct (JsMap.get String.eqb n ps); [reflexivity|].
      cbn. destruct (String.eqb_spec name0 n) as [<- | _]; [|reflexivity].
      exfalso. apply Hn. left. reflexivity.
    + rewrite IHkeys. unfold JsMap.keys. rewrite map_app, <- app_assoc.
      reflexivity.
    + intros k name seeds i s Hk Hs. destruct k as [|k].
      * cbn in Hk. injection Hk as <- <-.
        destruct (Hrow i s Hs) as (Hi & Hg & Hobj).
        exists pm0. unfold rows_before. cbn [take map concat length].
        rewrite Nat.add_0_r.
        split; [|split; [exact Hlen | split; [exact Hi | split;
                                                [exact Hg|]]]].
        -- rewrite IHget by exact Hn0'. rewrite JsMap_get_app.
           rewrite (proj2 (JsMap_get_None name0 ps) Hn0). cbn.
           rewrite String.eqb_refl. reflexivity.
        -- pose proof (lookup_lt_Some _ _ _ Hs) as Hlt.
           rewrite IHpre by lia. exact Hobj.
      * cbn in Hk. destruct (IHrow k name seeds i s Hk Hs)
          as (pm & Hg & Hl & Hi & Hgi & Hobj).
        exists pm.
        assert (Hoff : (length h + rows_before (S k) ((name0, seeds0) :: rest)
                        + i)%nat =
                       (length h1 + rows_before k rest + i)%nat).
        { unfold rows_before. cbn [take map concat snd].
          rewrite length_app. lia. }
        rewrite Hoff. auto.
Qed.

(** X11. [buildInitialPresets] on a table whose preset names are all
    different keeps the presets in the order of the table, and turns
    every row into a prompt object that no other row shares: the row at
    index [i] of the preset at index [k] is the entry with the id
    [prompt-i] of that preset, at position [i], and its object has that
    id, the text and the colour of the row, the controller number [i]
    and the weight of the row, or 0 when the row gives none. *)
Theorem buildInitialPresets_numbers_the_rows
    (table : list (string * list seed)) :
  NoDup (map fst table) ->
  let h := fst (buildInitialPresets table) in
  let presets := snd (buildInitialPresets table) in
  JsMap.keys presets = map fst table /\
  (forall (k : nat) (name : string) (seeds : list seed) (i : nat) (s : seed),
     table !! k = Some (name, seeds) -> seeds !! i = Some s ->
     let r := (length (concat (map snd (take k table))) + i)%nat in
     exists pm : list (string * loc),
       JsMap.get String.eqb name presets = Some pm /\
       length pm = length seeds /\
       pm !! i =
         Some (("prompt-" ++ NilEmpty.string_of_uint (Nat.to_uint i))%string,
               r) /\
       JsMap.get String.eqb
         ("prompt-" ++ NilEmpty.string_of_uint (Nat.to_uint i))%string pm =
         Some r /\
       h !! r =
         Some (Types.mkPrompt
                 ("prompt-" ++ NilEmpty.string_of_uint (Nat.to_uint i))%string
                 (seed_text s) (default 0%float (seed_weight s))
                 (Z.of_nat i) (seed_color s))).
Proof.
  intros Hnd. unfold buildInitialPresets.
  pose proof (build_presets_rows table [] [] Hnd) as H. cbv zeta in H.
  destruct H as (_ & _ & _ & Hkeys & Hrow).
  cbv zeta. split; [exact Hkeys|].
  intros k name seeds i s Hk Hs.
  destruct (Hrow k name seeds i s Hk Hs) as (pm & H1 & H2 & H3 & H4 & H5).
  exists pm. repeat split; assumption.
Qed.

End BuiltIn.

Section BuiltInInstances.

Import PromptDjMidi.

Lemma buildInitialPresets_numbers_the_rows_witness :
  JsMap.keys Examples.initialPresets =
    ["Ambient Dreams"; "Synthwave Drive"; "Lo-Fi Beats"]%string /\
  exists pm : list (string * loc),
    JsMap.get String.eqb "Synthwave Drive" Examples.initialPresets = Some pm
    /\
    length pm = 16%nat /\
    pm !! 2%nat = Some ("prompt-2"%string, 18%nat) /\
    JsMap.get String.eqb "prompt-2" pm = Some 18%nat /\
    Examples.initial_heap !! 18%nat =
      Some (Types.mkPrompt "prompt-2" "Sawtooth Lead Synth" 0.5%float 2
              "#ffdd28").
Proof.
  assert (Hnd : NoDup (map fst Examples.DEFAULT_PRESETS))
    by (apply (bool_decide_unpack _); vm_compute; reflexivity).
  pose proof (buildInitialPresets_numbers_the_rows Examples.DEFAULT_PRESETS
                Hnd) as [H1 H2].
  split; [exact H1|].
  destruct (Examples.DEFAULT_PRESETS !! 1%nat) as [[name seeds]|] eqn:Ek;
    [|discriminate].
  destruct (seeds !! 2%nat) as [s|] eqn:Es;
    [|vm_compute in Ek; injection Ek as _ <-; discriminate].
  pose proof (H2 1%nat name seeds 2%nat s Ek Es) as H.
  vm_compute in Ek. injection Ek as <- <-.
  vm_compute in Es. injection Es as <-.
  exact H.
Defined.

End BuiltInInstances.

(** ** Access to the MIDI inputs *)

Section Access.

Import MidiAccess.

(** X12. The first granted request is the only one. It returns the ids
    of the inputs in their order, sets a handler on every input and, when
    no input was active, makes the first input the active one. Every
    later call returns the same ids and changes nothing, whatever the
    platform would answer then, and every input of the map has its
    name. *)
Theorem getMidiAccess_asks_once (inputs : list (string * option string))
    (d : t) :
  access d = None ->
  let d1 := fst (getMidiAccess (Some (Some (Granted inputs))) d) in
  snd (getMidiAccess (Some (Some (Granted inputs))) d) =
    Returns (inputIds inputs) /\
  listening d1 = inputIds inputs /\
  activeMidiInputId d1 =
    match activeMidiInputId d with
    | Some a => Some a
    | None => head (inputIds inputs)
    end /\
  (forall p : platform, getMidiAccess p d1 = (d1, Returns (inputIds inputs)))
  /\
  (forall (id : string) (name : option string),
     NoDup (inputIds inputs) -> In (id, name) inputs ->
     getDeviceName id d1 = Returns name).
Proof.
  intros Ha. unfold getMidiAccess. rewrite Ha. cbn [fst snd].
  split; [reflexivity|]. split; [reflexivity|]. split.
  - cbn. destruct (inputIds inputs), (activeMidiInputId d); reflexivity.
  - split; [reflexivity|].
    intros id name Hnd Hin. unfold getDeviceName. cbn [access].
    assert (Hg : JsMap.get String.eqb id inputs = Some name).
    { clear Ha. unfold inputIds in Hnd.
      induction inputs as [|[k v] l IH]; [destruct Hin|].
      cbn [map fst] in Hnd.
      pose proof (NoDup_cons_1_1 _ _ Hnd) as Hk.
      apply NoDup_cons_1_2 in Hnd. cbn.
      destruct Hin as [Hin | Hin].
      - injection Hin as -> ->. rewrite String.eqb_refl. reflexivity.
      - destruct (String.eqb_spec k id) as [-> | _]; [|apply IH; auto].
        exfalso. apply Hk. rewrite list_elem_of_In.
        apply (in_map fst) in Hin. exact Hin. }
    rewrite Hg. reflexivity.
Qed.

(** X13. A rejected request is never repeated. The rejection is turned
    into the value of [this.access], so the call that sent the request
    throws a [TypeError] while reading the inputs, and so does every
    later call of [getMidiAccess] and of [getDeviceName], whatever the
    platform would answer then; no input becomes active and no handler
    is set. A platform without Web MIDI, or a request that gives [null],
    throws an [Error] and leaves the dispatcher as it was, so that a
    later call asks again. *)
Theorem getMidiAccess_rejected_for_good (d : t) :
  access d = None ->
  let d1 := fst (getMidiAccess (Some (Some Rejected)) d) in
  snd (getMidiAccess (Some (Some Rejected)) d) = Throws TypeError /\
  (forall p : platform, getMidiAccess p d1 = (d1, Throws TypeError)) /\
  (forall id : string, getDeviceName id d1 = Throws TypeError) /\
  activeMidiInputId d1 = activeMidiInputId d /\
  listening d1 = listening d /\
  getMidiAccess None d = (d, Throws (Error unsupported_message)) /\
  getMidiAccess (Some None) d = (d, Throws (Error unable_message)).
Proof.
  intros Ha. unfold getMidiAccess, getDeviceName. rewrite Ha. cbn.
  repeat split. destruct d as [a i l]. cbn in Ha. subst a. reflexivity.
Qed.

End Access.

Section AccessInstances.

Import MidiAccess.

Lemma getMidiAccess_asks_once_witness :
  let d1 := fst (getMidiAccess MoreExamples.granting init) in
  snd (getMidiAccess MoreExamples.granting init) =
    Returns ["input-1"; "input-2"]%string /\
  activeMidiInputId d1 = Some "input-1"%string /\
  getMidiAccess MoreExamples.rejecting d1 =
    (d1, Returns ["input-1"; "input-2"]%string) /\
  getDeviceName "input-1" d1 = Returns (Some "Launch Control"%string).
Proof.
  pose proof (getMidiAccess_asks_once MoreExamples.two_inputs init eq_refl)
    as (H1 & _ & H3 & H4 & H5).
  split; [exact H1|]. split; [exact H3|].
  split; [apply H4|]. apply H5.
  - apply (bool_decide_unpack _). vm_compute. reflexivity.
  - left. reflexivity.
Defined.

Lemma getMidiAccess_rejected_for_good_witness :
  let d1 := fst (getMidiAccess MoreExamples.rejecting init) in
  snd (getMidiAccess MoreExamples.rejecting init) = Throws TypeError /\
  getMidiAccess MoreExamples.granting d1 = (d1, Throws TypeError) /\
  getMidiAccess MoreExamples.granting
    (fst (getMidiAccess None init)) =
    getMidiAccess MoreExamples.granting init.
Proof.
  pose proof (getMidiAccess_rejected_for_good init eq_refl)
    as (H1 & H2 & _ & _ & _ & H6 & _).
  split; [exact H1|]. split; [apply H2|].
  rewrite H6. reflexivity.
Defined.

End AccessInstances.

(** ** The MIDI controls of the element *)

Section Panel.

Import MidiPanel.

(** X14. The MIDI controls are shown only with a granted access. After
    [setShowMidi], [showMidi] is set exactly when [true] was asked for
    and [getMidiAccess] returned; the element then lists the ids of the
    inputs and has the active input of the dispatcher, and no event is
    dispatched. When [getMidiAccess] throws, [showMidi] is cleared again,
    exactly one [error] event carries what was thrown, and the listed
    inputs and the active input of the element stay. Hiding the controls
    sends no request and dispatches nothing. *)
Theorem setShowMidi_shows_with_access (show : bool)
    (p : MidiAccess.platform) (e : t) :
  let e' := fst (setShowMidi show p e) in
  let out := snd (setShowMidi show p e) in
  (showMidi e' = true ->
   show = true /\ out = [] /\
   exists inputs : list (string * option string),
     MidiAccess.access (midiDispatcher e') =
       Some (MidiAccess.Granted inputs) /\
     midiInputIds e' = MidiAccess.inputIds inputs /\
     activeMidiInputId e' =
       MidiAccess.activeMidiInputId (midiDispatcher e')) /\
  (show = true -> showMidi e' = false ->
   exists err : MidiAccess.thrown,
     snd (MidiAccess.getMidiAccess p (midiDispatcher e)) =
       MidiAccess.Throws err /\
     out = [err] /\
     midiInputIds e' = midiInputIds e /\
     activeMidiInputId e' = activeMidiInputId e) /\
  (show = false ->
   out = [] /\ showMidi e' = false /\
   midiDispatcher e' = midiDispatcher e /\
   midiInputIds e' = midiInputIds e /\
   activeMidiInputId e' = activeMidiInputId e).
Proof.
  unfold setShowMidi. destruct show; cbn [negb].
  2:{ cbn. repeat split; intros; congruence. }
  unfold MidiAccess.getMidiAccess.
  destruct (MidiAccess.access (midiDispatcher e)) as [[inputs|]|] eqn:Ea.
  - cbn. split; [|split; intros; congruence].
    intros _. split; [reflexivity|]. split; [reflexivity|].
    exists inputs. repeat split. exact Ea.
  - cbn. split; [intros; congruence|]. split; [|intros; congruence].
    intros _ _. eexists. repeat split.
  - destruct p as [[[inputs|]|]|]; cbn.
    + split; [|split; intros; congruence].
      intros _. split; [reflexivity|]. split; [reflexivity|].
      exists inputs. repeat split.
    + split; [intros; congruence|]. split; [|intros; congruence].
      intros _ _. eexists. repeat split.
    + split; [intros; congruence|]. split; [|intros; congruence].
      intros _ _. eexists. repeat split.
    + split; [intros; congruence|]. split; [|intros; congruence].
      intros _ _. eexists. repeat split.
Qed.

(** X15. The device selector routes the messages. After
    [handleMidiInputChange] the element and the dispatcher have the
    chosen input as the active one; a control change of that input is
    dispatched when the input has a handler, and a message of any other
    input is dropped. *)
Theorem handleMidiInputChange_routes (newMidiId : string) (e : t) :
  let e' := handleMidiInputChange newMidiId e in
  activeMidiInputId e' = Some newMidiId /\
  MidiAccess.activeMidiInputId (midiDispatcher e') = Some newMidiId /\
  (forall (other : string) (data : option MidiDispatcher.packet),
     other <> newMidiId ->
     MidiAccess.receive other data (midiDispatcher e') = []) /\
  (forall channel cc value : Z,
     0 <= channel <= 15 ->
     In newMidiId (MidiAccess.listening (midiDispatcher e)) ->
     MidiAccess.receive newMidiId
       (Some (MidiDispatcher.mkPacket (0xB0 + channel) cc value))
       (midiDispatcher e') =
     [Types.mkControlChange channel cc value]).
Proof.
  cbv zeta. split; [reflexivity|]. split; [reflexivity|]. split.
  - intros other data Hne. unfold MidiAccess.receive.
    destruct (bool_decide _); [|reflexivity].
    unfold MidiDispatcher.onmidimessage. cbn.
    rewrite bool_decide_eq_false_2; [reflexivity|]. congruence.
  - intros channel cc value Hc Hin. unfold MidiAccess.receive. cbn.
    rewrite bool_decide_eq_true_2 by (rewrite list_elem_of_In; exact Hin).
    pose proof (status_nibbles (0xB0 + channel)) as Hn.
    replace ((176 <=? 0xB0 + channel) && (0xB0 + channel <=? 191))
      with true in Hn
      by (symmetry; apply andb_true_iff; split; apply Z.leb_le; lia).
    destruct Hn as [H1 H2]; [lia|].
    unfold MidiDispatcher.onmidimessage. cbn.
    rewrite bool_decide_eq_true_2 by reflexivity.
    rewrite H1, H2. cbn. f_equal. f_equal. lia.
Qed.

End Panel.

Section PanelInstances.

Import MidiPanel.

Lemma setShowMidi_shows_with_access_witness :
  (exists inputs : list (string * option string),
     MidiAccess.access
       (midiDispatcher (fst (setShowMidi true MoreExamples.granting init)))
       = Some (MidiAccess.Granted inputs) /\
     midiInputIds (fst (setShowMidi true MoreExamples.granting init)) =
       MidiAccess.inputIds inputs) /\
  snd (setShowMidi true MoreExamples.rejecting init) =
    [MidiAccess.TypeError] /\
  snd (setShowMidi false MoreExamples.granting init) = [].
Proof.
  split; [|split].
  - destruct (setShowMidi_shows_with_access true MoreExamples.granting init)
      as [H _].
    destruct (H eq_refl) as (_ & _ & inputs & H1 & H2 & _).
    exists inputs. split; assumption.
  - destruct (setShowMidi_shows_with_access true MoreExamples.rejecting init)
      as (_ & H & _).
    destruct (H eq_refl eq_refl) as (err & H1 & H2 & _).
    rewrite H2. vm_compute in H1. injection H1 as <-. reflexivity.
  - apply (setShowMidi_shows_with_access false MoreExamples.granting init).
    reflexivity.
Defined.

Lemma handleMidiInputChange_routes_witness :
  let e := fst (setShowMidi true MoreExamples.granting init) in
  MidiAccess.receive "input-2"
    (Some (MidiDispatcher.mkPacket (0xB0 + 3) 7 64))
    (midiDispatcher (handleMidiInputChange "input-2" e)) =
    [Types.mkControlChange 3 7 64] /\
  MidiAccess.receive "input-1" (Some Examples.packet_cc7)
    (midiDispatcher (handleMidiInputChange "input-2" e)) = [].
Proof.
  split.
  - apply (handleMidiInputChange_routes "input-2"
             (fst (setShowMidi true MoreExamples.granting init)));
      [lia | vm_compute; auto].
  - apply (handleMidiInputChange_routes "input-2"
             (fst (setShowMidi true MoreExamples.granting init))).
    discriminate.
Defined.

End PanelInstances.

(** ** Trimming twice *)

Section TrimTwice.

Local Open Scope string_scope.

Lemma string_app_cons (c : ascii) (s t : string) :
  String c s ++ t = String c (s ++ t).
Proof. reflexivity. Qed.

Lemma string_app_nil_l (t : string) : "" ++ t = t.
Proof. reflexivity. Qed.

Lemma string_app_nil_r (s : string) : s ++ "" = s.
Proof.
  induction s as [|c s IH]; [reflexivity|].
  rewrite string_app_cons. f_equal. exact IH.
Qed.

Lemma string_app_assoc (a b c : string) : (a ++ b) ++ c = a ++ (b ++ c).
Proof.
  induction a as [|x a IH]; [reflexivity|].
  rewrite !string_app_cons. f_equal. exact IH.
Qed.

Lemma rev_append_rev_append (s a b : string) :
  JsString.rev_append (JsString.rev_append s a) b =
  JsString.rev_append a (s ++ b).
Proof.
  revert a b. induction s as [|c s IH]; intros a b; [reflexivity|].
  rewrite string_app_cons. cbn [JsString.rev_append]. rewrite IH.
  reflexivity.
Qed.

Lemma reverse_involutive (s : string) :
  JsString.reverse (JsString.reverse s) = s.
Proof.
  unfold JsString.reverse. rewrite rev_append_rev_append.
  cbn [JsString.rev_append]. apply string_app_nil_r.
Qed.

Lemma rev_append_app (s acc : string) :
  JsString.rev_append s acc = JsString.reverse s ++ acc.
Proof.
  unfold JsString.reverse. revert acc.
  induction s as [|c s IH]; intros acc; [reflexivity|].
  cbn [JsString.rev_append].
  rewrite IH, (IH (String c "")), string_app_assoc. reflexivity.
Qed.

Lemma reverse_app (a b : string) :
  JsString.reverse (a ++ b) = JsString.reverse b ++ JsString.reverse a.
Proof.
  unfold JsString.reverse at 1. revert b.
  assert (H : forall a b acc,
             JsString.rev_append (a ++ b) acc =
             JsString.rev_append b (JsString.rev_append a acc)).
  { clear. induction a as [|x a IH]; intros b acc; [reflexivity|].
    rewrite string_app_cons. cbn [JsString.rev_append]. apply IH. }
  intros b. rewrite H, rev_append_app. reflexivity.
Qed.

Lemma trimStart_twice (s : string) :
  JsString.trimStart (JsString.trimStart s) = JsString.trimStart s.
Proof.
  induction s as [|c s IH]; simpl; [reflexivity|].
  destruct (JsString.is_white_space c) eqn:E; [exact IH|].
  simpl. rewrite E. reflexivity.
Qed.

Lemma trimStart_clean (s : string) :
  TextKeys.starts_clean (JsString.trimStart s) = true.
Proof.
  induction s as [|c s IH]; simpl; [reflexivity|].
  destruct (JsString.is_white_space c) eqn:E; [exact IH|].
  simpl. rewrite E. reflexivity.
Qed.

Lemma starts_clean_trimStart (s : string) :
  TextKeys.starts_clean s = true -> JsString.trimStart s = s.
Proof.
  destruct s as [|c s]; simpl; [reflexivity|].
  destruct (JsString.is_white_space c); [discriminate | reflexivity].
Qed.

(** The start that [trimStart] drops. *)
Lemma trimStart_split (s : string) :
  exists w : string, s = w ++ JsString.trimStart s.
Proof.
  induction s as [|c s [w IH]]; [exists ""; reflexivity|].
  cbn [JsString.trimStart]. destruct (JsString.is_white_space c).
  - exists (String c w). rewrite string_app_cons. f_equal. exact IH.
  - exists "". reflexivity.
Qed.

(** [trimEnd] keeps a start of the string. *)
Lemma trimEnd_prefix (t : string) :
  exists r : string, t = JsString.trimEnd t ++ r.
Proof.
  unfold JsString.trimEnd.
  destruct (trimStart_split (JsString.reverse t)) as [w Hw].
  exists (JsString.reverse w).
  rewrite <- reverse_app, <- Hw, reverse_involutive. reflexivity.
Qed.

Lemma trimEnd_clean (t : string) :
  TextKeys.starts_clean t = true ->
  TextKeys.starts_clean (JsString.trimEnd t) = true.
Proof.
  intros Ht. destruct (trimEnd_prefix t) as [r Hr].
  destruct (JsString.trimEnd t) as [|c x]; [reflexivity|].
  rewrite Hr in Ht. exact Ht.
Qed.

Lemma trimEnd_twice (t : string) :
  JsString.trimEnd (JsString.trimEnd t) = JsString.trimEnd t.
Proof.
  unfold JsString.trimEnd.
  rewrite reverse_involutive, trimStart_twice. reflexivity.
Qed.

(** What [trim] gives, [trim] leaves alone. *)
Lemma trim_twice (s : string) :
  JsString.trim (JsString.trim s) = JsString.trim s.
Proof.
  unfold JsString.trim.
  rewrite (starts_clean_trimStart (JsString.trimEnd (JsString.trimStart s)))
    by (apply trimEnd_clean, trimStart_clean).
  apply trimEnd_twice.
Qed.

End TrimTwice.

(** ** Committing and discarding an edit *)

Section Keys.

Import TextKeys.

(** X16. The last valid text stays a trimmed text under [updateText].
    Given that, a second [blur] with no edit in between changes nothing
    and dispatches the same event as the first; [Escape] puts the last
    valid text back as the text and as the content of the element and
    dispatches one event with it; [Enter] commits as a [blur] does; any
    other key leaves the controller alone. *)
Theorem updateText_settles (k : PromptController.t) :
  lastValidText_trimmed k ->
  lastValidText_trimmed (fst (PromptController.updateText k)) /\
  PromptController.updateText (fst (PromptController.updateText k)) =
    PromptController.updateText k /\
  onKeyDown "Escape" k =
    (PromptController.resetText k,
     PromptController.dispatchPromptChange (PromptController.resetText k)) /\
  onKeyDown "Enter" k = PromptController.updateText k /\
  (forall key : string,
     key <> "Enter"%string -> key <> "Escape"%string ->
     onKeyDown key k = (k, [])).
Proof.
  unfold lastValidText_trimmed. intros Hk.
  assert (Hreset : PromptController.updateText (PromptController.resetText k)
                   = (PromptController.resetText k,
                      PromptController.dispatchPromptChange
                        (PromptController.resetText k))).
  { unfold PromptController.updateText.
    cbn [PromptController.textContent PromptController.resetText].
    rewrite Hk.
    destruct (JsString.truthy (PromptController.lastValidText k)); cbn [negb].
    - reflexivity.
    - reflexivity. }
  split; [|split; [|split; [|split]]].
  - unfold PromptController.updateText. cbn [fst].
    destruct (JsString.truthy _); cbn [negb].
    + cbn. apply trim_twice.
    + cbn. exact Hk.
  - unfold PromptController.updateText at 2 3. cbn [fst].
    destruct (JsString.truthy
                (JsString.trim (PromptController.textContent k))) eqn:E;
      cbn [negb].
    + unfold PromptController.updateText.
      cbn [PromptController.textContent]. rewrite E. reflexivity.
    + exact Hreset.
  - unfold onKeyDown.
    change (String.eqb "Escape" "Enter") with false.
    change (String.eqb "Escape" "Escape") with true.
    cbv beta iota zeta. rewrite Hreset. reflexivity.
  - unfold onKeyDown.
    change (String.eqb "Enter" "Enter") with true.
    change (String.eqb "Enter" "Escape") with false.
    cbv beta iota zeta.
    destruct (PromptController.updateText k). rewrite app_nil_r.
    reflexivity.
  - intros key H1 H2. unfold onKeyDown.
    apply String.eqb_neq in H1, H2. rewrite H1, H2. reflexivity.
Qed.

Lemma updateText_settles_witness :
  PromptController.updateText
    (fst (PromptController.updateText MoreExamples.editing)) =
    PromptController.updateText MoreExamples.editing /\
  PromptController.text (fst (onKeyDown "Escape" MoreExamples.editing)) =
    "Lush Strings"%string /\
  PromptController.text (fst (onKeyDown "Enter" MoreExamples.editing)) =
    "Soft Str"%string.
Proof.
  pose proof (updateText_settles MoreExamples.editing eq_refl)
    as (_ & H2 & H3 & H4 & _).
  split; [exact H2|]. split.
  - rewrite H3. reflexivity.
  - rewrite H4. reflexivity.
Defined.

End Keys.

(** ** Stored texts of other shapes *)

Section Shapes.

Import Js PromptDjMidi.

Lemma collect_presets_throws (own : list (string * value)) :
  forall (acc : preset_values) (name : string) (v : value),
    In (name, v) own ->
    JsObject.new_Map v = Throw TypeError ->
    (forall e : string * value,
       In e own -> JsObject.new_Map (snd e) <> Throw SyntaxError) ->
    collect_presets own acc = Throw TypeError.
Proof.
  induction own as [|[n x] own IH]; intros acc name v Hin Hv Hs;
    [destruct Hin|].
  cbn [collect_presets].
  destruct (JsObject.new_Map x) as [m | [|]] eqn:E; cbn [bind].
  - destruct Hin as [Hin | Hin]; [congruence|].
    apply (IH _ name v Hin Hv). intros e He. apply Hs. right. exact He.
  - exfalso. apply (Hs (n, x)); [left; reflexivity | exact E].
  - reflexivity.
Qed.

Lemma add_entries_no_SyntaxError (entries : list value) :
  forall m : list (value * value),
    JsObject.add_entries entries m <> Throw SyntaxError.
Proof.
  induction entries as [|e entries IH]; intros m; cbn; [discriminate|].
  destruct (is_object e); [|discriminate].
  destruct (JsObject.entry_key_value e). apply IH.
Qed.

Lemma new_Map_no_SyntaxError (v : value) :
  JsObject.new_Map v <> Throw SyntaxError.
Proof.
  destruct v; cbn; try discriminate; apply add_entries_no_SyntaxError.
Qed.

(** X17. What [deserializePresets] makes of a JSON text that is not a
    table of presets. The text of [null], of a boolean, of a number, of
    the empty string, of the empty array or of the empty object gives no
    presets and no error. The text of an object one of whose properties
    is a number, a boolean, an object or a string that is not empty
    throws a [TypeError], as [new Map] does on such a value, whatever
    the other properties are. *)
Theorem deserializePresets_other_shapes :
  (forall v : value,
     v = VNull \/ (exists b, v = VBool b) \/ (exists x, v = VNum x) \/
     v = VStr EmptyString \/ v = VArr [] \/ v = VObj [] ->
     deserializePresets (Json.Text_json v) = Ok []) /\
  (forall (props : list (string * value)) (name : string) (v : value),
     In (name, v) props ->
     (exists b, v = VBool b) \/ (exists x, v = VNum x) \/
     (exists ps, v = VObj ps) \/
     (exists c s, v = VStr (String c s)) ->
     deserializePresets (Json.Text_json (VObj props)) = Throw TypeError).
Proof.
  split.
  - intros v [-> | [[b ->] | [[x ->] | [-> | [-> | ->]]]]]; reflexivity.
  - intros props name v Hin Hv.
    unfold deserializePresets. cbn [Json.parse bind JsObject.own_entries].
    apply (collect_presets_throws props [] name v Hin).
    + destruct Hv as [[b ->] | [[x ->] | [[ps ->] | (c & s & ->)]]];
        reflexivity.
    + intros e _. apply new_Map_no_SyntaxError.
Qed.

Lemma deserializePresets_other_shapes_witness :
  deserializePresets (Json.Text_json (VNum 5%float)) = Ok [] /\
  deserializePresets
    (Json.Text_json
       (VObj [("Mine"%string, VArr []); ("Other"%string, VStr "x")])) =
    Throw TypeError.
Proof.
  destruct deserializePresets_other_shapes as [H1 H2]. split.
  - apply H1. right. right. left. eexists. reflexivity.
  - apply (H2 _ "Other"%string (VStr "x")).
    + right. left. reflexivity.
    + right. right. right. eexists _, _. reflexivity.
Defined.

(** X18. A stored preset that has the name of a default preset takes the
    place of the built-in one when the presets are loaded: the store
    keeps the names of the defaults in their order, and the prompts under
    that name are the stored ones. *)
Theorem loadPresets_stored_default_overrides (name : string)
    (m : list (value * value)) (st : by_value) :
  localStorage st = Some (serializePresets [(name, m)]) ->
  json_map m ->
  name <> "__proto__"%string ->
  NoDup (JsMap.keys (defaultPresets st)) ->
  JsMap.has String.eqb name (defaultPresets st) = true ->
  exists (st' : by_value) (out : list (output (list (value * value)))),
    loadPresets st = Ok (st', out) /\
    JsMap.keys (presets st') = JsMap.keys (defaultPresets st) /\
    JsMap.get String.eqb name (presets st') = Some m /\
    defaultPresets st' = defaultPresets st.
Proof.
  intros Hs Hm Hp Hnd Hd. unfold loadPresets. rewrite Hs.
  change (Json.truthy (serializePresets [(name, m)])) with true. cbv iota.
  rewrite deserialize_serialize by (constructor; [exact Hm | constructor]).
  cbn [bind].
  assert (Ho : enumeration_order [(name, m)] = [(name, m)]).
  { unfold enumeration_order. cbn [fold_left fst snd].
    unfold JsObject.assign. apply String.eqb_neq in Hp. rewrite Hp.
    unfold JsObject.define_own. cbn.
    destruct (JsObject.array_index name); reflexivity. }
  rewrite Ho.
  destruct (install_presets [(name, m)] st) as [st' out] eqn:E.
  exists st', out. split; [reflexivity|].
  unfold install_presets in E.
  assert (Hps : JsMap.of_entries String.eqb (defaultPresets st ++ [(name, m)])
                = JsMap.set String.eqb name m (defaultPresets st)).
  { unfold JsMap.of_entries. rewrite fold_left_app. cbn [fold_left fst snd].
    f_equal. apply JsMap_of_entries_NoDup, Hnd. }
  rewrite Hps in E.
  assert (Hst : presets st' =
                JsMap.set String.eqb name m (defaultPresets st) /\
                defaultPresets st' = defaultPresets st).
  { unfold loadActivePreset in E.
    destruct (get_preset _ _) in E; injection E as <- _; split; reflexivity. }
  destruct Hst as [-> ->]. split; [|split; [|reflexivity]].
  - apply JsMap_keys_set_present, Hd.
  - apply JsMap_get_set_eq.
Qed.

End Shapes.

Section ShapesInstances.

Import Js PromptDjMidi.

Lemma loadPresets_stored_default_overrides_witness :
  exists (st' : by_value) (out : list (output (list (value * value)))),
    loadPresets
      (Examples.fresh
         (Some (serializePresets [("Lo-Fi Beats"%string, [])]))) =
      Ok (st', out) /\
    JsMap.keys (presets st') =
      JsMap.keys
        (defaultPresets
           (Examples.fresh
              (Some (serializePresets [("Lo-Fi Beats"%string, [])])))) /\
    JsMap.get String.eqb "Lo-Fi Beats" (presets st') = Some [] /\
    defaultPresets st' =
      defaultPresets
        (Examples.fresh
           (Some (serializePresets [("Lo-Fi Beats"%string, [])]))).
Proof.
  apply (loadPresets_stored_default_overrides "Lo-Fi Beats" []
           (Examples.fresh
              (Some (serializePresets [("Lo-Fi Beats"%string, [])])))).
  - reflexivity.
  - split; [apply NoDup_nil_2 | apply Forall_nil_2].
  - discriminate.
  - apply (bool_decide_unpack _). vm_compute. reflexivity.
  - reflexivity.
Defined.

Lemma proto_never_survives_witness :
  exists back : preset_values,
    deserializePresets
      (serializePresets
         [("__proto__"%string, prompts MoreExamples.saved_by_value);
          ("Mine"%string, prompts MoreExamples.saved_by_value)]) = Ok back /\
    ~ In "__proto__"%string (JsMap.keys back).
Proof.
  apply (proto_never_survives
           [("__proto__"%string, prompts MoreExamples.saved_by_value);
            ("Mine"%string, prompts MoreExamples.saved_by_value)]).
  constructor; [exact saved_registry_is_json|].
  constructor; [exact saved_registry_is_json | constructor].
Defined.

End ShapesInstances.

(** ** From the knob to the registry *)

Section KnobToRegistry.

Import PromptDjMidi.

Local Open Scope float_scope.

(** X19. From a pointer move or a turn of the wheel to the registry.
    The handler of the knob dispatches exactly one [input] event, whose
    detail is the value the knob now has, a value in [[0, 2]]. The
    controller takes that value as its weight, keeps its text and its
    controller number, and dispatches exactly one changed event with
    them; and the handling of that event leaves the registry's prompt
    with that weight, with the controller's text and number and with its
    own id and colour. *)
Theorem knob_input_reaches_registry (y d : float) (knob : WeightKnob.t)
    (k : PromptController.t) (h : heap) (st : by_reference) (r : loc)
    (p : Types.Prompt) :
  PrimFloat.is_finite y = true ->
  PrimFloat.is_finite d = true ->
  WeightKnob.in_range knob = true ->
  JsMap.get String.eqb (PromptController.promptId k) (prompts st) = Some r ->
  h !! r = Some p ->
  forall res : WeightKnob.t * WeightKnob.events,
    res = WeightKnob.handlePointerMove y knob \/
    res = WeightKnob.handleWheel d knob ->
    let v := WeightKnob.value (fst res) in
    let k' := fst (PromptController.updateWeight v k) in
    let changed :=
      Types.mkPrompt (PromptController.promptId k) (PromptController.text k)
        v (PromptController.cc k) (PromptController.color k) in
    snd res = [v] /\
    JsNum.between 0 2 v = true /\
    PromptController.weight k' = v /\
    PromptController.text k' = PromptController.text k /\
    PromptController.cc k' = PromptController.cc k /\
    PromptController.promptId k' = PromptController.promptId k /\
    snd (PromptController.updateWeight v k) = [changed] /\
    fst (fst (handlePromptChanged changed h st)) !! r =
      Some (Types.mkPrompt (Types.promptId p) (PromptController.text k) v
              (PromptController.cc k) (Types.color p)).
Proof.
  intros Hy Hd Hk Hr Hp res Hres v k' changed.
  assert (Hs : exists e : WeightKnob.event,
             WeightKnob.event_finite e = true /\
             v = WeightKnob.value (WeightKnob.step knob e) /\
             snd res = [v]).
  { subst v. destruct Hres as [-> | ->].
    - exists (WeightKnob.PointerMove y). split; [exact Hy|].
      split; reflexivity.
    - exists (WeightKnob.Wheel d). split; [exact Hd|].
      split; reflexivity. }
  destruct Hs as (e & He & Hv & Hev).
  split; [exact Hev|]. split; [|repeat (split; [reflexivity|])].
  - rewrite Hv.
    pose proof (step_in_range knob e He Hk) as H.
    unfold WeightKnob.in_range in H.
    apply andb_true_iff in H as [H _].
    apply andb_true_iff in H as [H _]. exact H.
  - unfold handlePromptChanged, changed. cbn [Types.promptId]. rewrite Hr.
    cbn [fst]. unfold heap, loc in *.
    rewrite list_lookup_alter_eq, Hp. reflexivity.
Qed.

Lemma knob_input_reaches_registry_witness :
  snd (WeightKnob.handlePointerMove 250 Examples.dragged_knob) = [1.5] /\
  PromptController.weight
    (fst (PromptController.updateWeight 1.5 Examples.knob_cc7)) = 1.5 /\
  snd (PromptController.updateWeight 1.5 Examples.knob_cc7) =
    [Types.mkPrompt "prompt-7" "Glassy FM Synthesis" 1.5 7 "#d9b2ff"] /\
  fst (fst (handlePromptChanged
              (Types.mkPrompt "prompt-7" "Glassy FM Synthesis" 1.5 7
                 "#d9b2ff")
              Examples.initial_heap Examples.started)) !! 7%nat =
    Some (Types.mkPrompt "prompt-7" "Glassy FM Synthesis" 1.5 7 "#d9b2ff").
Proof.
  pose proof (knob_input_reaches_registry 250 0 Examples.dragged_knob
                Examples.knob_cc7 Examples.initial_heap Examples.started
                7%nat
                (Types.mkPrompt "prompt-7" "Glassy FM Synthesis" 0 7
                   "#d9b2ff")
                eq_refl eq_refl eq_refl eq_refl eq_refl
                (WeightKnob.handlePointerMove 250 Examples.dragged_knob)
                (or_introl eq_refl)) as H.
  cbv zeta in H.
  change (WeightKnob.value
            (fst (WeightKnob.handlePointerMove 250 Examples.dragged_knob)))
    with 1.5 in H.
  destruct H as (H1 & _ & H3 & _ & _ & _ & H7 & H8).
  exact (conj H1 (conj H3 (conj H7 H8))).
Defined.

End KnobToRegistry.
